(** * backuper: retention, configuration merge, archive naming, target
      selection, write probes, reports, cleaning and the run loop of
      [backup.py]

    The development embeds the orchestration core of [backup.py] and states
    its properties.  The first part holds the definitions, each one next to
    the lines of [backup.py] it follows; the second part holds the lemmas. *)

From Stdlib Require Import ZArith Lia Bool List String Ascii.
From stdpp Require Import base option list gmap strings fin_maps.
Import ListNotations.

#[local] Set Warnings "-register-all".

(* ===================================================================== *)
(** * Part I: definitions                                                 *)
(* ===================================================================== *)

(** ** Python results

    A call either returns a value or raises.  Only the exception classes that
    the modelled code can raise are listed. *)
Module Py.

Inductive exn : Type :=
| ValueError
| OverflowError
| TypeError
| RuntimeError (msg : string)
| ConfigError (msg : string)
| OSError (msg : string).

Inductive result (A : Type) : Type :=
| Ok (a : A)
| Raise (e : exn).
Arguments Ok {A} a.
Arguments Raise {A} e.

Definition bind {A B} (r : result A) (k : A -> result B) : result B :=
  match r with
  | Ok a => k a
  | Raise e => Raise e
  end.

Definition returns {A} (r : result A) : Prop := exists a, r = Ok a.

End Py.
Export Py.

Notation "'let*' x ':=' c 'in' k" := (Py.bind c (fun x => k))
  (at level 10, x name, c at level 100, k at level 200, only parsing).

(** ** [datetime.date]

    Dates are the triples of Python's [datetime.date]; the ordinal functions
    follow [_ymd2ord] and [_ord2ymd] of the standard library, comparison is
    the comparison of the (year, month, day) triples. *)
Module Calendar.
Local Open Scope Z_scope.

Definition MINYEAR : Z := 1.
Definition MAXYEAR : Z := 9999.
Definition MAXORDINAL : Z := 3652059.

Definition is_leap (year : Z) : bool :=
  (year mod 4 =? 0) && (negb (year mod 100 =? 0) || (year mod 400 =? 0)).

Definition days_before_year (year : Z) : Z :=
  let y := year - 1 in y * 365 + y / 4 - y / 100 + y / 400.

Definition DAYS_IN_MONTH (month : Z) : Z :=
  match month with
  | 1 => 31 | 2 => 28 | 3 => 31 | 4 => 30 | 5 => 31 | 6 => 30
  | 7 => 31 | 8 => 31 | 9 => 30 | 10 => 31 | 11 => 30 | 12 => 31
  | _ => -1
  end.

Definition DAYS_BEFORE_MONTH (month : Z) : Z :=
  match month with
  | 1 => 0 | 2 => 31 | 3 => 59 | 4 => 90 | 5 => 120 | 6 => 151
  | 7 => 181 | 8 => 212 | 9 => 243 | 10 => 273 | 11 => 304 | 12 => 334
  | _ => -1
  end.

Definition days_in_month (year month : Z) : Z :=
  if (month =? 2) && is_leap year then 29 else DAYS_IN_MONTH month.

Definition days_before_month (year month : Z) : Z :=
  DAYS_BEFORE_MONTH month + (if (2 <? month) && is_leap year then 1 else 0).

Definition ymd2ord (year month day : Z) : Z :=
  days_before_year year + days_before_month year month + day.

Definition DI400Y : Z := 146097.
Definition DI100Y : Z := 36524.
Definition DI4Y : Z := 1461.

Definition ord2ymd (n0 : Z) : Z * Z * Z :=
  let n := n0 - 1 in
  let n400 := n / DI400Y in
  let n := n mod DI400Y in
  let year := n400 * 400 + 1 in
  let n100 := n / DI100Y in
  let n := n mod DI100Y in
  let n4 := n / DI4Y in
  let n := n mod DI4Y in
  let n1 := n / 365 in
  let n := n mod 365 in
  let year := year + n100 * 100 + n4 * 4 + n1 in
  if (n1 =? 4) || (n100 =? 4) then (year - 1, 12, 31)
  else
    let leapyear := (n1 =? 3) && (negb (n4 =? 24) || (n100 =? 3)) in
    let month := Z.shiftr (n + 50) 5 in
    let preceding :=
      DAYS_BEFORE_MONTH month + (if (2 <? month) && leapyear then 1 else 0) in
    let '(month, preceding) :=
      if n <? preceding
      then (month - 1,
            preceding - (DAYS_IN_MONTH (month - 1)
                         + (if (month - 1 =? 2) && leapyear then 1 else 0)))
      else (month, preceding) in
    (year, month, n - preceding + 1).

Record date : Type := mkdate { year : Z; month : Z; day : Z }.

Definition valid_ymd (y m d : Z) : bool :=
  (MINYEAR <=? y) && (y <=? MAXYEAR) && (1 <=? m) && (m <=? 12)
  && (1 <=? d) && (d <=? days_in_month y m).

(** The invariant of every [datetime.date] object. *)
Definition valid (d : date) : bool := valid_ymd (year d) (month d) (day d).

(** [datetime.date(year, month, day)]: [ValueError] outside the calendar. *)
Definition date_new (y m d : Z) : result date :=
  if valid_ymd y m d then Ok (mkdate y m d) else Raise ValueError.

Definition toordinal (d : date) : Z := ymd2ord (year d) (month d) (day d).

Definition fromordinal (n : Z) : date :=
  let '(y, m, d) := ord2ymd n in mkdate y m d.

(** [date.isoweekday()]: Monday is 1, Sunday is 7. *)
Definition isoweekday (d : date) : Z :=
  let w := toordinal d mod 7 in if w =? 0 then 7 else w.

(** [a >= b] on dates compares the (year, month, day) triples. *)
Definition date_ge (a b : date) : bool :=
  if year a =? year b then
    if month a =? month b then day b <=? day a else month b <? month a
  else year b <? year a.

(** [datetime.timedelta(days=n)]: at most 999999999 days either way. *)
Definition timedelta (days : Z) : result Z :=
  if (-999999999 <=? days) && (days <=? 999999999) then Ok days
  else Raise OverflowError.

(** [d - delta] for a [timedelta] of [delta] days. *)
Definition date_sub (d : date) (delta : Z) : result date :=
  let o := toordinal d - delta in
  if (0 <? o) && (o <=? MAXORDINAL) then Ok (fromordinal o)
  else Raise OverflowError.

(** [(a - b).days] for two dates. *)
Definition days_between (a b : date) : Z := toordinal a - toordinal b.

End Calendar.

(** ** [BackupFrequency] (lines 1758-1849) and [MemoryStorage.should_save] *)
Module Retention.
Import Calendar.
Local Open Scope Z_scope.

Definition ALL_VALUE : Z := -1.
Definition NO_VALUE : Z := 0.

Record BackupFrequency : Type := mkfreq {
  _day : Z; _week : Z; _month : Z; _year : Z
}.

(** What [_parse_freq] can build: each tier is [ALL_VALUE] or the value of
    a string of decimal digits. *)
Definition parsed (f : BackupFrequency) : Prop :=
  -1 <= _day f /\ -1 <= _week f /\ -1 <= _month f /\ -1 <= _year f.

Definition is_empty (f : BackupFrequency) : bool :=
  forallb (fun freq => freq =? NO_VALUE) [_day f; _week f; _month f; _year f].

Definition need_deletion (f : BackupFrequency) : bool :=
  existsb (fun freq => negb ((freq =? ALL_VALUE) || (freq =? NO_VALUE)))
          [_day f; _week f; _month f; _year f].

(** The week tier of [should_keep] (lines 1801-1809); [Ok false] stands for
    falling through to the next tier. *)
Definition keep_week (f : BackupFrequency) (now d : date) : result bool :=
  if isoweekday d =? 1 then
    if _week f =? ALL_VALUE then Ok true
    else if negb (_week f =? NO_VALUE) then
      let* delta := timedelta (isoweekday now + 7 * _week f - 8) in
      let* last_allowed_date := date_sub now delta in
      Ok (date_ge d last_allowed_date)
    else Ok false
  else Ok false.

(** The month tier (lines 1811-1821), entered when [date.day == 1].
    [int(math.floor(x / 12))] is the floor quotient and [%] the remainder of
    the same sign as 12, which are [/] and [mod] on [Z]. *)
Definition keep_month (f : BackupFrequency) (now d : date) : result bool :=
  if _month f =? ALL_VALUE then Ok true
  else if negb (_month f =? NO_VALUE) then
    let* last_allowed_date := date_new (year now + (month now - _month f) / 12)
                                  ((month now - _month f) mod 12 + 1) 1 in
    Ok (date_ge d last_allowed_date)
  else Ok false.

(** The year tier (lines 1822-1833), nested in the [date.day == 1] block. *)
Definition keep_year (f : BackupFrequency) (now d : date) : result bool :=
  if month d =? 1 then
    if _year f =? ALL_VALUE then Ok true
    else if negb (_year f =? NO_VALUE) then
      let* last_allowed_date := date_new (year now - _year f + 1) 1 1 in
      Ok (date_ge d last_allowed_date)
    else Ok false
  else Ok false.

(** [BackupFrequency.should_keep(date)]; [now] is [TimeReference.get().date()],
    fixed for the whole run. *)
Definition should_keep (f : BackupFrequency) (now d : date) : result bool :=
  if _day f =? ALL_VALUE then Ok true
  else if negb (_day f =? NO_VALUE) && (days_between now d + 1 <=? _day f)
  then Ok true
  else
    let* w := keep_week f now d in
    if w then Ok true
    else if day d =? 1 then
      let* m := keep_month f now d in
      if m then Ok true
      else keep_year f now d
    else Ok false.

(** [MemoryStorage.should_save] (lines 699-700) for a storage holding [f]. *)
Definition should_save (f : BackupFrequency) (now : date) : result bool :=
  should_keep f now now.

(** The cutoff dates that [should_keep] builds for the numeric tiers lie in
    the calendar of [datetime.date]: the week cutoff is not before
    0001-01-01, and the years of the month and year cutoffs are at least 1.
    Outside of this, building the cutoff raises. *)
Definition cutoffs_in_calendar (f : BackupFrequency) (now : date) : Prop :=
  7 * (_week f - 1) < toordinal now
  /\ 1 <= year now + (month now - _month f) / 12
  /\ _year f <= year now.

(** The days on which a tier other than NONE asks for a snapshot. *)
Definition save_day (f : BackupFrequency) (now : date) : bool :=
  negb (_day f =? NO_VALUE)
  || (isoweekday now =? 1) && negb (_week f =? NO_VALUE)
  || (day now =? 1) && negb (_month f =? NO_VALUE)
  || (day now =? 1) && (month now =? 1) && negb (_year f =? NO_VALUE).

End Retention.

(** ** Configuration values and [deep_merge] (lines 256-281, 443-476)

    A configuration document is what the YAML or JSON loader returns: [None],
    a scalar, a list or a dict with string keys.  A dict keeps its keys in
    insertion order, each key once. *)
Module Merge.

(** The scalars of a document; a float is held as its binary64 pattern. *)
Inductive scalar : Type :=
| SStr (s : string)
| SInt (z : Z)
| SBool (b : bool)
| SFloat (bits : Z).

Inductive value : Type :=
| VNone
| VScalar (s : scalar)
| VList (l : list value)
| VDict (d : list (string * value)).

(** [is_primitive]: str, int, bool, float. *)
Definition is_primitive (var : value) : bool :=
  match var with VScalar _ => true | _ => false end.

Definition is_dict (var : value) : bool :=
  match var with VDict _ => true | _ => false end.

(** [is_array]: neither primitive nor dict, and an instance of
    [collections.Iterable] (as Python 2 and Python 3 up to 3.9 have it);
    among configuration values, the lists. *)
Definition is_array (var : value) : bool :=
  if is_primitive var then false
  else if is_dict var then false
  else match var with VList _ => true | _ => false end.

Definition keys {A} (d : list (string * A)) : list string := map fst d.

(** [d[key]], when [key in d.keys()]. *)
Fixpoint dict_get {A} (key : string) (d : list (string * A)) : option A :=
  match d with
  | [] => None
  | (k, v) :: rest => if String.eqb k key then Some v else dict_get key rest
  end.

(** [d[key] = val]: in place when the key is there, at the end otherwise. *)
Fixpoint dict_set {A} (key : string) (val : A) (d : list (string * A))
  : list (string * A) :=
  match d with
  | [] => [(key, val)]
  | (k, v) :: rest =>
      if String.eqb k key then (k, val) :: rest
      else (k, v) :: dict_set key val rest
  end.

(** The loop of lines 470-474 over [new.items()], [merge] being the
    recursive call. *)
Definition merge_items (merge : value -> value -> value)
  : list (string * value) -> list (string * value) -> list (string * value) :=
  fix loop items result :=
    match items with
    | [] => result
    | (key, val) :: rest =>
        loop rest
             (match dict_get key result with
              | Some old => dict_set key (merge old val) result
              | None => dict_set key val result
              end)
    end.

(** [deep_merge(src, new)]; [copy.deepcopy] is the identity on values. *)
Fixpoint deep_merge (src new : value) {struct new} : value :=
  match new with
  | VNone => src
  | _ =>
      match src with
      | VNone => new
      | VList result =>
          match new with
          | VList l => VList (result ++ l)
          | _ => VList (result ++ [new])
          end
      | VDict result =>
          match new with
          | VList l => VList (l ++ [src])
          | VDict items => VDict (merge_items deep_merge items result)
          | _ => VList [src; new]
          end
      | VScalar _ => VList [src; new]
      end
  end.

End Merge.

(** ** Python strings and paths

    The [str], [re] and [os.path] operations that the archive listing and the
    target selector use, on strings of 8-bit characters. *)
Module PyStr.
Local Open Scope string_scope.

Definition newline : ascii := "010"%char.

Definition is_digit (c : ascii) : bool :=
  (48 <=? nat_of_ascii c)%nat && (nat_of_ascii c <=? 57)%nat.

(** The characters that [int()] skips on both sides of a number. *)
Definition is_space (c : ascii) : bool :=
  let n := nat_of_ascii c in
  (n =? 32)%nat || ((9 <=? n)%nat && (n <=? 13)%nat).

Fixpoint contains (c : ascii) (s : string) : bool :=
  match s with
  | EmptyString => false
  | String c' rest => Ascii.eqb c' c || contains c rest
  end.

(** [s[a:b]] for [0 <= a <= b]. *)
Definition slice (a b : nat) (s : string) : string :=
  String.substring a (b - a) s.

(** [s.startswith(p)] *)
Definition startswith (p s : string) : bool := String.prefix p s.

(** The text before and after the first [sep], when there is one. *)
Fixpoint split_first (sep : ascii) (s : string) : option (string * string) :=
  match s with
  | EmptyString => None
  | String c rest =>
      if Ascii.eqb c sep then Some (EmptyString, rest)
      else match split_first sep rest with
           | Some (a, b) => Some (String c a, b)
           | None => None
           end
  end.

(** [s.split(sep, maxsplit)] for a separator of one character. *)
Fixpoint split (sep : ascii) (maxsplit : nat) (s : string) : list string :=
  match maxsplit with
  | O => [s]
  | S n =>
      match split_first sep s with
      | Some (a, b) => a :: split sep n b
      | None => [s]
      end
  end.

(** [a, b = parts]: unpacking into two names. *)
Definition unpack2 (parts : list string) : result (string * string) :=
  match parts with
  | [a; b] => Ok (a, b)
  | _ => Raise ValueError
  end.

(** [[0-9]*$]: [$] matches at the end and before a newline that ends the
    string. *)
Fixpoint re_digits_end (s : string) : bool :=
  match s with
  | EmptyString => true
  | String c rest =>
      if is_digit c then re_digits_end rest
      else Ascii.eqb c newline && String.eqb rest EmptyString
  end.

(** [re.match(r"^[0-9]+$", s)] *)
Definition re_match_digits (s : string) : bool :=
  match s with
  | EmptyString => false
  | String c rest => is_digit c && re_digits_end rest
  end.

Fixpoint lstrip (s : string) : string :=
  match s with
  | EmptyString => EmptyString
  | String c rest => if is_space c then lstrip rest else s
  end.

Fixpoint rstrip (s : string) : string :=
  match s with
  | EmptyString => EmptyString
  | String c rest =>
      match rstrip rest with
      | EmptyString => if is_space c then EmptyString else String c EmptyString
      | r => String c r
      end
  end.

Fixpoint digits_value (acc : Z) (s : string) : option Z :=
  match s with
  | EmptyString => Some acc
  | String c rest =>
      if is_digit c
      then digits_value (10 * acc + (Z.of_nat (nat_of_ascii c) - 48))%Z rest
      else None
  end.

(** [int(s)] in base 10: blanks on both sides, a sign, decimal digits.
    (Underscores between digits, accepted since Python 3.6, are left out:
    no caller passes a string with an underscore.) *)
Definition py_int (s : string) : result Z :=
  let t := rstrip (lstrip s) in
  let '(sign, body) :=
    match t with
    | String "-" r => ((-1)%Z, r)
    | String "+" r => (1%Z, r)
    | _ => (1%Z, t)
    end in
  match body with
  | EmptyString => Raise ValueError
  | _ => match digits_value 0 body with
         | Some v => Ok (sign * v)%Z
         | None => Raise ValueError
         end
  end.

(** The number of decimal digits of a string. *)
Definition count_digits (s : string) : nat :=
  length (List.filter is_digit (list_ascii_of_string s)).

(** The limit of CPython on the length of integer strings (3.11, and the
    security releases of 3.7 to 3.10): [max_str_digits] is
    [sys.get_int_max_str_digits()], 4300 unless it was changed, and 0 where
    there is no limit, as in the earlier interpreters.  The limit is looked
    at above 640 digits only. *)
Definition exceeds_limit (max_str_digits : nat) (s : string) : bool :=
  ((640 <? count_digits s) && (0 <? max_str_digits)
   && (max_str_digits <? count_digits s))%nat.

(** [int(s)] under this limit: a string with too many digits raises
    [ValueError], whatever else it holds. *)
Definition py_int_limited (max_str_digits : nat) (s : string) : result Z :=
  if exceeds_limit max_str_digits s then Raise ValueError else py_int s.

(** [os.path.join(a, b)] of [posixpath]. *)
Definition path_join (a b : string) : string :=
  if startswith "/" b then b
  else if String.eqb a "" || String.eqb (slice (String.length a - 1)
                                                (String.length a) a) "/"
       then a ++ b
       else a ++ "/" ++ b.

(** [os.path.basename(p)]: what follows the last slash. *)
Fixpoint basename (p : string) : string :=
  match p with
  | EmptyString => EmptyString
  | String c rest => if contains "/" p then basename rest else p
  end.

End PyStr.

(** ** Archive names: [MemoryStorage.should_keep] (lines 714-727),
       [LocalFolderStorage.list_archives] (746-766),
       [GlacierStorage.list_archives] (793-800) *)
Module Archives.
Import PyStr Calendar Retention.
Local Open Scope string_scope.

(** [datetime.date(int(s[0:4]), int(s[4:6]), int(s[6:8]))] *)
Definition archive_date_of (archive_date : string) : result date :=
  let* y := py_int (slice 0 4 archive_date) in
  let* m := py_int (slice 4 6 archive_date) in
  let* d := py_int (slice 6 8 archive_date) in
  date_new y m d.

(** [action_fullname and not archive_name.startswith(action_fullname+".")] *)
Definition other_action (action_fullname : option string)
    (archive_name : string) : bool :=
  match action_fullname with
  | None => false
  | Some fullname =>
      negb (String.eqb fullname "")
      && negb (startswith (fullname ++ ".") archive_name)
  end.

(** The first test of both the listing and [should_keep]. *)
Definition bad_shape (filename : string) : bool :=
  (String.length filename <? 10)%nat
  || negb (match String.get 8 filename with
           | Some c => Ascii.eqb c "_"
           | None => false
           end)
  || contains "_" (slice 0 8 filename).

(** [MemoryStorage.should_keep(archive)] *)
Definition should_keep_archive (f : BackupFrequency) (now : date)
    (archive : string) : result bool :=
  let filename := basename archive in
  if bad_shape filename then Ok false
  else
    let* parts := unpack2 (split "_" 1 filename) in
    let '(archive_date, archive_name) := parts in
    if negb (re_match_digits archive_date) then Ok false
    else match archive_date_of archive_date with
         | Raise ValueError => Ok false
         | Raise e => Raise e
         | Ok archive_date => should_keep f now archive_date
         end.

(** A directory as [os.listdir] and [os.path.isfile] show it: the names and,
    for each, whether it is a regular file. *)
Definition directory : Type := list (string * bool).

(** [LocalFolderStorage.list_archives]; [results] is the list built so far. *)
Fixpoint local_list_archives_from (local_folder : string)
    (action_fullname : option string) (entries : directory)
    (results : list string) : result (list string) :=
  match entries with
  | [] => Ok results
  | (filename, isfile) :: rest =>
      let full_path := path_join local_folder filename in
      let continue := local_list_archives_from local_folder action_fullname
                                               rest in
      if negb isfile then continue results
      else if bad_shape filename then continue results
      else
        let* parts := unpack2 (split "_" 1 filename) in
        let '(archive_date, archive_name) := parts in
        if negb (re_match_digits archive_date) then continue results
        else match archive_date_of archive_date with
             | Raise ValueError => continue results
             | Raise e => Raise e
             | Ok _ =>
                 if other_action action_fullname archive_name
                 then continue results
                 else continue (results ++ [full_path])%list
             end
  end.

Definition local_list_archives (local_folder : string) (entries : directory)
    (action_fullname : option string) : result (list string) :=
  local_list_archives_from local_folder action_fullname entries [].

(** [LocalFolderStorage.list_archives] from its first line on.  [listing]
    is what [os.listdir(self._local_folder)] does: it returns the names of
    the folder (each given here with what [os.path.isfile] says of it), or
    raises, [OSError] when the folder is missing or cannot be read.  Nothing
    in [list_archives] catches what it raises. *)
Definition list_local_folder (local_folder : string)
    (listing : result directory) (action_fullname : option string)
  : result (list string) :=
  let* entries := listing in
  local_list_archives local_folder entries action_fullname.

(** [GlacierStorage.list_archives]; [memories] is what
    [_list_glacier_memories] reads from the index file. *)
Fixpoint glacier_list_archives_from (action_fullname : option string)
    (memories : list string) (results : list string) : result (list string) :=
  match memories with
  | [] => Ok results
  | filename :: rest =>
      let* parts := unpack2 (split "_" 1 filename) in
      let '(archive_date, archive_name) := parts in
      if other_action action_fullname archive_name
      then glacier_list_archives_from action_fullname rest results
      else glacier_list_archives_from action_fullname rest
                                      (results ++ [filename])%list
  end.

Definition glacier_list_archives (memories : list string)
    (action_fullname : option string) : result (list string) :=
  glacier_list_archives_from action_fullname memories [].

(** The naming invariant of managed archives, in the words of the
    specification: eight decimal digits that are a calendar date, an
    underscore, and a rest that is not empty. *)
Definition eight_digits (s : string) : bool :=
  (String.length s =? 8)%nat && forallb is_digit (list_ascii_of_string s).

Definition naming_invariant (filename : string) : bool :=
  match split_first "_" filename with
  | Some (stamp, rest) =>
      eight_digits stamp
      && negb (String.eqb rest "")
      && match archive_date_of stamp with Ok _ => true | Raise _ => false end
  | None => false
  end.

End Archives.

(** ** [Report] (lines 949-1031)

    The three dicts of a report map a server name to its messages. *)
Module Report.
Local Open Scope string_scope.

Record t : Type := mk {
  _server_issues : gmap string (list string);
  _server_success : gmap string (list string);
  _server_warnings : gmap string (list string)
}.

(** [Report()] *)
Definition new : t := mk ∅ ∅ ∅.

(** [if server not in d.keys(): d[server] = []] then
    [d[server].append(details)] *)
Definition append_to {A} (server : string) (details : A)
    (d : gmap string (list A)) : gmap string (list A) :=
  let d := match d !! server with
           | None => <[server := []]> d
           | Some _ => d
           end in
  alter (fun l => l ++ [details])%list server d.

Definition add_issue (server error_details : string) (r : t) : t :=
  mk (append_to server error_details (_server_issues r))
     (_server_success r) (_server_warnings r).

Definition add_success (server success_details : string) (r : t) : t :=
  mk (_server_issues r)
     (append_to server success_details (_server_success r))
     (_server_warnings r).

Definition add_warning (server warning_details : string) (r : t) : t :=
  mk (_server_issues r) (_server_success r)
     (append_to server warning_details (_server_warnings r)).

(** An element of a [by_server] list: [{"level": ..., "info": ...}]. *)
Record entry : Type := mk_entry { level : string; info : string }.

(** One of the three loops of [by_server] (lines 985-989, 990-994,
    995-999): every message of [d], tagged [lvl], goes to the list of its
    server in [result]. *)
Definition collect (lvl : string) (d : gmap string (list string))
    (result : gmap string (list entry)) : gmap string (list entry) :=
  map_fold
    (fun server errors result =>
       let result := match result !! server with
                     | None => <[server := []]> result
                     | Some _ => result
                     end in
       foldl (fun result error =>
                alter (fun l => l ++ [mk_entry lvl error])%list server result)
             result errors)
    result d.

(** [Report.by_server] *)
Definition by_server (r : t) : gmap string (list entry) :=
  collect "server" (_server_success r)
    (collect "warning" (_server_warnings r)
       (collect "error" (_server_issues r) ∅)).

(** The calls that fill a report. *)
Inductive call : Type :=
| AddIssue (server details : string)
| AddWarning (server details : string)
| AddSuccess (server details : string).

Definition apply (r : t) (c : call) : t :=
  match c with
  | AddIssue server details => add_issue server details r
  | AddWarning server details => add_warning server details r
  | AddSuccess server details => add_success server details r
  end.

(** The report after the calls [calls], made in this order on a new one. *)
Definition after (calls : list call) : t := foldl apply new calls.

(** The messages that [calls] add for [server], per category, in call
    order. *)
Definition issues_of (server : string) (calls : list call) : list string :=
  omap (fun c => match c with
                 | AddIssue s d => if decide (s = server) then Some d else None
                 | _ => None
                 end) calls.

Definition warnings_of (server : string) (calls : list call) : list string :=
  omap (fun c => match c with
                 | AddWarning s d => if decide (s = server) then Some d else None
                 | _ => None
                 end) calls.

Definition successes_of (server : string) (calls : list call) : list string :=
  omap (fun c => match c with
                 | AddSuccess s d => if decide (s = server) then Some d else None
                 | _ => None
                 end) calls.

(** A dict of a report holds, for each server, its messages in call order,
    and no key for a server without message. *)
Definition holds (d : gmap string (list string)) (server : string)
    (l : list string) : Prop :=
  d !! server = if decide (l = []) then None else Some l.

End Report.

(** ** [WriteTestCache] (lines 1476-1504) and the write probes
       [Action.check_folder_writable] (1116-1130),
       [GlacierStorage._check_glacier_access] (821-836) *)
Module WriteTest.
Local Open Scope string_scope.
Local Open Scope list_scope.

(** What a probe writes to: a folder or a vault. *)
Inductive target : Type :=
| Folder (folder : string)
| Vault (vault : string).

#[export] Instance target_eq_dec : EqDecision target.
Proof. solve_decision. Defined.

(** The two class-level dicts of [WriteTestCache], and the real probes made
    so far in this process, the latest last. *)
Record state : Type := mk {
  _folder_cache : gmap string bool;
  _glacier_vault_cache : gmap string bool;
  probes : list target
}.

(** The state of a process that starts. *)
Definition initial : state := mk ∅ ∅ [].

(** The outcome of a real probe of a target, made after [n] earlier probes:
    [None] when the write and the cleanup succeed, [Some e] when they raise
    a [StandardError] that prints as [e]. *)
Definition world : Type := target -> nat -> option string.

Definition is_folder_success (folder : string) (st : state) : option bool :=
  _folder_cache st !! folder.

Definition set_folder_success (folder : string) (value : bool) (st : state)
  : state :=
  mk (<[folder := value]> (_folder_cache st)) (_glacier_vault_cache st)
     (probes st).

Definition is_glacier_success (vault : string) (st : state) : option bool :=
  _glacier_vault_cache st !! vault.

Definition set_glacier_success (vault : string) (value : bool) (st : state)
  : state :=
  mk (_folder_cache st) (<[vault := value]> (_glacier_vault_cache st))
     (probes st).

(** A real probe: the temporary file is written (for a vault, sent and
    deleted), and the log grows. *)
Definition real_probe (w : world) (t : target) (st : state)
  : option string * state :=
  (w t (length (probes st)),
   mk (_folder_cache st) (_glacier_vault_cache st) (probes st ++ [t])).

(** [Action.check_folder_writable(folder)] *)
Definition check_folder_writable (w : world) (folder : string) (st : state)
  : list string * state :=
  match is_folder_success folder st with
  | None =>
      let '(outcome, st) := real_probe w (Folder folder) st in
      match outcome with
      | None => ([], set_folder_success folder true st)
      | Some e =>
          (["Unable to write to folder " +:+ folder +:+ ": " +:+ e],
           set_folder_success folder false st)
      end
  | Some false =>
      (["Unable to write to folder " +:+ folder +:+ " (see previous errors)"],
       st)
  | Some true => ([], st)
  end.

(** [GlacierStorage._check_glacier_access()] of a storage on [vault_name]. *)
Definition _check_glacier_access (w : world) (vault_name : string)
    (st : state) : list string * state :=
  match is_glacier_success vault_name st with
  | None =>
      let '(outcome, st) := real_probe w (Vault vault_name) st in
      match outcome with
      | None => ([], set_glacier_success vault_name true st)
      | Some e =>
          (["Unable to write to glacier vault " +:+ vault_name +:+ ": " +:+ e],
           set_glacier_success vault_name false st)
      end
  | Some false => (["Unable to write to glacier vault " +:+ vault_name], st)
  | Some true => ([], st)
  end.

(** [check_writable()] of a storage, or of an action on its staging folder:
    [LocalFolderStorage.check_writable] (768-769) and
    [GlacierStorage.check_writable] (802-803). *)
Definition check_writable (w : world) (t : target) (st : state)
  : list string * state :=
  match t with
  | Folder folder => check_folder_writable w folder st
  | Vault vault => _check_glacier_access w vault st
  end.

(** The calls of one run, in order, with what each returns. *)
Fixpoint run (w : world) (calls : list target) (st : state)
  : list (list string) * state :=
  match calls with
  | [] => ([], st)
  | t :: rest =>
      let '(out, st) := check_writable w t st in
      let '(outs, st) := run w rest st in
      (out :: outs, st)
  end.

(** The cached outcome for a target, and the answer given from it. *)
Definition cached (st : state) (t : target) : option bool :=
  match t with
  | Folder folder => is_folder_success folder st
  | Vault vault => is_glacier_success vault st
  end.

Definition cached_answer (t : target) (success : bool) : list string :=
  if success then []
  else match t with
       | Folder folder =>
           ["Unable to write to folder " +:+ folder +:+ " (see previous errors)"]
       | Vault vault => ["Unable to write to glacier vault " +:+ vault]
       end.

(** Whether a real probe succeeded, and the answer of the call that made
    it: nothing after a success, the diagnostic with the text of the
    exception after a failure. *)
Definition succeeded (outcome : option string) : bool :=
  match outcome with
  | None => true
  | Some _ => false
  end.

Definition probe_answer (t : target) (outcome : option string)
  : list string :=
  match outcome with
  | None => []
  | Some e =>
      match t with
      | Folder folder =>
          ["Unable to write to folder " +:+ folder +:+ ": " +:+ e]
      | Vault vault =>
          ["Unable to write to glacier vault " +:+ vault +:+ ": " +:+ e]
      end
  end.

(** The cache knows exactly the targets that were probed, each probed once. *)
Definition consistent (st : state) : Prop :=
  NoDup (probes st) /\ forall t, t ∈ probes st <-> is_Some (cached st t).

End WriteTest.

(** ** Storages and actions (lines 684-815, 1034-1473) *)
Module Actions.
Import PyStr Calendar Retention.
Local Open Scope string_scope.
Local Open Scope list_scope.

Inductive Storage : Type :=
| LocalFolderStorage (freq : BackupFrequency) (folder_name : string)
| GlacierStorage (freq : BackupFrequency) (vault_name index_file : string).

Definition freq (s : Storage) : BackupFrequency :=
  match s with
  | LocalFolderStorage f _ => f
  | GlacierStorage f _ _ => f
  end.

Inductive DbEngine : Type := MySql | Postgres | Mongo.

(** [db_type] of [MySqlAction], [PostgresAction], [MongoDbAction]. *)
Definition db_type (e : DbEngine) : string :=
  match e with
  | MySql => "mysql"
  | Postgres => "postgres"
  | Mongo => "mongo"
  end.

(** What a [FileAction] or a [DbAction] adds to the fields of [Action]. *)
Inductive Variant : Type :=
| FileAction (remote_folder : string) (exclusions : list string)
| DbAction (engine : DbEngine) (db_user : option string) (db_name : string)
           (db_port : Z).

(** An action object.  [id] is its identity ([id(action)]); [dest_folder],
    [ssh_user], [ssh_key] and [db_user] are [None] when the configuration
    gives none (see the return type of [_parse_action_common]). *)
Record Action : Type := mkAction {
  id : nat;
  server_name : string;
  prefix : string;
  name : string;
  dest_folder : option string;
  ssh_user : option string;
  ssh_key : option string;
  variant : Variant;
  storage_list : list Storage
}.

Definition full_name (a : Action) : string := prefix a +:+ "_" +:+ name a.

(** *** [run_backup] (lines 1157-1189 and 1233-1249)

    The data movers are outside: [stage] is the fetch and, for files, the
    packaging (an exception or [None]); [save w i storage] is the outcome of
    [storage.save] for the storage at position [i] of the list. *)
Record world : Type := mkWorld {
  stage : Action -> option exn;
  save : nat -> Storage -> option exn
}.

(** The loop over [self.storage_list]; [i] is the position of the head of
    [storages], [attempted] the storages whose [save] was called so far. *)
Fixpoint save_loop (w : world) (now : date) (i : nat)
    (storages : list Storage) (attempted : list Storage)
  : list Storage * result unit :=
  match storages with
  | [] => (attempted, Ok tt)
  | storage :: rest =>
      match should_save (freq storage) now with
      | Raise e => (attempted, Raise e)
      | Ok false => save_loop w now (S i) rest attempted
      | Ok true =>
          match save w i storage with
          | Some e => (attempted ++ [storage], Raise e)
          | None => save_loop w now (S i) rest (attempted ++ [storage])
          end
      end
  end.

(** [run_backup()]: the storages whose [save] was called, in call order,
    and the outcome. *)
Definition run_backup (w : world) (now : date) (a : Action)
  : list Storage * result unit :=
  match stage w a with
  | Some e => ([], Raise e)
  | None => save_loop w now 0 (storage_list a) []
  end.

(** The storages that are due on [now]: [should_save()] returns true. *)
Definition due (now : date) (s : Storage) : bool :=
  match should_save (freq s) now with
  | Ok true => true
  | _ => false
  end.

(** *** The check of the archive names in [_load_conf] (lines 2027-2036) *)

(** The texts of the error message: [str_of a] is what [__str__] builds
    for [a] when it returns, [indent] is [indent] of line 373. *)
Record printer : Type := mkPrinter {
  str_of : Action -> string;
  indent : string -> string
}.

Definition linesep : string := String newline EmptyString.

(** [to_str(action)].  The [__str__] of the action classes (lines
    1191-1203, 1322-1335, 1399-1412, 1457-1470) join their fields with [+];
    [self._db_user] and [self._dest_folder] are joined as they are, and
    [str + None] raises [TypeError]. *)
Definition to_str (p : printer) (a : Action) : result string :=
  match variant a, dest_folder a with
  | DbAction _ None _ _, _ => Raise TypeError
  | _, None => Raise TypeError
  | _, Some _ => Ok (str_of p a)
  end.

(** The inner loop: [action] against every [other_action]. *)
Fixpoint check_against (p : printer) (action : Action)
    (others : list Action) : result unit :=
  match others with
  | [] => Ok tt
  | other_action :: rest =>
      if (id action =? id other_action)%nat
      then check_against p action rest
      else if String.eqb (full_name action) (full_name other_action) then
        let* s1 := to_str p action in
        let* s2 := to_str p other_action in
        Raise (ConfigError
                 ("Two actions have the same final archive name: "
                  +:+ linesep +:+ indent p s1 +:+ linesep
                  +:+ "is incompatible with:" +:+ linesep +:+ indent p s2))
      else check_against p action rest
  end.

Fixpoint check_each (p : printer) (all actions : list Action)
  : result unit :=
  match actions with
  | [] => Ok tt
  | action :: rest =>
      let* _ := check_against p action all in
      check_each p all rest
  end.

Definition check_full_names (p : printer) (actions : list Action)
  : result unit :=
  check_each p actions actions.

(** The end of [_load_conf]: [built] is the outcome of the three parsing
    passes that build the actions, [reports] that of the fourth pass. *)
Definition load_conf {R} (p : printer) (built : result (list Action))
    (reports : result R) : result (list Action * R) :=
  let* actions := built in
  let* _ := check_full_names p actions in
  let* report_targets := reports in
  Ok (actions, report_targets).

(** *** [glob_target] (lines 2546-2591)

    [fnmatch] is [fnmatch.fnmatch(name, pattern)]. *)
Definition matches_second (fnmatch : string -> string -> bool)
    (second_part : string) (action : Action) : bool :=
  if fnmatch (name action) second_part
     || fnmatch (full_name action) second_part
  then true
  else match variant action with
       | FileAction remote_folder _ => fnmatch remote_folder second_part
       | DbAction engine _ database _ =>
           if fnmatch database second_part then true
           else fnmatch (db_type engine) second_part
       end.

Definition matches_pair (fnmatch : string -> string -> bool)
    (first_part second_part : string) (action : Action) : bool :=
  if fnmatch (server_name action) first_part
     || fnmatch (prefix action) first_part
  then matches_second fnmatch second_part action
  else false.

Definition matches_single (fnmatch : string -> string -> bool)
    (identifier : string) (action : Action) : bool :=
  if fnmatch (server_name action) identifier then true
  else if fnmatch (name action) identifier then true
  else if fnmatch (full_name action) identifier then true
  else if fnmatch (prefix action) identifier then true
  else match variant action with
       | FileAction remote_folder _ => fnmatch remote_folder identifier
       | DbAction engine _ database _ =>
           if fnmatch database identifier then true
           else fnmatch (db_type engine) identifier
       end.

Definition glob_target (fnmatch : string -> string -> bool)
    (actions : list Action) (identifier : string) : result (list Action) :=
  let* results :=
    if contains ":" identifier then
      let* parts := unpack2 (split ":" 2 identifier) in
      let '(first_part, second_part) := parts in
      Ok (List.filter (matches_pair fnmatch first_part second_part) actions)
    else Ok (List.filter (matches_single fnmatch identifier) actions) in
  match results with
  | [] => Raise (RuntimeError ("Unknown target " +:+ identifier))
  | _ => Ok results
  end.

(** The selection with a colon, in the words of the specification:
    the first pattern matches the server name or the prefix, and the second
    one matches the name, the full name, the remote folder of a file action,
    or the database name or engine tag of a database action. *)
Definition selected_by_spec (fnmatch : string -> string -> bool)
    (pattern1 pattern2 : string) (action : Action) : bool :=
  (fnmatch (server_name action) pattern1 || fnmatch (prefix action) pattern1)
  && (fnmatch (name action) pattern2
      || fnmatch (full_name action) pattern2
      || match variant action with
         | FileAction remote_folder _ => fnmatch remote_folder pattern2
         | DbAction engine _ database _ =>
             fnmatch database pattern2 || fnmatch (db_type engine) pattern2
         end).

(** [fnmatch.fnmatch] on POSIX for the patterns made of plain characters,
    [*] and [?]; bracket expressions are not covered. *)
Fixpoint fnmatch_plain (name pat : string) {struct pat} : bool :=
  match pat with
  | EmptyString => String.eqb name EmptyString
  | String c pat' =>
      if Ascii.eqb c "*" then
        (fix star (name : string) : bool :=
           fnmatch_plain name pat'
           || match name with
              | EmptyString => false
              | String _ name' => star name'
              end) name
      else match name with
           | EmptyString => false
           | String d name' =>
               (Ascii.eqb c "?" || Ascii.eqb c d) && fnmatch_plain name' pat'
           end
  end.

(** *** Sample objects for the examples *)

Definition every_day : BackupFrequency :=
  mkfreq ALL_VALUE NO_VALUE NO_VALUE NO_VALUE.
Definition store_a : Storage := LocalFolderStorage every_day "/srv/a".
Definition store_b : Storage := LocalFolderStorage every_day "/srv/b".

(** A file action [www] of server [web1] with two storages. *)
Definition www_action : Action :=
  mkAction 0 "web1" "web1" "www" (Some "/staging") None None
           (FileAction "/var/www" []) [store_a; store_b].

(** The first [save] fails, everything else succeeds. *)
Definition first_save_fails : world :=
  mkWorld (fun _ => None)
          (fun i _ => if (i =? 0)%nat then Some (RuntimeError "cp") else None).

(** Two file actions named [www] on [web1], built from a configuration
    without [dest_folder]. *)
Definition www_twice : list Action :=
  [mkAction 0 "web1" "web1" "www" None None None (FileAction "/var/www" []) [];
   mkAction 1 "web1" "web1" "www" None None None (FileAction "/srv/www" []) []].

(** The same two actions from a configuration with a [dest_folder]. *)
Definition www_twice_staged : list Action :=
  [mkAction 0 "web1" "web1" "www" (Some "/staging") None None
            (FileAction "/var/www" []) [];
   mkAction 1 "web1" "web1" "www" (Some "/staging") None None
            (FileAction "/srv/www" []) []].

(** The database actions [db] of [web1] and of [api1]. *)
Definition db_actions : list Action :=
  [mkAction 0 "web1" "web1" "db" (Some "/staging") None None
            (DbAction MySql (Some "root") "shop" 3306) [];
   mkAction 1 "api1" "api1" "db" (Some "/staging") None None
            (DbAction MySql (Some "root") "shop" 3306) []].

Definition plain_printer : printer := mkPrinter full_name (fun s => s).

End Actions.

(** ** The counters of [Report] (lines 1002-1031) *)
Module ReportStats.
Import Report.

(** [count = 0; for l in d.values(): count += len(l)] *)
Definition total (d : gmap string (list string)) : nat :=
  map_fold (fun _ l count => count + length l) 0 d.

(** [Report.issue_count] *)
Definition issue_count (r : Report.t) : nat := total (_server_issues r).

(** [Report.warning_count] *)
Definition warning_count (r : Report.t) : nat := total (_server_warnings r).

(** One loop of [is_empty]: [False] is returned at the first list that has
    an element. *)
Definition no_message (d : gmap string (list string)) : bool :=
  map_fold (fun _ l rest => if (0 <? length l) then false else rest) true d.

(** [Report.is_empty] *)
Definition is_empty (r : Report.t) : bool :=
  no_message (_server_issues r)
  && no_message (_server_warnings r)
  && no_message (_server_success r).

(** [Report.is_success] *)
Definition is_success (r : Report.t) : bool :=
  negb (is_empty r) && (issue_count r =? 0).

Definition is_issue (c : call) : bool :=
  match c with AddIssue _ _ => true | _ => false end.

Definition is_warning (c : call) : bool :=
  match c with AddWarning _ _ => true | _ => false end.

Definition is_success_call (c : call) : bool :=
  match c with AddSuccess _ _ => true | _ => false end.

End ReportStats.

(** ** [MemoryStorage._archive_name] (lines 729-730) *)
Module ArchiveName.
Import PyStr Calendar.
Local Open Scope string_scope.

(** The character of a decimal digit. *)
Definition digit_char (k : Z) : ascii := ascii_of_nat (48 + Z.to_nat k).

Definition two_digits (n : Z) : string :=
  String (digit_char (n / 10)) (String (digit_char (n mod 10)) EmptyString).

Definition four_digits (n : Z) : string :=
  String (digit_char (n / 1000))
    (String (digit_char (n / 100 mod 10)) (two_digits (n mod 100))).

(** [strftime("%Y%m%d")], for the years from 1000 on, which every platform
    prints with four digits (Python 2 refuses the years before 1900). *)
Definition strftime_Ymd (d : date) : string :=
  four_digits (year d) +:+ two_digits (month d) +:+ two_digits (day d).

(** [_archive_name(action_fullname, extension)], [now] being
    [TimeReference.get()]. *)
Definition _archive_name (now : date) (action_fullname extension : string)
  : string :=
  strftime_Ymd now +:+ "_" +:+ action_fullname +:+ "." +:+ extension.

(** A string of decimal digits. *)
Definition all_digits (s : string) : Prop :=
  forallb is_digit (list_ascii_of_string s) = true.

(** A name that passes the tests of [LocalFolderStorage.list_archives] for
    [action_fullname]. *)
Definition passes (action_fullname : option string) (filename : string)
  : Prop :=
  Archives.bad_shape filename = false
  /\ exists archive_date archive_name d,
       unpack2 (split "_" 1 filename) = Ok (archive_date, archive_name)
       /\ re_match_digits archive_date = true
       /\ Archives.archive_date_of archive_date = Ok d
       /\ Archives.other_action action_fullname archive_name = false.


End ArchiveName.

(** ** [clean_archives] (lines 2629-2639) and [do_backup] (2694-2709) *)
Module Cleaning.
Import PyStr Calendar Retention Archives Actions.
Local Open Scope string_scope.
Local Open Scope list_scope.

(** The backing stores and the removals, which are outside: for the storage
    at position [i] of an action, [listdir w i folder] is what [os.listdir]
    and [os.path.isfile] show of its folder when it is listed,
    [memories w i index_file] what [_list_glacier_memories] reads, and
    [remove w i archive] the outcome of [storage.remove(archive)]. *)
Record world : Type := mkWorld {
  listdir : nat -> string -> directory;
  memories : nat -> string -> list string;
  remove : nat -> string -> option exn
}.

(** [storage.list_archives(action_fullname)] *)
Definition list_archives (w : world) (i : nat) (storage : Storage)
    (action_fullname : option string) : result (list string) :=
  match storage with
  | LocalFolderStorage _ folder_name =>
      local_list_archives folder_name (listdir w i folder_name) action_fullname
  | GlacierStorage _ _ index_file =>
      glacier_list_archives (memories w i index_file) action_fullname
  end.

(** The inner loop of [clean_archives]; [removed] holds the archives removed
    so far, each with the position of its storage. *)
Fixpoint remove_loop (w : world) (now : date) (i : nat) (storage : Storage)
    (archives : list string) (removed : list (nat * string))
  : list (nat * string) * result unit :=
  match archives with
  | [] => (removed, Ok tt)
  | archive :: rest =>
      match should_keep_archive (freq storage) now archive with
      | Raise e => (removed, Raise e)
      | Ok true => remove_loop w now i storage rest removed
      | Ok false =>
          match remove w i archive with
          | Some e => (removed, Raise e)
          | None => remove_loop w now i storage rest (removed ++ [(i, archive)])
          end
      end
  end.

(** The outer loop, [i] being the position of the head of [storages]. *)
Fixpoint clean_from (w : world) (now : date) (action_fullname : string)
    (i : nat) (storages : list Storage) (removed : list (nat * string))
  : list (nat * string) * result unit :=
  match storages with
  | [] => (removed, Ok tt)
  | storage :: rest =>
      match list_archives w i storage (Some action_fullname) with
      | Raise e => (removed, Raise e)
      | Ok archives =>
          match remove_loop w now i storage archives removed with
          | (removed, Raise e) => (removed, Raise e)
          | (removed, Ok _) =>
              clean_from w now action_fullname (S i) rest removed
          end
      end
  end.

(** [clean_archives(action)]: the archives removed, and the outcome. *)
Definition clean_archives (w : world) (now : date) (a : Action)
  : list (nat * string) * result unit :=
  clean_from w now (full_name a) 0 (storage_list a) [].

(** *** Sample objects for the examples *)

(** A local storage that keeps seven days, and an action that owns it. *)
Definition week_store : Storage :=
  LocalFolderStorage (mkfreq 7 NO_VALUE NO_VALUE NO_VALUE) "/srv/a".

Definition www_weekly : Action :=
  mkAction 0 "web1" "web1" "www" (Some "/staging") None None
           (FileAction "/var/www" []) [week_store].

(** A folder with an archive of 2020 and one of 2024-03-01, where every
    removal succeeds. *)
Definition two_archives : world :=
  mkWorld (fun _ _ => [("20200101_web1_www.tgz", true);
                       ("20240301_web1_www.tgz", true)])
          (fun _ _ => [])
          (fun _ _ => None).

End Cleaning.

Module Backup.
Import PyStr Calendar Retention Actions Report.
Local Open Scope string_scope.
Local Open Scope list_scope.

(** [small_descr] of [FileAction] (line 1141) and of [DbAction] (1261). *)
Definition small_descr (a : Action) : string :=
  match variant a with
  | FileAction remote_folder _ =>
      remote_folder +:+ " folder on " +:+ server_name a
  | DbAction engine _ database _ =>
      database +:+ " " +:+ db_type engine +:+ " database on " +:+ server_name a
  end.

(** The outside of one action: its cleaning and its saving. *)
Record world : Type := mkWorld {
  cleaning : Cleaning.world;
  saving : Actions.world
}.

(** The body of the [try] of [do_backup]. *)
Definition protected (w : world) (now : date) (a : Action) : result unit :=
  match snd (Cleaning.clean_archives (cleaning w) now a) with
  | Raise e => Raise e
  | Ok _ => snd (run_backup (saving w) now a)
  end.

(** [do_backup(action, report)]; [exn_str e] is [to_str(e)]. *)
Definition do_backup (exn_str : exn -> string) (w : world) (now : date)
    (a : Action) (report : Report.t) : Report.t :=
  match protected w now a with
  | Raise e =>
      add_issue (server_name a)
                ("Unable to save data for " +:+ small_descr a +:+ ": "
                 +:+ exn_str e) report
  | Ok _ =>
      add_success (server_name a)
                  (small_descr a +:+ " have been successfully backuped") report
  end.

(** The loop of the [run] command (lines 2992-2994) from the action at
    position [k] on; [ws k] is the outside of the action at position [k]. *)
Fixpoint run_from (exn_str : exn -> string) (ws : nat -> world) (now : date)
    (k : nat) (actions : list Action) (report : Report.t) : Report.t :=
  match actions with
  | [] => report
  | action :: rest =>
      run_from exn_str ws now (S k) rest
               (do_backup exn_str (ws k) now action report)
  end.

(** The report of a run: [report = Report()] and the loop. *)
Definition run_all (exn_str : exn -> string) (ws : nat -> world) (now : date)
    (actions : list Action) : Report.t :=
  run_from exn_str ws now 0 actions Report.new.

(** The call that [do_backup] makes on the report. *)
Definition outcome_call (exn_str : exn -> string) (w : world) (now : date)
    (a : Action) : Report.call :=
  match protected w now a with
  | Raise e =>
      AddIssue (server_name a)
               ("Unable to save data for " +:+ small_descr a +:+ ": "
                +:+ exn_str e)
  | Ok _ =>
      AddSuccess (server_name a)
                 (small_descr a +:+ " have been successfully backuped")
  end.

Fixpoint calls_from (exn_str : exn -> string) (ws : nat -> world) (now : date)
    (k : nat) (actions : list Action) : list Report.call :=
  match actions with
  | [] => []
  | action :: rest =>
      outcome_call exn_str (ws k) now action
      :: calls_from exn_str ws now (S k) rest
  end.

End Backup.

(** ** [glob_targets] (lines 2594-2611) *)
Module Selection.
Import PyStr Actions.
Local Open Scope string_scope.
Local Open Scope list_scope.

(** The loop [results.extend(glob_target(conf, identifier))]. *)
Fixpoint extend_all (fnmatch : string -> string -> bool)
    (actions : list Action) (identifier_list : list string)
    (results : list Action) : result (list Action) :=
  match identifier_list with
  | [] => Ok results
  | identifier :: rest =>
      let* selection := glob_target fnmatch actions identifier in
      extend_all fnmatch actions rest (results ++ selection)
  end.

(** The objects of [set(results)], one for each identity ([Action] defines
    neither [__eq__] nor [__hash__]); [seen] holds the identities met so
    far. *)
Fixpoint distinct (seen : list nat) (results : list Action) : list Action :=
  match results with
  | [] => []
  | a :: rest =>
      if existsb (Nat.eqb (id a)) seen then distinct seen rest
      else a :: distinct (id a :: seen) rest
  end.

(** [glob_targets(conf, identifier_list, all_on_empty)].  [list(set(...))]
    gives the objects of the set in the order of its hash table:
    [set_order] is that order. *)
Definition glob_targets (fnmatch : string -> string -> bool)
    (set_order : list Action -> list Action) (actions : list Action)
    (identifier_list : list string) (all_on_empty : bool)
  : result (list Action) :=
  if match identifier_list with [] => all_on_empty | _ => false end
  then Ok actions
  else
    let* results := extend_all fnmatch actions identifier_list [] in
    Ok (set_order (distinct [] results)).

(** The actions that some identifier of the list selects. *)
Definition selected (fnmatch : string -> string -> bool)
    (actions : list Action) (identifier_list : list string) (a : Action)
  : Prop :=
  exists identifier selection,
    identifier ∈ identifier_list
    /\ glob_target fnmatch actions identifier = Ok selection
    /\ a ∈ selection.

End Selection.

(** ** [BackupConfig._parse_freq] (lines 2298-2335) *)
Module ParseFreq.
Import PyStr Retention Merge.
Local Open Scope string_scope.
Local Open Scope list_scope.

(** [freq_val] after the first [if]: the integer that stands for ["all"] or
    ["no"], or the string itself. *)
Inductive int_or_str : Type :=
| AnInt (z : Z)
| AStr (s : string).

(** [int(freq_val)]; [max_str_digits] is the limit of the interpreter on
    the length of integer strings, 0 when it has none. *)
Definition int_of (max_str_digits : nat) (freq_val : int_or_str)
  : result Z :=
  match freq_val with
  | AnInt z => Ok z
  | AStr s => py_int_limited max_str_digits s
  end.

Record tiers : Type := mkTiers { day : Z; week : Z; month : Z; year : Z }.

(** The loop over [config.items()].  [normal x] is
    [to_str(x).lower().strip()]; a key of the dict is a string (a key that
    is not one raises [ConfigError] before the loop body goes on). *)
Fixpoint parse_items (max_str_digits : nat) (normal : value -> string)
    (items : list (string * value)) (t : tiers) : result tiers :=
  match items with
  | [] => Ok t
  | (freq_key, freq_val) :: rest =>
      let freq_key := normal (VScalar (SStr freq_key)) in
      let freq_val := normal freq_val in
      let* freq_val :=
        if String.eqb freq_val "all" then Ok (AnInt ALL_VALUE)
        else if String.eqb freq_val "no" then Ok (AnInt NO_VALUE)
        else if negb (re_match_digits freq_val)
        then Raise (ConfigError ("Invalid memory frequency " +:+ freq_val))
        else Ok (AStr freq_val) in
      let* t :=
        if String.eqb freq_key "day" then
          let* v := int_of max_str_digits freq_val in
          Ok (mkTiers v (week t) (month t) (year t))
        else if String.eqb freq_key "week" then
          let* v := int_of max_str_digits freq_val in
          Ok (mkTiers (day t) v (month t) (year t))
        else if String.eqb freq_key "month" then
          let* v := int_of max_str_digits freq_val in
          Ok (mkTiers (day t) (week t) v (year t))
        else if String.eqb freq_key "year" then
          let* v := int_of max_str_digits freq_val in
          Ok (mkTiers (day t) (week t) (month t) v)
        else Raise (ConfigError ("Unknown memory frequency " +:+ freq_key)) in
      parse_items max_str_digits normal rest t
  end.

(** [_parse_freq(config)]; [None] is the result of the bare [return]. *)
Definition _parse_freq (max_str_digits : nat) (normal : value -> string)
    (config : value) : result (option BackupFrequency) :=
  let config :=
    match config with
    | VScalar (SStr s) => VDict [(s, VScalar (SStr "all"))]
    | _ => config
    end in
  match config with
  | VDict items =>
      let* t := parse_items max_str_digits normal items
                            (mkTiers NO_VALUE NO_VALUE NO_VALUE NO_VALUE) in
      Ok (Some (mkfreq (day t) (week t) (month t) (year t)))
  | _ => Ok None
  end.

(** The dict that the loop goes through: [config] when it is a dict,
    [{config: "all"}] when it is a string. *)
Definition as_items (config : value) : option (list (string * value)) :=
  match config with
  | VScalar (SStr s) => Some [(s, VScalar (SStr "all"))]
  | VDict items => Some items
  | _ => None
  end.

(** A string of [n] digits. *)
Definition ones (n : nat) : string :=
  string_of_list_ascii (repeat "1"%char n).

(** The tiers are [ALL_VALUE], [NO_VALUE] or not negative. *)
Definition tiers_ok (t : tiers) : Prop :=
  (-1 <= day t /\ -1 <= week t /\ -1 <= month t /\ -1 <= year t)%Z.

(** A [normal] for the examples: the text of a string that is already in
    lower case and stripped, the empty string for anything else. *)
Definition plain_normal (x : value) : string :=
  match x with
  | VScalar (SStr s) => s
  | _ => ""
  end.

End ParseFreq.

(** ** The scalars of a configuration document *)
Module Leaves.
Import Merge.

(** The scalars that a document holds, at any depth, each as often as it
    occurs. *)
Fixpoint leaves (v : value) : list scalar :=
  match v with
  | VNone => []
  | VScalar s => [s]
  | VList l => flat_map leaves l
  | VDict d => flat_map (fun kv => leaves (snd kv)) d
  end.

End Leaves.

(** ** [extract_keys] (lines 394-410) and [index_by] (420-440) *)
Module Utils.
Local Open Scope string_scope.
Local Open Scope list_scope.

(** The loop of [extract_keys(input_dict, *key_list)]: [input_dict] is
    modified in place, so that the call gives back both dicts, [result] and
    what is left of [input_dict]. *)
Fixpoint extract_keys_from {V} (key_list : list string)
    (input_dict result : gmap string V) : gmap string V * gmap string V :=
  match key_list with
  | [] => (result, input_dict)
  | key :: rest =>
      match input_dict !! key with
      | Some v =>
          extract_keys_from rest (delete key input_dict) (<[key := v]> result)
      | None => extract_keys_from rest input_dict result
      end
  end.

Definition extract_keys {V} (input_dict : gmap string V)
    (key_list : list string) : gmap string V * gmap string V :=
  extract_keys_from key_list input_dict ∅.

(** [index_by(array, key)] for a callable [key] that returns a string. *)
Definition index_by {A} (array : list A) (key : A -> string)
  : gmap string (list A) :=
  foldl (fun results element => Report.append_to (key element) element results)
        ∅ array.

End Utils.

(** ** [_filename_to_prefix] and [_db_to_prefix] (lines 2226-2233) *)
Module Prefix.
Import PyStr.
Local Open Scope string_scope.
Local Open Scope list_scope.

(** [[a-zA-Z0-9]] *)
Definition is_alnum (c : ascii) : bool :=
  let n := nat_of_ascii c in
  ((97 <=? n) && (n <=? 122) || (65 <=? n) && (n <=? 90)
   || (48 <=? n) && (n <=? 57))%nat.

Definition is_underscore (c : ascii) : bool := Ascii.eqb c "_".

(** [re.sub(r"[C]+", "_", s)] for a class [C] of characters: every maximal
    run of characters of the class becomes one underscore.  [in_run] tells
    that the character before was of the class. *)
Fixpoint sub_runs (cls : ascii -> bool) (in_run : bool) (s : string)
  : string :=
  match s with
  | EmptyString => EmptyString
  | String c rest =>
      if cls c then
        if in_run then sub_runs cls true rest
        else String "_" (sub_runs cls true rest)
      else String c (sub_runs cls false rest)
  end.

(** [s.lstrip("_")] and [s.rstrip("_")] *)
Fixpoint lstrip_underscores (s : string) : string :=
  match s with
  | EmptyString => EmptyString
  | String c rest => if is_underscore c then lstrip_underscores rest else s
  end.

Fixpoint rstrip_underscores (s : string) : string :=
  match s with
  | EmptyString => EmptyString
  | String c rest =>
      match rstrip_underscores rest with
      | EmptyString =>
          if is_underscore c then EmptyString else String c EmptyString
      | r => String c r
      end
  end.

(** [s.strip("_")] *)
Definition strip_underscores (s : string) : string :=
  rstrip_underscores (lstrip_underscores s).

(** [re.sub(r'_+', "_", re.sub(r"[^a-zA-Z0-9]+", "_", s)).strip("_")] *)
Definition to_prefix (s : string) : string :=
  strip_underscores
    (sub_runs is_underscore false
       (sub_runs (fun c => negb (is_alnum c)) false s)).

Definition _filename_to_prefix (file_path : string) : string :=
  let result := to_prefix file_path in
  if String.eqb result "exclude" then "file_exclude" else result.

(** [db_info.split(":", 2)[0]] *)
Definition before_colon (db_info : string) : string :=
  match split ":" 2 db_info with
  | first :: _ => first
  | [] => db_info
  end.

Definition _db_to_prefix (db_info : string) : string :=
  to_prefix (before_colon db_info).

(** Words of letters, digits and underscores in which an underscore stands
    neither first nor last nor after another one.  [after_underscore] tells
    that the character before was an underscore, or that there was none. *)
Fixpoint word_from (after_underscore : bool) (s : string) : bool :=
  match s with
  | EmptyString => negb after_underscore
  | String c rest =>
      if is_underscore c then negb after_underscore && word_from true rest
      else is_alnum c && word_from false rest
  end.

Definition word (s : string) : bool :=
  match s with
  | EmptyString => true
  | _ => word_from true s
  end.

(** The same words, where an underscore may stand last. *)
Fixpoint single_underscores (after_underscore : bool) (s : string) : bool :=
  match s with
  | EmptyString => true
  | String c rest =>
      if is_underscore c
      then negb after_underscore && single_underscores true rest
      else is_alnum c && single_underscores false rest
  end.

End Prefix.

(** ** [Action.check_dest_access] (lines 1088-1096) *)
Module DestAccess.
Import WriteTest Actions.
Local Open Scope string_scope.
Local Open Scope list_scope.

(** What [storage.check_writable()] probes. *)
Definition storage_target (s : Storage) : target :=
  match s with
  | LocalFolderStorage _ folder_name => Folder folder_name
  | GlacierStorage _ vault_name _ => Vault vault_name
  end.

(** The loop over [self._storage_list].  The probes catch what the write
    raises, so that the [except] of the loop is not entered. *)
Fixpoint check_storages (w : WriteTest.world) (storages : list Storage)
    (detected_errors : list string) (st : WriteTest.state) : list string * WriteTest.state :=
  match storages with
  | [] => (detected_errors, st)
  | storage :: rest =>
      let '(out, st) := check_writable w (storage_target storage) st in
      check_storages w rest (detected_errors ++ out) st
  end.

(** [check_dest_access()] of an action whose [_dest_folder] is the string
    [dest_folder] and whose [_storage_list] is [storages]. *)
Definition check_dest_access (w : WriteTest.world) (dest_folder : string)
    (storages : list Storage) (st : WriteTest.state) : list string * WriteTest.state :=
  let '(out, st) := check_folder_writable w dest_folder st in
  check_storages w storages ([] ++ out) st.

End DestAccess.

(* ===================================================================== *)
(** * Part II: properties                                                 *)
(* ===================================================================== *)

(** ** Calendar facts *)
Section CalendarFacts.
Import Calendar.
Local Open Scope Z_scope.

Ltac zdm := Z.div_mod_to_equations; lia.

Lemma days_before_year_cycles n400 n100 n4 n1 :
  0 <= n400 -> 0 <= n100 <= 3 -> 0 <= n4 <= 24 -> 0 <= n1 <= 3 ->
  days_before_year (n400 * 400 + 1 + n100 * 100 + n4 * 4 + n1)
  = 146097 * n400 + 36524 * n100 + 1461 * n4 + 365 * n1.
Proof. intros. unfold days_before_year. zdm. Qed.

Lemma is_leap_cycles n400 n100 n4 n1 :
  0 <= n400 -> 0 <= n100 <= 3 -> 0 <= n4 <= 24 -> 0 <= n1 <= 3 ->
  is_leap (n400 * 400 + 1 + n100 * 100 + n4 * 4 + n1)
  = (n1 =? 3) && (negb (n4 =? 24) || (n100 =? 3)).
Proof.
  intros. unfold is_leap.
  destruct (n1 =? 3) eqn:E1; destruct (n4 =? 24) eqn:E4;
    destruct (n100 =? 3) eqn:E100;
    repeat match goal with
           | |- context [?a =? ?b] => destruct (Z.eqb_spec a b)
           end;
    simpl; try reflexivity; exfalso; zdm.
Qed.

Ltac zconst :=
  repeat match goal with
         | |- context [Z.sub (Zpos ?p) (Zpos ?q)] =>
             let v := eval vm_compute in (Z.sub (Zpos p) (Zpos q)) in
             change (Z.sub (Zpos p) (Zpos q)) with v
         end.
Ltac zsimp :=
  zconst; cbn [andb orb negb DAYS_BEFORE_MONTH DAYS_IN_MONTH] in *.
Ltac zcmp :=
  zsimp;
  repeat (match goal with
          | |- context [?a =? ?b] => destruct (Z.eqb_spec a b); try lia
          end; zsimp);
  repeat (match goal with
          | |- context [?a <? ?b] => destruct (Z.ltb_spec a b); try lia
          end; zsimp);
  repeat (match goal with
          | |- context [?a <=? ?b] => destruct (Z.leb_spec a b); try lia
          end; zsimp).

(** [_ord2ymd] inverts [_ymd2ord] on the ordinals of the calendar. *)
Lemma ord2ymd_ymd2ord n :
  1 <= n <= MAXORDINAL ->
  let '(y, m, d) := ord2ymd n in
  valid_ymd y m d = true /\ ymd2ord y m d = n.
Proof.
  intros Hn. unfold ord2ymd.
  set (a := n - 1).
  set (n400 := a / DI400Y). set (r400 := a mod DI400Y).
  set (n100 := r400 / DI100Y). set (r100 := r400 mod DI100Y).
  set (n4 := r100 / DI4Y). set (r4 := r100 mod DI4Y).
  set (n1 := r4 / 365). set (r := r4 mod 365).
  assert (Ha : 0 <= a < 3652059) by (unfold a, MAXORDINAL in *; lia).
  assert (E400 : a = DI400Y * n400 + r400 /\ 0 <= r400 < DI400Y)
    by (unfold n400, r400, DI400Y; split;
        [apply Z.div_mod; lia | apply Z.mod_pos_bound; lia]).
  assert (E100 : r400 = DI100Y * n100 + r100 /\ 0 <= r100 < DI100Y)
    by (unfold n100, r100, DI100Y; split;
        [apply Z.div_mod; lia | apply Z.mod_pos_bound; lia]).
  assert (E4 : r100 = DI4Y * n4 + r4 /\ 0 <= r4 < DI4Y)
    by (unfold n4, r4, DI4Y; split;
        [apply Z.div_mod; lia | apply Z.mod_pos_bound; lia]).
  assert (E1 : r4 = 365 * n1 + r /\ 0 <= r < 365)
    by (unfold n1, r; split;
        [apply Z.div_mod; lia | apply Z.mod_pos_bound; lia]).
  clearbody n400 r400 n100 r100 n4 r4 n1 r.
  unfold DI400Y, DI100Y, DI4Y in *.
  assert (0 <= n400 <= 24) by lia.
  assert (0 <= n100 <= 4) by lia.
  assert (0 <= n4 <= 24) by lia.
  assert (0 <= n1 <= 4) by lia.
  assert (En : n = a + 1) by (unfold a; lia). clearbody a.
  destruct ((n1 =? 4) || (n100 =? 4)) eqn:Edge.
  - (* the last day of a leap year *)
    apply orb_true_iff in Edge.
    assert (Hc : (n1 = 4 /\ n100 <= 3 /\ n4 <= 23 /\ r = 0)
                 \/ (n100 = 4 /\ n4 = 0 /\ n1 = 0 /\ r = 0))
      by (destruct Edge as [E|E]; apply Z.eqb_eq in E; lia).
    unfold valid_ymd, ymd2ord, days_before_month, days_in_month,
      MINYEAR, MAXYEAR.
    destruct Hc as [(-> & ? & ? & ->)|(-> & -> & -> & ->)].
    + replace (n400 * 400 + 1 + n100 * 100 + n4 * 4 + 4 - 1)
        with (n400 * 400 + 1 + n100 * 100 + n4 * 4 + 3) by lia.
      rewrite days_before_year_cycles, is_leap_cycles by lia.
      zcmp; try (split; [reflexivity | lia]).
    + replace (n400 * 400 + 1 + 4 * 100 + 0 * 4 + 0 - 1)
        with (n400 * 400 + 1 + 3 * 100 + 24 * 4 + 3) by lia.
      rewrite days_before_year_cycles, is_leap_cycles by lia.
      zcmp; try (split; [reflexivity | lia]).
  - apply orb_false_iff in Edge. destruct Edge as [N1 N100].
    apply Z.eqb_neq in N1, N100.
    rewrite Z.shiftr_div_pow2 by lia. change (2 ^ 5) with 32.
    set (lp := (n1 =? 3) && (negb (n4 =? 24) || (n100 =? 3))).
    assert (Hlp : is_leap (n400 * 400 + 1 + n100 * 100 + n4 * 4 + n1) = lp)
      by (apply is_leap_cycles; lia).
    assert (Hdby := days_before_year_cycles n400 n100 n4 n1
                      ltac:(lia) ltac:(lia) ltac:(lia) ltac:(lia)).
    assert (Hm : 1 <= (r + 50) / 32 <= 12) by zdm.
    assert (Hmo : 32 * ((r + 50) / 32) <= r + 50 < 32 * ((r + 50) / 32) + 32)
      by zdm.
    set (mo := (r + 50) / 32) in *. clearbody mo.
    assert (Hcases : mo = 1 \/ mo = 2 \/ mo = 3 \/ mo = 4 \/ mo = 5 \/ mo = 6
                     \/ mo = 7 \/ mo = 8 \/ mo = 9 \/ mo = 10 \/ mo = 11
                     \/ mo = 12) by lia.
    unfold valid_ymd, ymd2ord, days_before_month, days_in_month,
      MINYEAR, MAXYEAR.
    clearbody lp.
    repeat destruct Hcases as [->|Hcases]; try subst mo; destruct lp;
      zsimp;
      match goal with
      | |- context [if ?x <? ?y then _ else _] =>
          destruct (Z.ltb_spec x y); try lia
      end;
      zsimp; rewrite ?Hlp, ?Hdby; zcmp; try (split; [reflexivity | lia]).
Qed.

Lemma fromordinal_valid n :
  1 <= n <= MAXORDINAL -> valid (fromordinal n) = true.
Proof.
  intros Hn. pose proof (ord2ymd_ymd2ord n Hn) as H.
  unfold fromordinal, valid. destruct (ord2ymd n) as [[y m] d]. apply H.
Qed.

Lemma toordinal_fromordinal n :
  1 <= n <= MAXORDINAL -> toordinal (fromordinal n) = n.
Proof.
  intros Hn. pose proof (ord2ymd_ymd2ord n Hn) as H.
  unfold fromordinal, toordinal. destruct (ord2ymd n) as [[y m] d]. apply H.
Qed.

Lemma valid_inv d :
  valid d = true ->
  1 <= year d <= 9999 /\ 1 <= month d <= 12
  /\ 1 <= day d <= days_in_month (year d) (month d).
Proof.
  unfold valid, valid_ymd, MINYEAR, MAXYEAR. intros H.
  repeat (apply andb_true_iff in H; destruct H as [H ?]). lia.
Qed.

Lemma days_before_year_succ y :
  days_before_year (y + 1)
  = days_before_year y + 365 + (if is_leap y then 1 else 0).
Proof.
  unfold days_before_year, is_leap.
  repeat match goal with
         | |- context [?a =? ?b] => destruct (Z.eqb_spec a b)
         end; cbn [andb orb negb]; zdm.
Qed.

Lemma days_before_year_mono y1 y2 :
  y1 <= y2 -> days_before_year y1 <= days_before_year y2.
Proof. intros. unfold days_before_year. zdm. Qed.

Lemma month_cases m :
  1 <= m <= 12 ->
  m = 1 \/ m = 2 \/ m = 3 \/ m = 4 \/ m = 5 \/ m = 6 \/ m = 7 \/ m = 8
  \/ m = 9 \/ m = 10 \/ m = 11 \/ m = 12.
Proof. lia. Qed.

(** A date never reaches into the next month or the next year. *)
Lemma day_of_year_bounds y m d :
  1 <= m <= 12 -> 1 <= d <= days_in_month y m ->
  1 <= days_before_month y m + d <= 365 + (if is_leap y then 1 else 0)
  /\ forall m', m < m' <= 12 ->
                days_before_month y m + d <= days_before_month y m'.
Proof.
  intros Hm Hd. unfold days_before_month, days_in_month in *.
  destruct (is_leap y);
    destruct (month_cases m Hm) as [->|[->|[->|[->|[->|[->|[->|[->|[->|[->|[->| ->]]]]]]]]]]];
    cbn in Hd |- *; (split; [lia|]); intros m' Hm';
    destruct (month_cases m' ltac:(lia))
      as [->|[->|[->|[->|[->|[->|[->|[->|[->|[->|[->| ->]]]]]]]]]]];
    cbn; lia.
Qed.

(** The ordinal is strictly increasing along the order of the triples. *)
Lemma toordinal_lt a b :
  valid a = true -> valid b = true ->
  year a < year b
  \/ (year a = year b
      /\ (month a < month b \/ (month a = month b /\ day a < day b))) ->
  toordinal a < toordinal b.
Proof.
  intros Ha Hb Hlt.
  destruct (valid_inv a Ha) as (Hya & Hma & Hda).
  destruct (valid_inv b Hb) as (Hyb & Hmb & Hdb).
  destruct (day_of_year_bounds _ _ _ Hma Hda) as [Ba Ba'].
  destruct (day_of_year_bounds _ _ _ Hmb Hdb) as [Bb _].
  unfold toordinal, ymd2ord.
  destruct Hlt as [Hy|[Hy [Hm|[Hm Hd]]]].
  - pose proof (days_before_year_succ (year a)).
    pose proof (days_before_year_mono (year a + 1) (year b) ltac:(lia)).
    lia.
  - rewrite Hy in *. specialize (Ba' (month b) ltac:(lia)). lia.
  - rewrite Hy, Hm. lia.
Qed.

Lemma date_ge_toordinal a b :
  valid a = true -> valid b = true ->
  date_ge a b = (toordinal b <=? toordinal a).
Proof.
  intros Ha Hb. unfold date_ge.
  destruct (Z.leb_spec (toordinal b) (toordinal a)) as [Hle|Hlt].
  - destruct (Z.eqb_spec (year a) (year b)) as [Ey|Ny].
    + destruct (Z.eqb_spec (month a) (month b)) as [Em|Nm].
      * apply Z.leb_le. destruct (Z.le_gt_cases (day b) (day a)); [done|].
        pose proof (toordinal_lt a b Ha Hb ltac:(lia)). lia.
      * apply Z.ltb_lt. destruct (Z.lt_ge_cases (month b) (month a)); [done|].
        pose proof (toordinal_lt a b Ha Hb ltac:(lia)). lia.
    + apply Z.ltb_lt. destruct (Z.lt_ge_cases (year b) (year a)); [done|].
      pose proof (toordinal_lt a b Ha Hb ltac:(lia)). lia.
  - destruct (Z.eqb_spec (year a) (year b)) as [Ey|Ny].
    + destruct (Z.eqb_spec (month a) (month b)) as [Em|Nm].
      * apply Z.leb_gt. destruct (Z.lt_ge_cases (day a) (day b)); [done|].
        destruct (Z.eq_dec (day a) (day b)) as [Ed|Nd].
        -- unfold toordinal in Hlt. rewrite Ey, Em, Ed in Hlt. lia.
        -- pose proof (toordinal_lt b a Hb Ha ltac:(lia)). lia.
      * apply Z.ltb_ge. destruct (Z.le_gt_cases (month a) (month b)); [done|].
        pose proof (toordinal_lt b a Hb Ha ltac:(lia)). lia.
    + apply Z.ltb_ge. destruct (Z.le_gt_cases (year a) (year b)); [done|].
      pose proof (toordinal_lt b a Hb Ha ltac:(lia)). lia.
Qed.

Lemma toordinal_range d :
  valid d = true -> 1 <= toordinal d <= MAXORDINAL.
Proof.
  intros Hd. destruct (valid_inv d Hd) as (Hy & Hm & Hdd).
  destruct (day_of_year_bounds _ _ _ Hm Hdd) as [B _].
  pose proof (days_before_year_succ (year d)).
  pose proof (days_before_year_mono 1 (year d) ltac:(lia)).
  pose proof (days_before_year_mono (year d + 1) 10000 ltac:(lia)).
  unfold toordinal, ymd2ord, MAXORDINAL.
  change (days_before_year 1) with 0 in *.
  change (days_before_year 10000) with 3652059 in *. lia.
Qed.

End CalendarFacts.

(** ** Retention policy *)
Section RetentionFacts.
Import Calendar Retention.
Local Open Scope Z_scope.

Lemma date_sub_inv now k d :
  valid now = true -> date_sub now k = Ok d ->
  valid d = true /\ toordinal d = toordinal now - k.
Proof.
  unfold date_sub. intros Hnow H.
  destruct ((0 <? toordinal now - k) && (toordinal now - k <=? MAXORDINAL))
    eqn:E; [|done].
  injection H as <-. apply andb_true_iff in E. destruct E as [E1 E2].
  apply Z.ltb_lt in E1. apply Z.leb_le in E2.
  assert (1 <= toordinal now - k <= MAXORDINAL) by lia.
  split; [by apply fromordinal_valid | by apply toordinal_fromordinal].
Qed.

(** With the week, month and year tiers at NONE only the day tier decides. *)
Lemma should_keep_day_only N now d :
  N <> ALL_VALUE ->
  should_keep (mkfreq N NO_VALUE NO_VALUE NO_VALUE) now d
  = Ok (negb (N =? NO_VALUE) && (days_between now d + 1 <=? N)).
Proof.
  intros HN. unfold should_keep, keep_week, keep_month, keep_year. cbn.
  destruct (Z.eqb_spec N ALL_VALUE); [done|].
  destruct (negb (N =? NO_VALUE) && (days_between now d + 1 <=? N)); [done|].
  destruct (isoweekday d =? 1); cbn; destruct (day d =? 1); cbn; [|done| |done];
    by destruct (month d =? 1).
Qed.

(** C1: with the day tier at N > 0 and the other tiers at NONE, the snapshot
    of k days before the reference date is kept for every k from 0 to N-1
    and is not kept for k = N. *)
Theorem day_tier_window (N k : Z) (now d : date) :
  0 < N -> 0 <= k -> valid now = true -> date_sub now k = Ok d ->
  (k <= N - 1 ->
   should_keep (mkfreq N NO_VALUE NO_VALUE NO_VALUE) now d = Ok true)
  /\ (k = N ->
      should_keep (mkfreq N NO_VALUE NO_VALUE NO_VALUE) now d = Ok false).
Proof.
  intros HN Hk Hnow Hd.
  destruct (date_sub_inv _ _ _ Hnow Hd) as [_ Hord].
  rewrite should_keep_day_only by (unfold ALL_VALUE; lia).
  unfold days_between, NO_VALUE. rewrite Hord.
  replace (N =? 0) with false by (symmetry; apply Z.eqb_neq; lia). cbn.
  split; intros Hc; f_equal; [apply Z.leb_le | apply Z.leb_gt]; lia.
Qed.

Lemma day_tier_window_witness :
  should_keep (mkfreq 3 NO_VALUE NO_VALUE NO_VALUE)
              (mkdate 2024 3 1) (mkdate 2024 2 28) = Ok true.
Proof.
  apply (day_tier_window 3 2 (mkdate 2024 3 1) (mkdate 2024 2 28));
    [lia | lia | reflexivity | reflexivity | lia].
Defined.

(** C2, the claim as stated fails: a policy that keeps every week, and
    nothing else, does not save on a Tuesday. *)
Lemma should_save_not_iff_nonempty :
  valid (mkdate 2024 1 2) = true
  /\ parsed (mkfreq NO_VALUE ALL_VALUE NO_VALUE NO_VALUE)
  /\ is_empty (mkfreq NO_VALUE ALL_VALUE NO_VALUE NO_VALUE) = false
  /\ should_save (mkfreq NO_VALUE ALL_VALUE NO_VALUE NO_VALUE)
                 (mkdate 2024 1 2) = Ok false.
Proof.
  split; [reflexivity|]. split; [unfold parsed, NO_VALUE, ALL_VALUE; cbn; lia|].
  split; vm_compute; reflexivity.
Qed.

Lemma date_ge_year_before now y m :
  y < year now -> date_ge now (mkdate y m 1) = true.
Proof.
  intros H. unfold date_ge; cbn.
  destruct (Z.eqb_spec (year now) y); [lia | apply Z.ltb_lt; lia].
Qed.

Lemma keep_week_today f now :
  valid now = true -> -1 <= _week f -> 7 * (_week f - 1) < toordinal now ->
  keep_week f now now
  = Ok ((isoweekday now =? 1) && negb (_week f =? NO_VALUE)).
Proof.
  intros Hnow Hw Hc. unfold keep_week, ALL_VALUE, NO_VALUE.
  destruct (Z.eqb_spec (isoweekday now) 1) as [Emon|]; [|done].
  destruct (Z.eqb_spec (_week f) (-1)) as [->|]; [done|].
  destruct (Z.eqb_spec (_week f) 0); [done|]. cbn.
  pose proof (toordinal_range now Hnow) as Hr. unfold MAXORDINAL in Hr.
  rewrite Emon. unfold timedelta.
  destruct (Z.leb_spec (-999999999) (1 + 7 * _week f - 8)); [|lia].
  destruct (Z.leb_spec (1 + 7 * _week f - 8) 999999999); [|lia]. cbn.
  destruct (date_sub now (1 + 7 * _week f - 8)) as [d|e] eqn:Hd.
  - destruct (date_sub_inv _ _ _ Hnow Hd) as [Hv Ho]. cbn.
    rewrite date_ge_toordinal by done. f_equal. apply Z.leb_le. lia.
  - unfold date_sub, MAXORDINAL in Hd.
    destruct (Z.ltb_spec 0 (toordinal now - (1 + 7 * _week f - 8))); [|lia].
    destruct (Z.leb_spec (toordinal now - (1 + 7 * _week f - 8)) 3652059);
      [done | lia].
Qed.

Lemma keep_month_today f now :
  valid now = true -> day now = 1 -> -1 <= _month f ->
  1 <= year now + (month now - _month f) / 12 ->
  keep_month f now now = Ok (negb (_month f =? NO_VALUE)).
Proof.
  intros Hnow Hday Hm Hc. unfold keep_month, ALL_VALUE, NO_VALUE.
  destruct (valid_inv now Hnow) as (Hy & Hmo & _).
  destruct (Z.eqb_spec (_month f) (-1)) as [->|]; [done|].
  destruct (Z.eqb_spec (_month f) 0); [done|]. cbn.
  set (q := (month now - _month f) / 12) in *.
  set (r := (month now - _month f) mod 12).
  assert (Hqr : month now - _month f = 12 * q + r /\ 0 <= r < 12)
    by (unfold q, r; split;
        [apply Z.div_mod; lia | apply Z.mod_pos_bound; lia]).
  clearbody q r.
  assert (Hvalid : valid_ymd (year now + q) (r + 1) 1 = true).
  { unfold valid_ymd, MINYEAR, MAXYEAR.
    repeat (apply andb_true_iff; split); try (apply Z.leb_le; lia).
    apply Z.leb_le. unfold days_in_month.
    destruct ((r + 1 =? 2) && is_leap (year now + q)); [lia|].
    destruct (month_cases (r + 1) ltac:(lia))
      as [->|[->|[->|[->|[->|[->|[->|[->|[->|[->|[->| ->]]]]]]]]]]];
      cbn; lia. }
  unfold date_new. rewrite Hvalid. cbn. f_equal.
  destruct (Z.eq_dec q 0) as [->|Hq].
  - unfold date_ge; cbn. rewrite Z.add_0_r, Z.eqb_refl, Hday.
    destruct (Z.eqb_spec (month now) (r + 1)); [done | apply Z.ltb_lt; lia].
  - apply date_ge_year_before. lia.
Qed.

Lemma keep_year_today f now :
  valid now = true -> day now = 1 -> -1 <= _year f -> _year f <= year now ->
  keep_year f now now
  = Ok ((month now =? 1) && negb (_year f =? NO_VALUE)).
Proof.
  intros Hnow Hday Hy Hc. unfold keep_year, ALL_VALUE, NO_VALUE.
  destruct (valid_inv now Hnow) as (Hyr & _ & _).
  destruct (Z.eqb_spec (month now) 1) as [Hm|]; [|done].
  destruct (Z.eqb_spec (_year f) (-1)) as [->|]; [done|].
  destruct (Z.eqb_spec (_year f) 0); [done|]. cbn.
  assert (Hvalid : valid_ymd (year now - _year f + 1) 1 1 = true).
  { unfold valid_ymd, MINYEAR, MAXYEAR.
    repeat (apply andb_true_iff; split); apply Z.leb_le; cbn; lia. }
  unfold date_new. rewrite Hvalid. cbn. f_equal.
  destruct (Z.eq_dec (_year f) 1) as [E|].
  - unfold date_ge; cbn. rewrite E, Hm, Hday.
    replace (year now - 1 + 1) with (year now) by lia.
    by rewrite Z.eqb_refl.
  - apply date_ge_year_before. lia.
Qed.

(** C2 as the code has it: [should_save()] is [should_keep] of the
    reference date, so it returns true exactly on the days on which some
    tier other than NONE asks for a snapshot: every day for the day tier,
    Mondays for the week tier, the first of a month for the month tier and
    the first of January for the year tier. *)
Theorem should_save_on_save_days (f : BackupFrequency) (now : date) :
  valid now = true -> parsed f -> cutoffs_in_calendar f now ->
  should_save f now = Ok (save_day f now).
Proof.
  intros Hnow (Hd & Hw & Hm & Hy) (Cw & Cm & Cy).
  unfold should_save, should_keep, save_day, ALL_VALUE, NO_VALUE.
  destruct (Z.eqb_spec (_day f) (-1)) as [->|Hd1]; [done|].
  unfold days_between. rewrite Z.sub_diag.
  destruct (Z.eqb_spec (_day f) 0) as [Hd0|Hd0]; cbn [negb andb orb].
  2: { replace (0 + 1 <=? _day f) with true by (symmetry; apply Z.leb_le; lia).
       done. }
  rewrite keep_week_today by done. unfold NO_VALUE. cbn [Py.bind].
  destruct ((isoweekday now =? 1) && negb (_week f =? 0)); [done|].
  cbn [orb].
  destruct (Z.eqb_spec (day now) 1) as [Hday|]; [|done].
  rewrite keep_month_today by done. unfold NO_VALUE. cbn [Py.bind andb].
  destruct (negb (_month f =? 0)); [done|]. cbn [orb].
  by rewrite keep_year_today.
Qed.

Lemma should_save_on_save_days_witness :
  should_save (mkfreq NO_VALUE 2 NO_VALUE NO_VALUE) (mkdate 2024 1 8)
  = Ok true.
Proof.
  apply (should_save_on_save_days (mkfreq NO_VALUE 2 NO_VALUE NO_VALUE)
                                  (mkdate 2024 1 8));
    [reflexivity | unfold parsed, NO_VALUE; cbn; lia
     | vm_compute; repeat split; discriminate].
Defined.

End RetentionFacts.

(** ** Deep merge of configuration values *)
Section MergeFacts.
Import Merge.

Example deep_merge_nested_dicts :
  deep_merge
    (VDict [("a", VDict [("x", VScalar (SInt 1))])])
    (VDict [("a", VDict [("y", VScalar (SInt 2))])])
  = VDict [("a", VDict [("x", VScalar (SInt 1)); ("y", VScalar (SInt 2))])].
Proof. reflexivity. Qed.

Example deep_merge_lists :
  deep_merge (VList [VScalar (SInt 1); VScalar (SInt 2)])
             (VList [VScalar (SInt 3)])
  = VList [VScalar (SInt 1); VScalar (SInt 2); VScalar (SInt 3)].
Proof. reflexivity. Qed.

Lemma dict_get_set_eq {A} k (v : A) d : dict_get k (dict_set k v d) = Some v.
Proof.
  induction d as [|[k' v'] d IH]; cbn.
  - by rewrite String.eqb_refl.
  - destruct (String.eqb k' k) eqn:E; cbn; by rewrite E.
Qed.

Lemma dict_get_set_ne {A} k k' (v : A) d :
  k <> k' -> dict_get k' (dict_set k v d) = dict_get k' d.
Proof.
  intros Hne. induction d as [|[k0 v0] d IH]; cbn.
  - destruct (String.eqb_spec k k'); [done | reflexivity].
  - destruct (String.eqb_spec k0 k) as [->|]; cbn.
    + by destruct (String.eqb_spec k k').
    + by rewrite IH.
Qed.

Lemma dict_get_keys {A} k (d : list (string * A)) :
  In k (keys d) <-> is_Some (dict_get k d).
Proof.
  induction d as [|[k0 v0] d IH]; cbn.
  - split; [done | by intros [? ?]].
  - destruct (String.eqb_spec k0 k) as [->|Hne].
    + split; [by eexists | by left].
    + rewrite <- IH. split; [by intros [?|?] | by right].
Qed.

Lemma dict_get_not_key {A} k (d : list (string * A)) :
  ~ In k (keys d) -> dict_get k d = None.
Proof.
  intros H. destruct (dict_get k d) eqn:E; [|done].
  exfalso. apply H, dict_get_keys. by eexists.
Qed.

(** What the loop over [new.items()] leaves under each key. *)
Lemma merge_items_get merge items : forall result k,
  NoDup (keys items) ->
  dict_get k (merge_items merge items result)
  = match dict_get k items with
    | None => dict_get k result
    | Some y => Some (match dict_get k result with
                      | Some x => merge x y
                      | None => y
                      end)
    end.
Proof.
  induction items as [|[key val] rest IH]; intros result k Hnd; [done|].
  cbn in Hnd. apply NoDup_cons in Hnd as [Hkey Hnd].
  cbn [merge_items dict_get]. rewrite IH by done.
  destruct (String.eqb_spec key k) as [->|Hne].
  - rewrite (dict_get_not_key k rest) by (by rewrite <- list_elem_of_In).
    destruct (dict_get k result); by rewrite dict_get_set_eq.
  - destruct (dict_get key result); by rewrite dict_get_set_ne.
Qed.

(** C4: the four rules of [deep_merge].  Two dicts give a dict whose keys
    are the keys of both, a key of both holding the deep merge of its two
    values; two lists are concatenated; a dict and a list give the list
    with the dict appended; a scalar and a dict give the pair [old, new].
    [deep_merge] is a total function: it does not raise. *)
Theorem deep_merge_rules (src new : list (string * value))
    (a b : list value) (s : scalar) :
  NoDup (keys new) ->
  (exists merged,
      deep_merge (VDict src) (VDict new) = VDict merged
      /\ (forall k, In k (keys merged) <-> In k (keys src) \/ In k (keys new))
      /\ (forall k, dict_get k merged
                    = match dict_get k src, dict_get k new with
                      | Some x, Some y => Some (deep_merge x y)
                      | Some x, None => Some x
                      | None, Some y => Some y
                      | None, None => None
                      end))
  /\ deep_merge (VList a) (VList b) = VList (a ++ b)
  /\ deep_merge (VDict src) (VList a) = VList (a ++ [VDict src])
  /\ deep_merge (VList a) (VDict new) = VList (a ++ [VDict new])
  /\ deep_merge (VScalar s) (VDict new) = VList [VScalar s; VDict new]
  /\ deep_merge (VDict src) (VScalar s) = VList [VDict src; VScalar s].
Proof.
  intros Hnd. split; [|by repeat split].
  exists (merge_items deep_merge new src). split; [reflexivity|].
  assert (Hget : forall k,
             dict_get k (merge_items deep_merge new src)
             = match dict_get k src, dict_get k new with
               | Some x, Some y => Some (deep_merge x y)
               | Some x, None => Some x
               | None, Some y => Some y
               | None, None => None
               end).
  { intros k. rewrite merge_items_get by done.
    by destruct (dict_get k src), (dict_get k new). }
  split; [|exact Hget].
  intros k. rewrite !dict_get_keys, Hget.
  destruct (dict_get k src), (dict_get k new); split;
    try (intros [?|?]); try done; try (by eexists);
    try (by left; eexists); try (by right; eexists);
    by match goal with H : is_Some None |- _ => destruct H end.
Qed.

Lemma deep_merge_rules_witness :
  deep_merge (VList [VScalar (SInt 1)]) (VDict [("a", VNone)])
  = VList [VScalar (SInt 1); VDict [("a", VNone)]].
Proof.
  apply (deep_merge_rules [] [("a", VNone)] [VScalar (SInt 1)] []
                          (SBool true)).
  cbn. apply NoDup_cons. split; [apply not_elem_of_nil | apply NoDup_nil_2].
Defined.

(** C10: [None] is a two-sided identity of [deep_merge]. *)
Theorem deep_merge_none_identity (x : value) :
  deep_merge x VNone = x /\ deep_merge VNone x = x.
Proof. split; [reflexivity | by destruct x]. Qed.

End MergeFacts.

(** ** Archive listing *)
Section ArchiveFacts.
Import PyStr Calendar Retention Archives.
Local Open Scope string_scope.

Example local_list_archives_spec_example :
  local_list_archives "/backup"
    [("20240101_web1_app.tgz", true); ("bad_name.tgz", true);
     ("20240101stray.tgz", true)] None
  = Ok ["/backup/20240101_web1_app.tgz"].
Proof. vm_compute. reflexivity. Qed.

Example basename_of_path :
  basename "/backup/20240101_web1_app.tgz" = "20240101_web1_app.tgz".
Proof. reflexivity. Qed.

(** The local listing also lets through a name whose eighth character is a
    newline: [$] matches before it and [int] skips it. *)
Example local_list_archives_newline :
  local_list_archives "/backup"
    [(String.append "2024011" (String newline "_x.tgz"), true)] None
  = Ok [String.append "/backup/2024011" (String newline "_x.tgz")]
  /\ naming_invariant (String.append "2024011" (String newline "_x.tgz"))
     = false.
Proof. split; vm_compute; reflexivity. Qed.

(** The tests of the local listing, on one name: a name that passes them
    satisfies the naming invariant, unless its eighth character is the
    newline that [$] and [int] let through. *)
Lemma local_tests_naming f :
  bad_shape f = false ->
  exists stamp rest,
    unpack2 (split "_" 1 f) = Ok (stamp, rest)
    /\ (re_match_digits stamp = true ->
        returns (archive_date_of stamp) ->
        naming_invariant f = true \/ String.get 7 f = Some newline).
Proof.
  destruct f as [|c0 [|c1 [|c2 [|c3 [|c4 [|c5 [|c6 [|c7 [|c8 [|c9 tail]]]]]]]]]];
    try discriminate.
  unfold bad_shape. cbn -[Ascii.eqb].
  intros H. apply orb_false_iff in H as [H8 H].
  apply negb_false_iff, Ascii.eqb_eq in H8 as ->.
  apply orb_false_iff in H as [E0 H]. apply orb_false_iff in H as [E1 H].
  apply orb_false_iff in H as [E2 H]. apply orb_false_iff in H as [E3 H].
  apply orb_false_iff in H as [E4 H]. apply orb_false_iff in H as [E5 H].
  apply orb_false_iff in H as [E6 H]. apply orb_false_iff in H as [E7 _].
  rewrite E0, E1, E2, E3, E4, E5, E6, E7, Ascii.eqb_refl.
  cbn -[Ascii.eqb is_digit].
  do 2 eexists. split; [reflexivity|].
  intros Hre [d Hd]. unfold naming_invariant.
  cbn -[Ascii.eqb is_digit archive_date_of].
  rewrite E0, E1, E2, E3, E4, E5, E6, E7, Ascii.eqb_refl, Hd.
  unfold eight_digits. cbn -[is_digit].
  unfold re_match_digits in Hre. cbn -[is_digit Ascii.eqb] in Hre.
  destruct (is_digit c0); [cbn -[is_digit Ascii.eqb] in Hre|discriminate Hre].
  destruct (is_digit c1);
    [|apply andb_true_iff in Hre as [_ Hre]; discriminate Hre].
  destruct (is_digit c2);
    [|apply andb_true_iff in Hre as [_ Hre]; discriminate Hre].
  destruct (is_digit c3);
    [|apply andb_true_iff in Hre as [_ Hre]; discriminate Hre].
  destruct (is_digit c4);
    [|apply andb_true_iff in Hre as [_ Hre]; discriminate Hre].
  destruct (is_digit c5);
    [|apply andb_true_iff in Hre as [_ Hre]; discriminate Hre].
  destruct (is_digit c6);
    [|apply andb_true_iff in Hre as [_ Hre]; discriminate Hre].
  destruct (is_digit c7); [by left|].
  right. apply andb_true_iff in Hre as [Hn _].
  by apply Ascii.eqb_eq in Hn as ->.
Qed.

Lemma py_int_raises s e : py_int s = Raise e -> e = ValueError.
Proof.
  unfold py_int. destruct (rstrip (lstrip s)) as [|c r]; [by intros [= <-]|].
  set (p := match String c r with
            | String "-" r0 => (-1, r0)
            | String "+" r0 => (1, r0)
            | _ => (1, String c r)
            end%Z).
  destruct p as [sign [|c' body]]; [by intros [= <-]|].
  destruct (digits_value 0 (String c' body)); [done | by intros [= <-]].
Qed.

Lemma archive_date_of_raises s e :
  archive_date_of s = Raise e -> e = ValueError.
Proof.
  unfold archive_date_of, date_new.
  destruct (py_int (slice 0 4 s)) eqn:E1; cbn; [|intros [= <-]; eauto using py_int_raises].
  destruct (py_int (slice 4 6 s)) eqn:E2; cbn; [|intros [= <-]; eauto using py_int_raises].
  destruct (py_int (slice 6 8 s)) eqn:E3; cbn; [|intros [= <-]; eauto using py_int_raises].
  destruct (valid_ymd _ _ _); [done | by intros [= <-]].
Qed.

Lemma local_list_archives_from_filtered folder fn : forall entries results,
  exists res,
    local_list_archives_from folder fn entries results = Ok res
    /\ forall p, p ∈ res ->
         p ∈ results
         \/ exists f, (f, true) ∈ entries /\ p = path_join folder f
                      /\ (naming_invariant f = true
                          \/ String.get 7 f = Some newline).
Proof.
  induction entries as [|[f isfile] entries IH]; intros results;
    cbn [local_list_archives_from].
  - exists results. split; [done | by left].
  - assert (Hskip : forall results',
      (forall p, p ∈ results' ->
         p ∈ results
         \/ exists f', (f', true) ∈ (f, isfile) :: entries
                       /\ p = path_join folder f'
                       /\ (naming_invariant f' = true
                           \/ String.get 7 f' = Some newline)) ->
      exists res,
        local_list_archives_from folder fn entries results' = Ok res
        /\ forall p, p ∈ res ->
             p ∈ results
             \/ exists f', (f', true) ∈ (f, isfile) :: entries
                           /\ p = path_join folder f'
                           /\ (naming_invariant f' = true
                               \/ String.get 7 f' = Some newline)).
    { intros results' Hres. destruct (IH results') as (res & Hr & Hin).
      exists res. split; [done|]. intros p Hp.
      destruct (Hin p Hp) as [Hp'|(f' & Hf' & Hrest)]; [by apply Hres|].
      right. exists f'. split; [by right | done]. }
    destruct isfile; cbn [negb]; [|by apply Hskip; left].
    destruct (bad_shape f) eqn:Hb; [by apply Hskip; left|].
    destruct (local_tests_naming f Hb) as (stamp & rest & Hu & Hn).
    rewrite Hu. cbn [Py.bind].
    destruct (re_match_digits stamp) eqn:Hre; cbn [negb];
      [|by apply Hskip; left].
    destruct (archive_date_of stamp) as [d|e] eqn:Hd.
    + destruct (other_action fn rest); [by apply Hskip; left|].
      apply Hskip. intros p Hp. apply elem_of_app in Hp as [Hp|Hp]; [by left|].
      apply list_elem_of_singleton in Hp as ->. right. exists f.
      split; [by left|]. split; [done|]. apply Hn; [done | by exists d].
    + rewrite (archive_date_of_raises _ _ Hd). by apply Hskip; left.
Qed.

(** Once the folder is listed, the local listing returns, and returns only
    regular files of the folder whose names pass the tests above. *)
Lemma local_list_archives_filtered folder entries fn :
  exists res,
    local_list_archives folder entries fn = Ok res
    /\ forall p, p ∈ res ->
         exists f, (f, true) ∈ entries /\ p = path_join folder f
                   /\ (naming_invariant f = true
                       \/ String.get 7 f = Some newline).
Proof.
  destruct (local_list_archives_from_filtered folder fn entries [])
    as (res & Hr & Hin).
  exists res. split; [done|]. intros p Hp.
  destruct (Hin p Hp) as [Hnil|H]; [by apply elem_of_nil in Hnil | done].
Qed.

(** X11: The local listing raises exactly when [os.listdir] raises, and
    then what [os.listdir] raised (an [OSError] for a folder that is missing
    or cannot be read).  When [os.listdir] returns, the listing returns,
    and every path of it is the folder joined with the name of a regular
    file of the folder whose name passes the tests above. *)
Theorem list_local_folder_filtered (folder : string)
    (listing : result directory) (fn : option string) :
  match listing with
  | Raise e => list_local_folder folder listing fn = Raise e
  | Ok entries =>
      exists res,
        list_local_folder folder listing fn = Ok res
        /\ forall p, p ∈ res ->
             exists f, (f, true) ∈ entries /\ p = path_join folder f
                       /\ (naming_invariant f = true
                           \/ String.get 7 f = Some newline)
  end.
Proof.
  destruct listing as [entries|e]; [|reflexivity].
  exact (local_list_archives_filtered folder entries fn).
Qed.

Example list_local_folder_missing :
  list_local_folder "/backup" (Raise (OSError "No such file or directory"))
                    (Some "web1_www")
  = Raise (OSError "No such file or directory").
Proof. reflexivity. Qed.

(** C6 at the archival backend: [GlacierStorage.list_archives] returns a
    name of the index that breaks the naming invariant, and which
    [should_keep] reports as not to be kept; on a name without underscore
    the listing raises. *)
Theorem glacier_list_archives_unfiltered :
  glacier_list_archives ["20240101_web1_app.tgz"; "bad_name.tgz"] None
  = Ok ["20240101_web1_app.tgz"; "bad_name.tgz"]
  /\ naming_invariant "bad_name.tgz" = false
  /\ (forall f now, should_keep_archive f now "bad_name.tgz" = Ok false)
  /\ glacier_list_archives ["backup glacier access test"] None
     = Raise ValueError.
Proof. repeat split; vm_compute; reflexivity. Qed.

End ArchiveFacts.

(** ** Reports *)
Section ReportFacts.
Import Report.
Local Open Scope string_scope.
Local Open Scope list_scope.

Example by_server_interleaved :
  by_server (after [AddSuccess "web1" "s1"; AddIssue "web1" "e1";
                    AddWarning "web1" "w1"; AddIssue "web1" "e2"])
    !! "web1"
  = Some [mk_entry "error" "e1"; mk_entry "error" "e2";
          mk_entry "warning" "w1"; mk_entry "server" "s1"].
Proof. vm_compute. reflexivity. Qed.

Lemma append_to_lookup {A} (server : string) (details : A)
    (d : gmap string (list A)) (server' : string) :
  append_to server details d !! server'
  = if decide (server = server')
    then Some (default [] (d !! server) ++ [details])
    else d !! server'.
Proof.
  unfold append_to. destruct (decide (server = server')) as [<-|Hne].
  - destruct (d !! server) as [l|] eqn:E.
    + by rewrite lookup_alter_eq, E.
    + by rewrite lookup_alter_eq, lookup_insert_eq.
  - rewrite lookup_alter_ne by done.
    destruct (d !! server); [done | by rewrite lookup_insert_ne].
Qed.

Lemma tag_all_lookup lvl (server : string) errors :
  forall (result : gmap string (list entry)) (server' : string),
  foldl (fun result error =>
           alter (fun l => l ++ [mk_entry lvl error]) server result)
        result errors !! server'
  = if decide (server = server')
    then (fun l => l ++ map (mk_entry lvl) errors) <$> result !! server
    else result !! server'.
Proof.
  induction errors as [|e errors IH]; intros result server'; cbn.
  - destruct (decide (server = server')) as [<-|]; [|done].
    destruct (result !! server); cbn; [by rewrite app_nil_r | done].
  - rewrite IH. destruct (decide (server = server')) as [<-|]; [|].
    + rewrite lookup_alter_eq. destruct (result !! server); cbn; [|done].
      by rewrite <- app_assoc.
    + by rewrite lookup_alter_ne.
Qed.

(** One loop of [by_server] appends the tagged messages of each server of
    [d] to what [result] has for it and leaves the other servers alone. *)
Lemma collect_lookup lvl d (result : gmap string (list entry))
    (server : string) :
  collect lvl d result !! server
  = match d !! server with
    | None => result !! server
    | Some errors =>
        Some (default [] (result !! server) ++ map (mk_entry lvl) errors)
    end.
Proof.
  unfold collect. revert server.
  apply (map_fold_weak_ind (fun r m => forall server,
    r !! server
    = match m !! server with
      | None => result !! server
      | Some errors =>
          Some (default [] (result !! server) ++ map (mk_entry lvl) errors)
      end)).
  - intros server. by rewrite lookup_empty.
  - intros i x m r Hi IH server. rewrite tag_all_lookup.
    destruct (decide (i = server)) as [<-|Hne].
    + rewrite lookup_insert_eq. specialize (IH i). rewrite Hi in IH.
      destruct (r !! i) as [l|] eqn:E.
      * rewrite E. cbn. by rewrite <- IH.
      * rewrite lookup_insert_eq. cbn. by rewrite <- IH.
    + rewrite lookup_insert_ne by done. rewrite <- IH.
      destruct (r !! i); [done | by rewrite lookup_insert_ne].
Qed.

Lemma holds_append d (server : string) l details :
  holds d server l -> holds (append_to server details d) server (l ++ [details]).
Proof.
  unfold holds. intros H. rewrite append_to_lookup, H.
  destruct (decide (server = server)); [|done].
  destruct (decide (l ++ [details] = [])) as [E|_].
  - by destruct l.
  - by destruct (decide (l = [])) as [->|].
Qed.

Lemma holds_append_other d (server : string) l (server' : string) details :
  server' <> server ->
  holds d server l -> holds (append_to server' details d) server l.
Proof.
  unfold holds. intros Hne H. rewrite append_to_lookup.
  by destruct (decide (server' = server)).
Qed.

Lemma after_holds calls server :
  holds (_server_issues (after calls)) server (issues_of server calls)
  /\ holds (_server_warnings (after calls)) server (warnings_of server calls)
  /\ holds (_server_success (after calls)) server (successes_of server calls).
Proof.
  unfold after, issues_of, warnings_of, successes_of.
  induction calls as [|c calls IH] using rev_ind.
  - by repeat split.
  - rewrite foldl_app, !omap_app. cbn [foldl omap].
    destruct IH as (Hi & Hw & Hs).
    destruct c as [s d|s d|s d]; cbn;
      destruct (decide (s = server)) as [->|Hne]; cbn;
      rewrite ?app_nil_r; repeat split;
      auto using holds_append, holds_append_other.
Qed.

(** C9: whatever the order of the [add_issue], [add_warning] and
    [add_success] calls, [by_server] gives for a server the entries added
    for it, tagged with the level of their category, the issues first, then
    the warnings, then the successes, each category in call order; a
    server without entry has no key.  The level of a success entry is the
    string ["server"]. *)
Theorem by_server_category_order (calls : list call) (server : string) :
  by_server (after calls) !! server
  = let entries :=
      map (mk_entry "error") (issues_of server calls)
      ++ map (mk_entry "warning") (warnings_of server calls)
      ++ map (mk_entry "server") (successes_of server calls) in
    if decide (entries = []) then None else Some entries.
Proof.
  destruct (after_holds calls server) as (Hi & Hw & Hs).
  unfold by_server, holds in *. rewrite !collect_lookup, Hi, Hw, Hs.
  rewrite lookup_empty. cbn zeta.
  destruct (issues_of server calls) as [|i li];
    destruct (warnings_of server calls) as [|w lw];
    destruct (successes_of server calls) as [|su ls]; cbn;
    repeat (case_decide; try done); cbn; rewrite ?app_nil_r; try done.
  by rewrite <- app_assoc.
Qed.

End ReportFacts.

(** ** Write probes *)
Section WriteTestFacts.
Import WriteTest.
Local Open Scope string_scope.
Local Open Scope list_scope.

Variable w : world.

Lemma check_writable_cached t st b :
  cached st t = Some b -> check_writable w t st = (cached_answer t b, st).
Proof.
  destruct t; cbn; unfold check_folder_writable, _check_glacier_access;
    intros ->; by destruct b.
Qed.

Lemma cached_set_folder st folder b t :
  cached (set_folder_success folder b st) t
  = if decide (t = Folder folder) then Some b else cached st t.
Proof.
  destruct t as [f|v]; cbn; unfold is_folder_success, is_glacier_success; cbn.
  - destruct (decide (Folder f = Folder folder)) as [[= ->]|Hne].
    + by rewrite lookup_insert_eq.
    + rewrite lookup_insert_ne; [done | congruence].
  - by destruct (decide (Vault v = Folder folder)).
Qed.

Lemma cached_set_glacier st vault b t :
  cached (set_glacier_success vault b st) t
  = if decide (t = Vault vault) then Some b else cached st t.
Proof.
  destruct t as [f|v]; cbn; unfold is_folder_success, is_glacier_success; cbn.
  - by destruct (decide (Folder f = Vault vault)).
  - destruct (decide (Vault v = Vault vault)) as [[= ->]|Hne].
    + by rewrite lookup_insert_eq.
    + rewrite lookup_insert_ne; [done | congruence].
Qed.

(** A call on a target that the cache does not know makes one real probe and
    caches its outcome. *)
Lemma check_writable_fresh t st :
  cached st t = None ->
  exists b out st',
    check_writable w t st = (out, st')
    /\ probes st' = probes st ++ [t]
    /\ (out = [] <-> b = true)
    /\ forall t', cached st' t' = if decide (t' = t) then Some b
                                  else cached st t'.
Proof.
  destruct t as [f|v]; cbn; unfold check_folder_writable, _check_glacier_access;
    intros ->; cbn; destruct (w _ _) as [e|].
  - exists false; do 2 eexists. repeat split; try done.
    intros t'. by rewrite cached_set_folder.
  - exists true; do 2 eexists. repeat split; try done.
    intros t'. by rewrite cached_set_folder.
  - exists false; do 2 eexists. repeat split; try done.
    intros t'. by rewrite cached_set_glacier.
  - exists true; do 2 eexists. repeat split; try done.
    intros t'. by rewrite cached_set_glacier.
Qed.

Lemma check_writable_keeps t st out st' t0 b :
  check_writable w t st = (out, st') ->
  cached st t0 = Some b -> cached st' t0 = Some b.
Proof.
  intros Hc H0. destruct (cached st t) as [b'|] eqn:E.
  - rewrite (check_writable_cached _ _ _ E) in Hc. by injection Hc as _ <-.
  - destruct (check_writable_fresh _ _ E) as (b' & out' & st'' & Hc' & _ & _ & Hk).
    rewrite Hc' in Hc. injection Hc as _ <-. rewrite Hk.
    destruct (decide (t0 = t)) as [->|]; [congruence | done].
Qed.

Lemma check_writable_consistent t st out st' :
  consistent st -> check_writable w t st = (out, st') -> consistent st'.
Proof.
  intros [Hnd Hdom] Hc. destruct (cached st t) as [b|] eqn:E.
  - rewrite (check_writable_cached _ _ _ E) in Hc. by injection Hc as _ <-.
  - destruct (check_writable_fresh _ _ E) as (b & out' & st'' & Hc' & Hp & _ & Hk).
    rewrite Hc' in Hc. injection Hc as _ <-. split.
    + rewrite Hp. apply NoDup_app. split; [done|]. split; [|apply NoDup_singleton].
      intros t' Hin Ht'. apply list_elem_of_singleton in Ht' as ->.
      apply Hdom in Hin. rewrite E in Hin. by destruct Hin.
    + intros t'. rewrite Hp, Hk, elem_of_app, list_elem_of_singleton, Hdom.
      destruct (decide (t' = t)) as [->|].
      * split; [by eexists | by right].
      * split; [by intros [?|?] | by left].
  Qed.

(** Once an outcome is cached, every later call on the target is answered
    from it. *)
Lemma run_cached t b : forall calls st outs st',
  cached st t = Some b -> run w calls st = (outs, st') ->
  cached st' t = Some b
  /\ forall j, calls !! j = Some t -> outs !! j = Some (cached_answer t b).
Proof.
  induction calls as [|c calls IH]; intros st outs st' Hb Hrun; cbn in Hrun.
  - injection Hrun as <- <-. by split.
  - destruct (check_writable w c st) as [out st1] eqn:Hc.
    destruct (run w calls st1) as [outs1 st2] eqn:Hr.
    injection Hrun as <- <-.
    pose proof (check_writable_keeps _ _ _ _ _ _ Hc Hb) as Hb1.
    destruct (IH _ _ _ Hb1 Hr) as [Hb2 Hj]. split; [done|].
    intros [|j] Hl; cbn in *; [|by apply Hj].
    injection Hl as ->. rewrite (check_writable_cached _ _ _ Hb) in Hc.
    by injection Hc as <- _.
Qed.

Lemma cached_answer_nil t b : cached_answer t b = [] <-> b = true.
Proof. destruct b, t; cbn; split; congruence. Qed.

Lemma run_consistent : forall calls st outs st',
  consistent st -> run w calls st = (outs, st') ->
  consistent st'
  /\ forall i j t, (i < j)%nat -> calls !! i = Some t -> calls !! j = Some t ->
       exists success,
         outs !! j = Some (cached_answer t success)
         /\ (outs !! i = Some [] <-> success = true).
Proof.
  induction calls as [|c calls IH]; intros st outs st' Hst Hrun; cbn in Hrun.
  - injection Hrun as <- <-. split; [done|]. intros i j t _ Hi. done.
  - destruct (check_writable w c st) as [out st1] eqn:Hc.
    destruct (run w calls st1) as [outs1 st2] eqn:Hr.
    injection Hrun as <- <-.
    pose proof (check_writable_consistent _ _ _ _ Hst Hc) as Hst1.
    destruct (IH _ _ _ Hst1 Hr) as [Hst2 Hij]. split; [done|].
    intros i [|j] t Hlt Hi Hj; [lia|]. destruct i as [|i]; cbn in *.
    + injection Hi as ->.
      assert (exists b, cached st1 t = Some b /\ (out = [] <-> b = true))
        as (b & Hb & Hout).
      { destruct (cached st t) as [b|] eqn:E.
        - rewrite (check_writable_cached _ _ _ E) in Hc.
          injection Hc as <- <-. exists b. split; [done|].
          apply cached_answer_nil.
        - destruct (check_writable_fresh _ _ E)
            as (b & out' & st'' & Hc' & _ & Ho & Hk).
          rewrite Hc' in Hc. injection Hc as <- <-. exists b.
          split; [|done]. rewrite Hk. by destruct (decide (t = t)). }
      exists b. destruct (run_cached _ _ _ _ _ _ Hb Hr) as [_ Hans].
      split; [by apply Hans|]. rewrite <- Hout. split; congruence.
    + apply (Hij i j t); [lia | done | done].
Qed.

(** A call on a target that the cache does not know makes the real probe,
    answers with its outcome and caches whether it succeeded. *)
Lemma check_writable_probe t st :
  cached st t = None ->
  exists st',
    check_writable w t st
    = (probe_answer t (w t (length (probes st))), st')
    /\ probes st' = probes st ++ [t]
    /\ forall t', cached st' t'
                  = if decide (t' = t)
                    then Some (succeeded (w t (length (probes st))))
                    else cached st t'.
Proof.
  destruct t as [f|v]; cbn; unfold check_folder_writable, _check_glacier_access;
    intros ->; cbn; destruct (w _ _) as [e|]; cbn;
    eexists; (split; [reflexivity|]); (split; [reflexivity|]);
    intros t'; by rewrite ?cached_set_folder, ?cached_set_glacier.
Qed.

(** The real probes of a run, from any state: the targets that the cache
    did not know, each probed by the first call on it. *)
Lemma run_probes : forall calls st outs st',
  run w calls st = (outs, st') ->
  exists new,
    probes st' = probes st ++ new
    /\ (forall t, t ∈ new <-> t ∈ calls /\ cached st t = None)
    /\ forall m t, new !! m = Some t ->
         exists i,
           calls !! i = Some t
           /\ (forall k, (k < i)%nat -> calls !! k <> Some t)
           /\ outs !! i
              = Some (probe_answer t (w t (length (probes st) + m)))
           /\ forall j, (i < j)%nat -> calls !! j = Some t ->
                outs !! j
                = Some (cached_answer t
                          (succeeded (w t (length (probes st) + m)))).
Proof.
  induction calls as [|c calls IH]; intros st outs st' Hrun; cbn in Hrun.
  - injection Hrun as <- <-. exists []. rewrite app_nil_r.
    split; [done|]. split; [|done].
    intros t. split; [intros H | intros [H _]]; by apply elem_of_nil in H.
  - destruct (check_writable w c st) as [out st1] eqn:Hc.
    destruct (run w calls st1) as [outs1 st2] eqn:Hr.
    injection Hrun as <- <-.
    destruct (cached st c) as [b|] eqn:E.
    + rewrite (check_writable_cached _ _ _ E) in Hc. injection Hc as <- <-.
      destruct (IH _ _ _ Hr) as (new & Hp & Hnew & Hfirst).
      exists new. split; [done|]. split.
      * intros t. rewrite Hnew. split.
        -- intros [Hin Ht]. split; [by right | done].
        -- intros [Hin Ht]. split; [|done].
           apply elem_of_cons in Hin as [->|Hin]; [congruence | done].
      * intros m t Hm. destruct (Hfirst m t Hm) as (i & Hi & Hk & Ho & Hj).
        assert (Hct : c <> t).
        { intros ->. apply list_elem_of_lookup_2, Hnew in Hm as [_ Hm].
          congruence. }
        exists (S i). split; [done|]. split; [|split; [done|]].
        -- intros [|k] Hlt; cbn; [congruence | apply Hk; lia].
        -- intros [|j] Hlt Hl; [lia|]. apply Hj; [lia | done].
    + destruct (check_writable_probe _ _ E) as (st1' & Hc' & Hp1 & Hk1).
      rewrite Hc' in Hc. injection Hc as <- <-.
      destruct (IH _ _ _ Hr) as (new & Hp & Hnew & Hfirst).
      assert (Hcc : cached st1' c
                    = Some (succeeded (w c (length (probes st))))).
      { rewrite Hk1. by rewrite decide_True. }
      exists (c :: new). split; [by rewrite Hp, Hp1, <- app_assoc|]. split.
      * intros t. rewrite elem_of_cons, Hnew, Hk1, elem_of_cons.
        destruct (decide (t = c)) as [->|Hne].
        -- split; [intros _; split; [by left | done] | intros _; by left].
        -- split.
           ++ intros [?|[Hin Ht]]; [done|]. split; [by right | done].
           ++ intros [[?|Hin] Ht]; [done|]. right. by split.
      * intros [|m] t Hm; cbn in Hm.
        -- injection Hm as <-. exists 0%nat. rewrite Nat.add_0_r.
           split; [done|]. split; [intros k Hlt; lia|]. split; [done|].
           intros [|j] Hlt Hl; [lia|]. cbn in *.
           by destruct (run_cached _ _ _ _ _ _ Hcc Hr) as [_ ->].
        -- destruct (Hfirst m t Hm) as (i & Hi & Hk & Ho & Hj).
           assert (Hlen : (length (probes st1') + m
                           = length (probes st) + S m)%nat).
           { rewrite Hp1, length_app. cbn. lia. }
           rewrite Hlen in Ho, Hj.
           assert (Hct : c <> t).
           { intros ->. apply list_elem_of_lookup_2, Hnew in Hm as [_ Hm].
             congruence. }
           exists (S i). split; [done|]. split; [|split; [done|]].
           ++ intros [|k] Hlt; cbn; [congruence | apply Hk; lia].
           ++ intros [|j] Hlt Hl; [lia|]. apply Hj; [lia | done].
Qed.

(** C8: in one run, whatever the calls and whatever the probes do, no
    target is really probed twice, and the targets probed are those that
    were checked.  The probe of a target is made by the first call on it,
    which answers with the outcome of the probe; every later call on the
    target returns the cached outcome of that probe: the empty list when it
    succeeded, one diagnostic string when it failed. *)
Theorem one_probe_per_target (calls : list target) :
  forall outs st, run w calls initial = (outs, st) ->
  NoDup (probes st)
  /\ (forall t, t ∈ probes st <-> t ∈ calls)
  /\ (forall n t, probes st !! n = Some t ->
        exists i,
          calls !! i = Some t
          /\ (forall k, (k < i)%nat -> calls !! k <> Some t)
          /\ outs !! i = Some (probe_answer t (w t n))
          /\ forall j, (i < j)%nat -> calls !! j = Some t ->
               outs !! j = Some (cached_answer t (succeeded (w t n))))
  /\ forall t, cached_answer t true = []
               /\ length (cached_answer t false) = 1%nat.
Proof.
  intros outs st Hrun.
  assert (Hinit : consistent initial).
  { split; [apply NoDup_nil_2|]. intros t. split.
    - intros H. by apply elem_of_nil in H.
    - destruct t; cbn; unfold is_folder_success, is_glacier_success; cbn;
        rewrite lookup_empty; by intros [? ?]. }
  assert (Hnone : forall t, cached initial t = None).
  { intros t. destruct t; cbn; unfold is_folder_success, is_glacier_success;
      cbn; by rewrite lookup_empty. }
  destruct (run_consistent _ _ _ _ Hinit Hrun) as [[Hnd _] _].
  destruct (run_probes _ _ _ _ Hrun) as (new & Hp & Hnew & Hfirst).
  cbn in Hp. subst new. split; [done|]. split; [|split].
  - intros t. rewrite Hnew. split; [by intros [? _] | by split].
  - intros n t Hn. exact (Hfirst n t Hn).
  - intros t. by destruct t.
Qed.

End WriteTestFacts.

Lemma one_probe_per_target_witness :
  let w : WriteTest.world :=
    fun t _ => match t with
               | WriteTest.Folder _ => None
               | WriteTest.Vault _ => Some "denied"%string
               end in
  let calls := [WriteTest.Folder "/backup"; WriteTest.Vault "eu:v";
                WriteTest.Folder "/backup"; WriteTest.Vault "eu:v"]%string in
  let r := WriteTest.run w calls WriteTest.initial in
  NoDup (WriteTest.probes (snd r))
  /\ (forall t, t ∈ WriteTest.probes (snd r) <-> t ∈ calls)
  /\ (forall n t, WriteTest.probes (snd r) !! n = Some t ->
        exists i,
          calls !! i = Some t
          /\ (forall k, (k < i)%nat -> calls !! k <> Some t)
          /\ fst r !! i = Some (WriteTest.probe_answer t (w t n))
          /\ forall j, (i < j)%nat -> calls !! j = Some t ->
               fst r !! j
               = Some (WriteTest.cached_answer t
                         (WriteTest.succeeded (w t n))))
  /\ forall t, WriteTest.cached_answer t true = []
               /\ length (WriteTest.cached_answer t false) = 1%nat.
Proof.
  intros w calls r.
  apply (one_probe_per_target w calls (fst r) (snd r)).
  vm_compute. reflexivity.
Defined.

(** ** Actions: saving, archive names, target selection *)
Section ActionFacts.
Import PyStr Calendar Retention Actions.
Local Open Scope string_scope.
Local Open Scope list_scope.

(** *** [run_backup] *)

Lemma save_loop_all (w : world) now : forall storages i attempted,
  (forall s, s ∈ storages -> returns (should_save (freq s) now)) ->
  (forall j s, storages !! j = Some s -> due now s = true ->
               save w (i + j) s = None) ->
  save_loop w now i storages attempted
  = (attempted ++ List.filter (due now) storages, Ok tt).
Proof.
  induction storages as [|s rest IH]; intros i attempted Hret Hsave; cbn.
  - by rewrite app_nil_r.
  - assert (Hrest : forall j s', rest !! j = Some s' -> due now s' = true ->
                                 save w (S i + j) s' = None).
    { intros j s' Hj Hd. replace (S i + j)%nat with (i + S j)%nat by lia.
      by apply Hsave. }
    assert (Hret' : forall s', s' ∈ rest ->
                               returns (should_save (freq s') now))
      by (intros s' Hin; apply Hret; by right).
    destruct (Hret s ltac:(by left)) as [b Hb].
    unfold due at 1. rewrite Hb. destruct b.
    + assert (H0 : save w i s = None).
      { rewrite <- (Nat.add_0_r i). apply Hsave; [done|].
        unfold due; by rewrite Hb. }
      rewrite H0, IH by done. by rewrite <- app_assoc.
    + by rewrite IH.
Qed.

Lemma save_loop_first_failure (w : world) now s post e :
  forall pre i attempted,
  (forall s', s' ∈ pre -> returns (should_save (freq s') now)) ->
  (forall j s', pre !! j = Some s' -> due now s' = true ->
                save w (i + j) s' = None) ->
  due now s = true -> save w (i + length pre) s = Some e ->
  save_loop w now i (pre ++ s :: post) attempted
  = (attempted ++ List.filter (due now) pre ++ [s], Raise e).
Proof.
  induction pre as [|s0 pre IH]; intros i attempted Hret Hsave Hdue Hfail; cbn.
  - unfold due in Hdue. destruct (should_save (freq s) now) as [[|]|]; try done.
    cbn in Hfail. by rewrite Nat.add_0_r in Hfail; rewrite Hfail.
  - assert (Hrest : forall j s', pre !! j = Some s' -> due now s' = true ->
                                 save w (S i + j) s' = None).
    { intros j s' Hj Hd. replace (S i + j)%nat with (i + S j)%nat by lia.
      by apply Hsave. }
    assert (Hret' : forall s', s' ∈ pre ->
                               returns (should_save (freq s') now))
      by (intros s' Hin; apply Hret; by right).
    assert (Hfail' : save w (S i + length pre) s = Some e)
      by (cbn in Hfail; by replace (S i + length pre)%nat
                             with (i + S (length pre))%nat by lia).
    destruct (Hret s0 ltac:(by left)) as [b Hb].
    unfold due at 1. rewrite Hb. destruct b.
    + assert (H0 : save w i s0 = None).
      { rewrite <- (Nat.add_0_r i). apply Hsave; [done|].
        unfold due; by rewrite Hb. }
      rewrite H0, IH by done. by rewrite <- app_assoc.
    + by rewrite IH.
Qed.

(** C3, the claim as stated fails: with two storages that are both due, the
    failure of the first [save] leaves the second one without attempt. *)
Lemma run_backup_skips_after_failure :
  stage first_save_fails www_action = None
  /\ storage_list www_action = [store_a; store_b]
  /\ due (mkdate 2024 1 2) store_a = true
  /\ due (mkdate 2024 1 2) store_b = true
  /\ run_backup first_save_fails (mkdate 2024 1 2) www_action
     = ([store_a], Raise (RuntimeError "cp")).
Proof. repeat split. Qed.

(** C3 as the code has it: after a successful staging, [run_backup] calls
    [save] on the storages that are due, in the order of the list; when no
    [save] fails it reaches them all and returns; the first [save] that
    fails ends the loop, its exception goes to the caller at once and no
    later storage is attempted. *)
Theorem run_backup_until_first_failure (w : world) (now : date) (a : Action) :
  stage w a = None ->
  (forall s, s ∈ storage_list a -> returns (should_save (freq s) now)) ->
  ((forall i s, storage_list a !! i = Some s -> due now s = true ->
                save w i s = None) ->
   run_backup w now a = (List.filter (due now) (storage_list a), Ok tt))
  /\ (forall pre s post e,
        storage_list a = pre ++ s :: post ->
        (forall i s', pre !! i = Some s' -> due now s' = true ->
                      save w i s' = None) ->
        due now s = true -> save w (length pre) s = Some e ->
        run_backup w now a = (List.filter (due now) pre ++ [s], Raise e)).
Proof.
  intros Hstage Hret. unfold run_backup. rewrite Hstage. split.
  - intros Hsave. by rewrite save_loop_all.
  - intros pre s post e Hl Hsave Hdue Hfail. rewrite Hl.
    rewrite (save_loop_first_failure w now s post e pre 0 []); try done.
    intros s' Hin. apply Hret. rewrite Hl. apply elem_of_app. by left.
Qed.

Lemma run_backup_until_first_failure_witness :
  run_backup first_save_fails (mkdate 2024 1 2) www_action
  = (List.filter (due (mkdate 2024 1 2)) [] ++ [store_a],
     Raise (RuntimeError "cp")).
Proof.
  refine (proj2 (run_backup_until_first_failure
                   first_save_fails (mkdate 2024 1 2) www_action eq_refl _)
                [] store_a [store_b] (RuntimeError "cp")
                eq_refl _ eq_refl eq_refl).
  - intros s Hin. exists true.
    apply elem_of_cons in Hin as [->|Hin]; [reflexivity|].
    apply elem_of_cons in Hin as [->|Hin]; [reflexivity|].
    by apply elem_of_nil in Hin.
  - intros i s' Hi. discriminate Hi.
Defined.

(** *** The check of the archive names *)

Lemma check_against_ok p a others :
  check_against p a others = Ok tt
  <-> forall o, o ∈ others -> id a <> id o -> full_name a <> full_name o.
Proof.
  induction others as [|o others IH]; cbn.
  - split; [|done]. intros _ o Ho. by apply elem_of_nil in Ho.
  - destruct (Nat.eqb_spec (id a) (id o)) as [Eid|Nid].
    + rewrite IH. split.
      * intros H o' Ho'. apply elem_of_cons in Ho' as [->|Ho']; [done|].
        by apply H.
      * intros H o' Ho'. apply H. by right.
    + destruct (String.eqb_spec (full_name a) (full_name o)) as [En|Nn].
      * split.
        -- destruct (to_str p a), (to_str p o); cbn; discriminate.
        -- intros H. exfalso. by apply (H o); [left|..].
      * rewrite IH. split.
        -- intros H o' Ho'. apply elem_of_cons in Ho' as [->|Ho']; [done|].
           by apply H.
        -- intros H o' Ho'. apply H. by right.
Qed.

Lemma check_each_ok p all actions :
  check_each p all actions = Ok tt
  <-> forall a, a ∈ actions -> check_against p a all = Ok tt.
Proof.
  induction actions as [|a actions IH]; cbn.
  - split; [|done]. intros _ a Ha. by apply elem_of_nil in Ha.
  - destruct (check_against p a all) as [[]|e] eqn:E; cbn.
    + rewrite IH. split.
      * intros H a' Ha'. apply elem_of_cons in Ha' as [->|Ha']; [done|].
        by apply H.
      * intros H a' Ha'. apply H. by right.
    + split; [done|]. intros H. specialize (H a ltac:(by left)).
      congruence.
Qed.

(** The check passes exactly when no two distinct action objects share a
    full name. *)
Lemma check_full_names_ok p actions :
  check_full_names p actions = Ok tt
  <-> forall a b, a ∈ actions -> b ∈ actions -> id a <> id b ->
                  full_name a <> full_name b.
Proof.
  unfold check_full_names. rewrite check_each_ok. split.
  - intros H a b Ha Hb. by apply (check_against_ok p a actions); [apply H|].
  - intros H a Ha. apply check_against_ok. intros o Ho. by apply H.
Qed.

Lemma distinct_names actions :
  NoDup (map id actions) ->
  (forall a b, a ∈ actions -> b ∈ actions -> id a <> id b ->
               full_name a <> full_name b) ->
  NoDup (map full_name actions).
Proof.
  induction actions as [|a actions IH]; cbn; intros Hid H.
  - apply NoDup_nil_2.
  - apply NoDup_cons in Hid as [Ha Hid]. apply NoDup_cons. split.
    + intros Hin. apply list_elem_of_fmap in Hin as (b & Hn & Hb).
      apply (H a b); [by left | by right | | done].
      intros Hab. apply Ha. apply list_elem_of_fmap. by exists b.
    + apply IH; [done|]. intros x y Hx Hy. apply H; by right.
Qed.

(** X30: No list of actions with a repeated full name leaves the resolver. *)
Lemma load_conf_distinct_names {R} p built (reports : result R) actions r :
  load_conf p built reports = Ok (actions, r) ->
  NoDup (map id actions) -> NoDup (map full_name actions).
Proof.
  unfold load_conf. intros H Hid.
  destruct built as [l|]; [cbn in H|done].
  destruct (check_full_names p l) as [[]|] eqn:E; [cbn in H|done].
  destruct reports as [r'|]; [cbn in H|done].
  injection H as -> ->. apply distinct_names; [done|].
  by apply (check_full_names_ok p).
Qed.

(** When every action can be printed, a repeated full name raises
    [ConfigError]. *)
Lemma check_against_config_error p a others o :
  o ∈ others -> id a <> id o -> full_name a = full_name o ->
  (forall x, x = a \/ x ∈ others -> returns (to_str p x)) ->
  exists msg, check_against p a others = Raise (ConfigError msg).
Proof.
  intros Ho Hid Hn Hstr. induction others as [|o' others IH];
    [by apply elem_of_nil in Ho|]. cbn.
  assert (Hrest : o ∈ others -> exists msg,
             check_against p a others = Raise (ConfigError msg)).
  { intros Hin. apply IH; [done|]. intros x [->|Hx]; apply Hstr;
      [by left | right; by right]. }
  destruct (Nat.eqb_spec (id a) (id o')) as [Eid|Nid].
  - apply elem_of_cons in Ho as [->|Ho]; [done | by apply Hrest].
  - destruct (String.eqb_spec (full_name a) (full_name o')) as [En|Nn].
    + destruct (Hstr a ltac:(by left)) as [s1 ->].
      destruct (Hstr o' ltac:(right; by left)) as [s2 ->]. cbn. by eexists.
    + apply elem_of_cons in Ho as [->|Ho]; [done | by apply Hrest].
Qed.

Example www_twice_staged_config_error :
  exists msg,
    check_full_names plain_printer www_twice_staged = Raise (ConfigError msg).
Proof. eexists. reflexivity. Qed.

(** C5 where it fails: two actions [web1_www] from a configuration without
    [dest_folder].  The check finds the repeated name, and building the
    message of the [ConfigError] raises [TypeError] instead. *)
Theorem load_conf_repeated_name_type_error (p : printer) :
  map full_name www_twice = ["web1_www"; "web1_www"]
  /\ NoDup (map id www_twice)
  /\ check_full_names p www_twice = Raise TypeError
  /\ forall R (reports : result R),
       load_conf p (Ok www_twice) reports = Raise TypeError.
Proof.
  repeat split.
  cbn. apply NoDup_cons. split; [|apply NoDup_singleton].
  intros H. apply list_elem_of_singleton in H. discriminate H.
Qed.

(** *** Target selection *)

Lemma append_nil_l s : "" +:+ s = s.
Proof. reflexivity. Qed.

Lemma append_cons c s1 s2 : String c s1 +:+ s2 = String c (s1 +:+ s2).
Proof. reflexivity. Qed.

Lemma contains_append c p1 p2 :
  contains c (p1 +:+ String c p2) = true.
Proof.
  induction p1 as [|d p1 IH]; rewrite ?append_nil_l, ?append_cons;
    cbn [contains].
  - by rewrite Ascii.eqb_refl.
  - rewrite IH. apply orb_true_r.
Qed.

Lemma split_first_append sep p1 p2 :
  contains sep p1 = false ->
  split_first sep (p1 +:+ String sep p2) = Some (p1, p2).
Proof.
  induction p1 as [|d p1 IH]; rewrite ?append_nil_l, ?append_cons;
    cbn [contains split_first]; intros H.
  - by rewrite Ascii.eqb_refl.
  - apply orb_false_iff in H as [Hd H]. rewrite Hd, IH; done.
Qed.

Lemma split_first_without sep s :
  contains sep s = false -> split_first sep s = None.
Proof.
  induction s as [|d s IH]; cbn [contains split_first]; intros H; [done|].
  apply orb_false_iff in H as [Hd H]. by rewrite Hd, IH.
Qed.

Lemma split_one_colon p1 p2 :
  contains ":" p1 = false -> contains ":" p2 = false ->
  split ":" 2 (p1 +:+ ":" +:+ p2) = [p1; p2].
Proof.
  intros H1 H2. cbn [split]. change (":" +:+ p2) with (String ":" p2).
  rewrite split_first_append by done. by rewrite split_first_without.
Qed.

Lemma matches_pair_spec fnmatch p1 p2 a :
  matches_pair fnmatch p1 p2 a = selected_by_spec fnmatch p1 p2 a.
Proof.
  unfold matches_pair, matches_second, selected_by_spec.
  destruct (fnmatch (server_name a) p1), (fnmatch (prefix a) p1),
    (fnmatch (name a) p2), (fnmatch (full_name a) p2); cbn; try done;
    destruct (variant a); try done; by destruct (fnmatch _ p2).
Qed.

(** C7, the claim as stated fails: when no action qualifies, the selector
    does not return the empty selection, it raises. *)
Lemma glob_target_none_raises :
  List.filter (selected_by_spec fnmatch_plain "db*" "www") db_actions = []
  /\ glob_target fnmatch_plain db_actions "db*:www"
     = Raise (RuntimeError "Unknown target db*:www").
Proof. split; vm_compute; reflexivity. Qed.

(** An identifier with a second colon is not split in two: the unpacking
    raises. *)
Example glob_target_two_colons :
  glob_target fnmatch_plain db_actions "web1:db:x" = Raise ValueError.
Proof. vm_compute. reflexivity. Qed.

(** C7 as the code has it: for an identifier [pattern1:pattern2] with one
    colon, the selector returns the qualifying actions, in the order of the
    registry, when there is one at least, and raises [RuntimeError] with
    ["Unknown target"] and the identifier when there is none. *)
Theorem glob_target_pair (fnmatch : string -> string -> bool)
    (actions : list Action) (pattern1 pattern2 : string) :
  contains ":" pattern1 = false -> contains ":" pattern2 = false ->
  glob_target fnmatch actions (pattern1 +:+ ":" +:+ pattern2)
  = match List.filter (selected_by_spec fnmatch pattern1 pattern2) actions with
    | [] => Raise (RuntimeError ("Unknown target "
                                 +:+ pattern1 +:+ ":" +:+ pattern2))
    | selection => Ok selection
    end.
Proof.
  intros H1 H2. unfold glob_target.
  change (":" +:+ pattern2) with (String ":" pattern2).
  rewrite contains_append.
  change (String ":" pattern2) with (":" +:+ pattern2).
  rewrite split_one_colon by done. cbn [unpack2 Py.bind].
  rewrite (List.filter_ext _ _ (matches_pair_spec fnmatch pattern1 pattern2)).
  by destruct (List.filter _ actions).
Qed.

Lemma glob_target_pair_witness :
  glob_target fnmatch_plain db_actions "web*:db"
  = Ok [mkAction 0 "web1" "web1" "db" (Some "/staging") None None
                 (DbAction MySql (Some "root") "shop" 3306) []].
Proof.
  exact (glob_target_pair fnmatch_plain db_actions "web*" "db"
                          eq_refl eq_refl).
Defined.

End ActionFacts.

(** ** Retention: what each tier keeps *)
Section RetentionWindows.
Import Calendar Retention.
Local Open Scope Z_scope.

(** A policy with every tier at NONE keeps no date, whatever the reference
    date, and never raises. *)
Theorem should_keep_empty (f : BackupFrequency) (now d : date) :
  is_empty f = true -> should_keep f now d = Ok false.
Proof.
  destruct f as [dy wk mo yr]. unfold is_empty, NO_VALUE. cbn.
  intros H. repeat (apply andb_true_iff in H as [? H]).
  repeat match goal with E : (_ =? 0) = true |- _ => apply Z.eqb_eq in E end.
  subst. rewrite (should_keep_day_only 0) by done. done.
Qed.

Lemma should_keep_empty_witness :
  should_keep (mkfreq 0 0 0 0) (mkdate 2024 1 1) (mkdate 2024 1 1) = Ok false.
Proof.
  exact (should_keep_empty (mkfreq 0 0 0 0) (mkdate 2024 1 1)
                           (mkdate 2024 1 1) eq_refl).
Defined.

(** X1: A policy without numeric tier ([need_deletion] is false) never raises
    and decides on the date alone, not on the reference date. *)
Theorem should_keep_without_numeric_tier (f : BackupFrequency) (now d : date) :
  need_deletion f = false ->
  should_keep f now d
  = Ok ((_day f =? ALL_VALUE)
        || (isoweekday d =? 1) && (_week f =? ALL_VALUE)
        || (day d =? 1)
           && ((_month f =? ALL_VALUE)
               || (month d =? 1) && (_year f =? ALL_VALUE))).
Proof.
  destruct f as [dy wk mo yr]. unfold need_deletion, ALL_VALUE, NO_VALUE. cbn.
  intros H. repeat (apply orb_false_iff in H as [? H]).
  repeat match goal with
         | E : negb _ = false |- _ => apply negb_false_iff, orb_true_iff in E
         end.
  unfold should_keep, keep_week, keep_month, keep_year, ALL_VALUE, NO_VALUE.
  cbn [_day _week _month _year].
  repeat match goal with
         | E : (?x =? -1) = true \/ (?x =? 0) = true |- _ =>
             destruct E as [E|E]; apply Z.eqb_eq in E; subst x
         end;
    cbn; try done;
    destruct (isoweekday d =? 1); cbn; try done;
    destruct (day d =? 1); cbn; try done;
    destruct (month d =? 1); cbn; done.
Qed.

Lemma should_keep_without_numeric_tier_witness :
  should_keep (mkfreq 0 (-1) 0 0) (mkdate 2024 1 2) (mkdate 2023 12 25)
  = Ok true.
Proof.
  exact (should_keep_without_numeric_tier
           (mkfreq 0 (-1) 0 0) (mkdate 2024 1 2) (mkdate 2023 12 25) eq_refl).
Defined.

Lemma isoweekday_monday d : isoweekday d = 1 <-> toordinal d mod 7 = 1.
Proof.
  unfold isoweekday. destruct (Z.eqb_spec (toordinal d mod 7) 0) as [E|E].
  - rewrite E. split; discriminate.
  - done.
Qed.

Lemma keep_week_window (f : BackupFrequency) (now d : date) :
  valid now = true -> valid d = true ->
  1 <= _week f -> 7 * (_week f - 1) < toordinal now ->
  isoweekday d = 1 ->
  keep_week f now d = Ok (toordinal now - toordinal d <? 7 * _week f).
Proof.
  intros Hnow Hd HN Hc Hmon. unfold keep_week, ALL_VALUE, NO_VALUE.
  rewrite Hmon. cbn [Z.eqb Pos.eqb].
  destruct (Z.eqb_spec (_week f) (-1)); [lia|].
  destruct (Z.eqb_spec (_week f) 0); [lia|]. cbn [negb].
  pose proof (toordinal_range now Hnow) as Hr. unfold MAXORDINAL in Hr.
  assert (Hiso : 1 <= isoweekday now <= 7
                 /\ (toordinal now - isoweekday now) mod 7 = 0).
  { unfold isoweekday.
    destruct (Z.eqb_spec (toordinal now mod 7) 0); split;
      Z.div_mod_to_equations; lia. }
  destruct Hiso as [Hi1 Hi2].
  set (delta := isoweekday now + 7 * _week f - 8).
  assert (Hdelta : 7 * (_week f - 1) <= delta < 7 * _week f)
    by (unfold delta; lia).
  unfold timedelta.
  destruct (Z.leb_spec (-999999999) delta); [|lia].
  destruct (Z.leb_spec delta 999999999); [|lia]. cbn [andb Py.bind].
  (* the cutoff would leave the calendar only if the reference date were in
     the first week of year 1 *)
  destruct (date_sub now delta) as [c|e] eqn:Hsub.
  - destruct (date_sub_inv _ _ _ Hnow Hsub) as [Hv Ho]. cbn [Py.bind].
    rewrite date_ge_toordinal by done. f_equal.
    apply isoweekday_monday in Hmon.
    assert (Hcm : toordinal c mod 7 = 1)
      by (rewrite Ho; unfold delta; Z.div_mod_to_equations; lia).
    destruct (Z.leb_spec (toordinal c) (toordinal d));
      destruct (Z.ltb_spec (toordinal now - toordinal d) (7 * _week f));
      try done; exfalso; Z.div_mod_to_equations; lia.
  - exfalso. unfold date_sub, MAXORDINAL in Hsub.
    destruct (Z.ltb_spec 0 (toordinal now - delta)) as [|Hneg].
    + destruct (Z.leb_spec (toordinal now - delta) 3652059); [done | lia].
    + (* toordinal now <= delta, with both congruent modulo 7 *)
      unfold delta in *. Z.div_mod_to_equations. lia.
Qed.

Lemma keep_month_window (f : BackupFrequency) (now d : date) :
  valid now = true -> valid d = true ->
  1 <= _month f -> 1 <= year now + (month now - _month f) / 12 ->
  day d = 1 ->
  keep_month f now d
  = Ok ((12 * year now + month now) - (12 * year d + month d) <? _month f).
Proof.
  intros Hnow Hd HN Hc Hday. unfold keep_month, ALL_VALUE, NO_VALUE.
  destruct (valid_inv now Hnow) as (Hy & Hmo & _).
  destruct (valid_inv d Hd) as (Hyd & Hmd & _).
  destruct (Z.eqb_spec (_month f) (-1)); [lia|].
  destruct (Z.eqb_spec (_month f) 0); [lia|]. cbn [negb].
  set (q := (month now - _month f) / 12) in *.
  set (r := (month now - _month f) mod 12).
  assert (Hqr : month now - _month f = 12 * q + r /\ 0 <= r < 12)
    by (unfold q, r; split;
        [apply Z.div_mod; lia | apply Z.mod_pos_bound; lia]).
  clearbody q r.
  assert (Hvalid : valid_ymd (year now + q) (r + 1) 1 = true).
  { unfold valid_ymd, MINYEAR, MAXYEAR.
    repeat (apply andb_true_iff; split); try (apply Z.leb_le; lia).
    apply Z.leb_le. unfold days_in_month.
    destruct ((r + 1 =? 2) && is_leap (year now + q)); [lia|].
    destruct (month_cases (r + 1) ltac:(lia))
      as [->|[->|[->|[->|[->|[->|[->|[->|[->|[->|[->| ->]]]]]]]]]]];
      cbn; lia. }
  unfold date_new. rewrite Hvalid. cbn [Py.bind]. f_equal.
  unfold date_ge. cbn [year month day]. rewrite Hday.
  destruct (Z.eqb_spec (year d) (year now + q));
    [destruct (Z.eqb_spec (month d) (r + 1))|];
    repeat match goal with
           | |- context [?a <? ?b] => destruct (Z.ltb_spec a b)
           | |- context [?a <=? ?b] => destruct (Z.leb_spec a b)
           end; try done; lia.
Qed.

Lemma keep_year_window (f : BackupFrequency) (now d : date) :
  valid now = true -> valid d = true ->
  1 <= _year f <= year now -> day d = 1 -> month d = 1 ->
  keep_year f now d = Ok (year now - year d <? _year f).
Proof.
  intros Hnow Hd HN Hday Hmonth. unfold keep_year, ALL_VALUE, NO_VALUE.
  destruct (valid_inv now Hnow) as (Hy & _ & _).
  rewrite Hmonth. cbn [Z.eqb Pos.eqb].
  destruct (Z.eqb_spec (_year f) (-1)); [lia|].
  destruct (Z.eqb_spec (_year f) 0); [lia|]. cbn [negb].
  assert (Hvalid : valid_ymd (year now - _year f + 1) 1 1 = true).
  { unfold valid_ymd, MINYEAR, MAXYEAR.
    repeat (apply andb_true_iff; split); apply Z.leb_le; cbn; lia. }
  unfold date_new. rewrite Hvalid. cbn [Py.bind]. f_equal.
  unfold date_ge. cbn [year month day]. rewrite Hday, Hmonth.
  destruct (Z.eqb_spec (year d) (year now - _year f + 1)); cbn;
    repeat match goal with
           | |- context [?a <? ?b] => destruct (Z.ltb_spec a b)
           end; try done; lia.
Qed.

(** X2: With the other tiers at NONE, the week tier at N >= 1 keeps the Mondays
    of the N most recent weeks, the week of the reference date included: a
    date is kept exactly when it is a Monday less than 7 N days before the
    reference date. *)
Theorem week_tier_window (N : Z) (now d : date) :
  valid now = true -> valid d = true ->
  1 <= N -> 7 * (N - 1) < toordinal now ->
  should_keep (mkfreq NO_VALUE N NO_VALUE NO_VALUE) now d
  = Ok ((isoweekday d =? 1) && (toordinal now - toordinal d <? 7 * N)).
Proof.
  intros Hnow Hd HN Hc. unfold should_keep. cbn [_day]. cbn [Z.eqb negb andb].
  destruct (Z.eqb_spec (isoweekday d) 1) as [Hmon|Hmon].
  - rewrite (keep_week_window _ now d Hnow Hd) by done. cbn [_week Py.bind andb].
    destruct (toordinal now - toordinal d <? 7 * N); [done|].
    unfold keep_month, keep_year. cbn.
    destruct (day d =? 1); [|done]. by destruct (month d =? 1).
  - unfold keep_week, keep_month, keep_year.
    destruct (Z.eqb_spec (isoweekday d) 1); [done|]. cbn.
    destruct (day d =? 1); [|done]. by destruct (month d =? 1).
Qed.

Lemma week_tier_window_witness :
  should_keep (mkfreq NO_VALUE 2 NO_VALUE NO_VALUE)
              (mkdate 2024 1 10) (mkdate 2024 1 1) = Ok true.
Proof.
  exact (week_tier_window 2 (mkdate 2024 1 10) (mkdate 2024 1 1)
           eq_refl eq_refl ltac:(lia) ltac:(vm_compute; reflexivity)).
Defined.

(** X3: With the other tiers at NONE, the month tier at N >= 1 keeps the first
    days of the N most recent months, the month of the reference date
    included, across year boundaries. *)
Theorem month_tier_window (N : Z) (now d : date) :
  valid now = true -> valid d = true ->
  1 <= N -> 1 <= year now + (month now - N) / 12 ->
  should_keep (mkfreq NO_VALUE NO_VALUE N NO_VALUE) now d
  = Ok ((day d =? 1)
        && ((12 * year now + month now) - (12 * year d + month d) <? N)).
Proof.
  intros Hnow Hd HN Hc. unfold should_keep. cbn [_day]. cbn [Z.eqb negb andb].
  assert (Hw : keep_week (mkfreq NO_VALUE NO_VALUE N NO_VALUE) now d = Ok false)
    by (unfold keep_week; cbn; by destruct (isoweekday d =? 1)).
  rewrite Hw. cbn [Py.bind].
  destruct (Z.eqb_spec (day d) 1) as [Hday|Hday]; [|done].
  rewrite (keep_month_window _ now d Hnow Hd) by done. cbn [_month Py.bind andb].
  destruct (_ <? N); [done|]. unfold keep_year. cbn.
  by destruct (month d =? 1).
Qed.

Lemma month_tier_window_witness :
  should_keep (mkfreq NO_VALUE NO_VALUE 3 NO_VALUE)
              (mkdate 2024 1 10) (mkdate 2023 11 1) = Ok true.
Proof.
  exact (month_tier_window 3 (mkdate 2024 1 10) (mkdate 2023 11 1)
           eq_refl eq_refl ltac:(lia) ltac:(vm_compute; discriminate)).
Defined.

(** X4: With the other tiers at NONE, the year tier at N >= 1 keeps the first of
    January of the N most recent years, the year of the reference date
    included. *)
Theorem year_tier_window (N : Z) (now d : date) :
  valid now = true -> valid d = true ->
  1 <= N <= year now ->
  should_keep (mkfreq NO_VALUE NO_VALUE NO_VALUE N) now d
  = Ok ((day d =? 1) && (month d =? 1) && (year now - year d <? N)).
Proof.
  intros Hnow Hd HN. unfold should_keep. cbn [_day]. cbn [Z.eqb negb andb].
  assert (Hw : keep_week (mkfreq NO_VALUE NO_VALUE NO_VALUE N) now d = Ok false)
    by (unfold keep_week; cbn; by destruct (isoweekday d =? 1)).
  rewrite Hw. cbn [Py.bind].
  destruct (Z.eqb_spec (day d) 1) as [Hday|Hday]; [|done].
  assert (Hm : keep_month (mkfreq NO_VALUE NO_VALUE NO_VALUE N) now d = Ok false)
    by done.
  rewrite Hm. cbn [Py.bind andb].
  destruct (Z.eqb_spec (month d) 1) as [Hmonth|Hmonth].
  - by rewrite (keep_year_window _ now d Hnow Hd).
  - unfold keep_year. by destruct (Z.eqb_spec (month d) 1).
Qed.

Lemma year_tier_window_witness :
  should_keep (mkfreq NO_VALUE NO_VALUE NO_VALUE 2)
              (mkdate 2024 6 10) (mkdate 2023 1 1) = Ok true.
Proof.
  exact (year_tier_window 2 (mkdate 2024 6 10) (mkdate 2023 1 1)
           eq_refl eq_refl ltac:(cbn; lia)).
Defined.

End RetentionWindows.

(** ** Reports: counters *)
Section ReportStatsFacts.
Import Report ReportStats.
Local Open Scope string_scope.
Local Open Scope list_scope.

Lemma total_insert (d : gmap string (list string)) server l :
  d !! server = None -> total (<[server := l]> d) = total d + length l.
Proof.
  intros H. unfold total. rewrite map_fold_insert_L; [done| |done].
  intros. lia.
Qed.

Lemma total_append_to (server details : string) d :
  total (append_to server details d) = S (total d).
Proof.
  unfold append_to. destruct (d !! server) as [l|] eqn:E.
  - assert (Hd : d = <[server := l]> (delete server d))
      by (by rewrite insert_delete_eq, insert_id).
    rewrite Hd at 1. rewrite alter_insert_eq.
    rewrite Hd at 2. rewrite !total_insert by apply lookup_delete_eq.
    rewrite length_app. cbn. lia.
  - rewrite alter_insert_eq. cbn. rewrite total_insert by done. cbn. lia.
Qed.

Lemma counts_of_calls (calls : list call) :
  issue_count (after calls) = length (List.filter is_issue calls)
  /\ warning_count (after calls) = length (List.filter is_warning calls)
  /\ total (_server_success (after calls))
     = length (List.filter is_success_call calls).
Proof.
  unfold after, issue_count, warning_count.
  induction calls as [|c calls IH] using rev_ind; [done|].
  rewrite foldl_app, !List.filter_app, !length_app. cbn [foldl].
  destruct IH as (Hi & Hw & Hs).
  destruct c; cbn; rewrite ?total_append_to; lia.
Qed.

(** X5: [issue_count] and [warning_count] are the numbers of [add_issue] and of
    [add_warning] calls made on the report. *)
Theorem counts_after (calls : list call) :
  issue_count (after calls) = length (List.filter is_issue calls)
  /\ warning_count (after calls) = length (List.filter is_warning calls)
  /\ total (_server_success (after calls))
     = length (List.filter is_success_call calls).
Proof. exact (counts_of_calls calls). Qed.

Lemma no_message_total d : no_message d = (total d =? 0)%nat.
Proof.
  unfold no_message, total.
  induction d as [|server l d Hnone Hfirst IH] using map_first_key_ind.
  - by rewrite !map_fold_empty.
  - rewrite !(map_fold_insert_first_key _ _ _ _ _ Hnone Hfirst), IH.
    destruct l; cbn.
    + by rewrite Nat.add_0_r.
    + symmetry. apply Nat.eqb_neq. lia.
Qed.

Lemma is_empty_of_calls (calls : list call) :
  is_empty (after calls) = true <-> calls = [].
Proof.
  unfold is_empty. rewrite !no_message_total.
  destruct (counts_of_calls calls) as (Hi & Hw & Hs).
  unfold issue_count, warning_count in *. rewrite Hi, Hw, Hs.
  split.
  - intros H. apply andb_true_iff in H as [H Hs'].
    apply andb_true_iff in H as [Hi' Hw'].
    apply Nat.eqb_eq in Hi', Hw', Hs'.
    destruct calls as [|c calls]; [done|]. exfalso.
    destruct c; cbn in *; lia.
  - by intros ->.
Qed.

(** X6: A report is empty exactly when no call was made on it. *)
Theorem is_empty_after (calls : list call) :
  is_empty (after calls) = true <-> calls = [].
Proof. exact (is_empty_of_calls calls). Qed.

Lemma is_success_of_calls (calls : list call) :
  is_success (after calls) = true
  <-> calls <> [] /\ forall c, c ∈ calls -> is_issue c = false.
Proof.
  unfold is_success. rewrite andb_true_iff, negb_true_iff.
  destruct (counts_of_calls calls) as (Hi & _ & _). rewrite Hi.
  rewrite Nat.eqb_eq, length_zero_iff_nil.
  assert (He : is_empty (after calls) = false <-> calls <> []).
  { rewrite <- is_empty_of_calls. by destruct (is_empty (after calls)). }
  rewrite He. split; intros [Hne Hno]; (split; [done|]).
  - intros c Hc. destruct (is_issue c) eqn:E; [|done].
    assert (Hin : In c (List.filter is_issue calls))
      by (apply filter_In; split; [by apply list_elem_of_In | done]).
    rewrite Hno in Hin. destruct Hin.
  - destruct (List.filter is_issue calls) as [|c l] eqn:E; [done|].
    assert (Hin : In c (List.filter is_issue calls)) by (rewrite E; by left).
    apply filter_In in Hin as [Hin Hc].
    apply list_elem_of_In in Hin. by rewrite (Hno c Hin) in Hc.
Qed.

(** X7: A report is a success exactly when it has some entry and no issue. *)
Theorem is_success_after (calls : list call) :
  is_success (after calls) = true
  <-> calls <> [] /\ forall c, c ∈ calls -> is_issue c = false.
Proof. exact (is_success_of_calls calls). Qed.

End ReportStatsFacts.

(** ** Archive names: from the name back to the date *)
Section ArchiveNameFacts.
Import PyStr Calendar Retention Archives ArchiveName.
Local Open Scope string_scope.

Lemma digit_char_code k :
  (0 <= k <= 9)%Z -> nat_of_ascii (digit_char k) = (48 + Z.to_nat k)%nat.
Proof. intros H. unfold digit_char. apply nat_ascii_embedding. lia. Qed.

Lemma digit_char_is_digit k : (0 <= k <= 9)%Z -> is_digit (digit_char k) = true.
Proof.
  intros H. unfold is_digit. rewrite digit_char_code by done.
  apply andb_true_iff. split; apply Nat.leb_le; lia.
Qed.

Lemma is_digit_plain c :
  is_digit c = true ->
  is_space c = false /\ Ascii.eqb c "_" = false /\ Ascii.eqb c "/" = false
  /\ Ascii.eqb c newline = false
  /\ forall (A : Type) (x y z : A),
       match c with "-"%char => x | "+"%char => y | _ => z end = z.
Proof.
  destruct c as [[] [] [] [] [] [] [] []]; cbn; intros H;
    try discriminate H; repeat split.
Qed.

Lemma rstrip_digits s : all_digits s -> rstrip s = s.
Proof.
  unfold all_digits. induction s as [|c r IH]; cbn; [done|].
  intros H. apply andb_true_iff in H as [Hc Hr]. rewrite (IH Hr).
  destruct r; [|done]. by destruct (is_digit_plain c Hc) as (-> & _).
Qed.

(** [int] of a string of decimal digits is its value. *)
Lemma py_int_digits s v :
  s <> "" -> all_digits s -> digits_value 0 s = Some v -> py_int s = Ok v.
Proof.
  destruct s as [|c r]; [done|]. intros _ Hall Hv.
  pose proof (rstrip_digits _ Hall) as Hrs.
  unfold all_digits in Hall. cbn in Hall.
  apply andb_true_iff in Hall as [Hc Hr].
  destruct (is_digit_plain c Hc) as (Hsp & _ & _ & _ & Hm).
  unfold py_int. cbn [lstrip]. rewrite Hsp, Hrs.
  rewrite (Hm _ (-1, r)%Z (1, r)%Z (1, String c r)%Z), Hv.
  f_equal. lia.
Qed.

Lemma digits_value_two a b :
  (0 <= a <= 9)%Z -> (0 <= b <= 9)%Z ->
  digits_value 0 (String (digit_char a) (String (digit_char b) ""))
  = Some (10 * a + b)%Z.
Proof.
  intros Ha Hb. cbn [digits_value].
  rewrite !digit_char_is_digit, !digit_char_code by done. f_equal. lia.
Qed.

Lemma py_int_two_digits n : (0 <= n <= 99)%Z -> py_int (two_digits n) = Ok n.
Proof.
  intros Hn. unfold two_digits.
  assert (0 <= n / 10 <= 9 /\ 0 <= n mod 10 <= 9)%Z as [Ha Hb]
    by (Z.div_mod_to_equations; lia).
  apply py_int_digits; [done| |].
  - unfold all_digits. cbn. by rewrite !digit_char_is_digit.
  - rewrite digits_value_two by done. f_equal. Z.div_mod_to_equations. lia.
Qed.

Lemma py_int_four_digits n :
  (0 <= n <= 9999)%Z -> py_int (four_digits n) = Ok n.
Proof.
  intros Hn. unfold four_digits, two_digits.
  assert (0 <= n / 1000 <= 9 /\ 0 <= n / 100 mod 10 <= 9
          /\ 0 <= n mod 100 / 10 <= 9 /\ 0 <= n mod 100 mod 10 <= 9)%Z
    as (Ha & Hb & Hc & Hd) by (Z.div_mod_to_equations; lia).
  apply py_int_digits; [done| |].
  - unfold all_digits. cbn. by rewrite !digit_char_is_digit.
  - cbn [digits_value].
    rewrite !digit_char_is_digit, !digit_char_code by done. f_equal.
    Z.div_mod_to_equations. lia.
Qed.

Lemma archive_date_of_stamp (d : date) :
  valid d = true -> (1000 <= year d)%Z ->
  archive_date_of (strftime_Ymd d) = Ok d.
Proof.
  intros Hd Hy. destruct (valid_inv d Hd) as (Hyr & Hmo & Hday).
  assert (Hdim : (day d <= 31)%Z).
  { unfold days_in_month in Hday.
    destruct ((month d =? 2)%Z && is_leap (year d)); [lia|].
    destruct (month_cases (month d) Hmo)
      as [E|[E|[E|[E|[E|[E|[E|[E|[E|[E|[E|E]]]]]]]]]]];
      rewrite E in Hday; cbn in Hday; lia. }
  unfold archive_date_of.
  change (slice 0 4 (strftime_Ymd d)) with (four_digits (year d)).
  change (slice 4 6 (strftime_Ymd d)) with (two_digits (month d)).
  change (slice 6 8 (strftime_Ymd d)) with (two_digits (day d)).
  rewrite py_int_four_digits, !py_int_two_digits by lia. cbn [Py.bind].
  unfold date_new. destruct d as [y m dd]. unfold valid in Hd.
  cbn [year month day] in *. by rewrite Hd.
Qed.

(** X8: The date stamp that [_archive_name] writes is read back by the listing
    and by [should_keep] as the same date. *)
Theorem archive_date_of_strftime (d : date) :
  valid d = true -> (1000 <= year d)%Z ->
  archive_date_of (strftime_Ymd d) = Ok d.
Proof. exact (archive_date_of_stamp d). Qed.

Lemma archive_date_of_strftime_witness :
  archive_date_of (strftime_Ymd (mkdate 2024 2 29)) = Ok (mkdate 2024 2 29).
Proof.
  exact (archive_date_of_strftime (mkdate 2024 2 29) eq_refl ltac:(cbn; lia)).
Defined.

Lemma string_append_assoc a b c : (a +:+ b) +:+ c = a +:+ (b +:+ c).
Proof.
  induction a as [|x a IH]; rewrite ?append_nil_l, ?append_cons; [done|].
  by rewrite IH.
Qed.

Lemma prefix_append p s : String.prefix p (p +:+ s) = true.
Proof.
  induction p as [|x p IH]; rewrite ?append_nil_l, ?append_cons;
    [by destruct s|].
  cbn [String.prefix]. destruct (ascii_dec x x); [done | congruence].
Qed.

Lemma basename_plain s : contains "/" s = false -> basename s = s.
Proof. destruct s as [|c r]; cbn [basename]; [done|]. by intros ->. Qed.

Lemma basename_after_slash a b :
  contains "/" b = false -> basename (a +:+ String "/" b) = b.
Proof.
  intros Hb. induction a as [|c a IH]; rewrite ?append_nil_l, ?append_cons.
  - cbn [basename contains]. rewrite Ascii.eqb_refl. cbn [orb].
    by apply basename_plain.
  - cbn [basename].
    change (contains "/" (String c (a +:+ String "/" b)))
      with (Ascii.eqb c "/" || contains "/" (a +:+ String "/" b)).
    by rewrite contains_append, orb_true_r.
Qed.

(** The stamp of a date is made of eight digits. *)
Lemma strftime_digits d :
  valid d = true -> (1000 <= year d)%Z ->
  exists c0 c1 c2 c3 c4 c5 c6 c7,
    strftime_Ymd d
    = String c0 (String c1 (String c2 (String c3 (String c4 (String c5
        (String c6 (String c7 "")))))))
    /\ is_digit c0 = true /\ is_digit c1 = true /\ is_digit c2 = true
    /\ is_digit c3 = true /\ is_digit c4 = true /\ is_digit c5 = true
    /\ is_digit c6 = true /\ is_digit c7 = true.
Proof.
  intros Hd Hy. destruct (valid_inv d Hd) as (Hyr & Hmo & Hday).
  assert (Hdim : (day d <= 31)%Z).
  { unfold days_in_month in Hday.
    destruct ((month d =? 2)%Z && is_leap (year d)); [lia|].
    destruct (month_cases (month d) Hmo)
      as [E|[E|[E|[E|[E|[E|[E|[E|[E|[E|[E|E]]]]]]]]]]];
      rewrite E in Hday; cbn in Hday; lia. }
  do 8 eexists. split; [reflexivity|].
  repeat split; apply digit_char_is_digit; Z.div_mod_to_equations; lia.
Qed.

(** The name that [save] gives to an archive passes every test of the
    listing and of [should_keep], and is split into its stamp and the name
    of its action followed by the extension. *)
Lemma archive_name_tests d fullname ext :
  valid d = true -> (1000 <= year d)%Z ->
  bad_shape (_archive_name d fullname ext) = false
  /\ unpack2 (split "_" 1 (_archive_name d fullname ext))
     = Ok (strftime_Ymd d, fullname +:+ "." +:+ ext)
  /\ re_match_digits (strftime_Ymd d) = true.
Proof.
  intros Hd Hy. unfold _archive_name.
  destruct (strftime_digits d Hd Hy)
    as (c0 & c1 & c2 & c3 & c4 & c5 & c6 & c7 & -> & H0 & H1 & H2 & H3 & H4
        & H5 & H6 & H7).
  destruct (is_digit_plain c0 H0) as (_ & E0 & _).
  destruct (is_digit_plain c1 H1) as (_ & E1 & _).
  destruct (is_digit_plain c2 H2) as (_ & E2 & _).
  destruct (is_digit_plain c3 H3) as (_ & E3 & _).
  destruct (is_digit_plain c4 H4) as (_ & E4 & _).
  destruct (is_digit_plain c5 H5) as (_ & E5 & _).
  destruct (is_digit_plain c6 H6) as (_ & E6 & _).
  destruct (is_digit_plain c7 H7) as (_ & E7 & _).
  set (rest := fullname +:+ "." +:+ ext).
  assert (Hrest : exists c9 tail, rest = String c9 tail).
  { unfold rest. destruct fullname as [|x fullname];
      rewrite ?append_nil_l, ?append_cons; by do 2 eexists. }
  destruct Hrest as (c9 & tail & Hrest).
  rewrite !append_cons, append_nil_l. change ("_" +:+ rest) with (String "_" rest).
  split; [|split].
  - unfold bad_shape. rewrite Hrest. cbn -[Ascii.eqb].
    by rewrite E0, E1, E2, E3, E4, E5, E6, E7, Ascii.eqb_refl.
  - cbn -[Ascii.eqb].
    by rewrite E0, E1, E2, E3, E4, E5, E6, E7, Ascii.eqb_refl.
  - unfold re_match_digits. cbn -[is_digit].
    by rewrite H0, H1, H2, H3, H4, H5, H6, H7.
Qed.

Lemma should_keep_archive_saved (f : BackupFrequency) (now d : date)
    (fullname ext : string) :
  valid d = true -> (1000 <= year d)%Z ->
  contains "/" fullname = false -> contains "/" ext = false ->
  should_keep_archive f now (_archive_name d fullname ext)
  = should_keep f now d.
Proof.
  intros Hd Hy Hf He.
  destruct (archive_name_tests d fullname ext Hd Hy) as (Hb & Hu & Hre).
  unfold should_keep_archive.
  assert (Hbase : basename (_archive_name d fullname ext)
                  = _archive_name d fullname ext).
  { apply basename_plain. unfold _archive_name.
    destruct (strftime_digits d Hd Hy)
      as (c0 & c1 & c2 & c3 & c4 & c5 & c6 & c7 & -> & H0 & H1 & H2 & H3 & H4
          & H5 & H6 & H7).
    rewrite !append_cons, append_nil_l. cbn [contains].
    destruct (is_digit_plain c0 H0) as (_ & _ & -> & _).
    destruct (is_digit_plain c1 H1) as (_ & _ & -> & _).
    destruct (is_digit_plain c2 H2) as (_ & _ & -> & _).
    destruct (is_digit_plain c3 H3) as (_ & _ & -> & _).
    destruct (is_digit_plain c4 H4) as (_ & _ & -> & _).
    destruct (is_digit_plain c5 H5) as (_ & _ & -> & _).
    destruct (is_digit_plain c6 H6) as (_ & _ & -> & _).
    destruct (is_digit_plain c7 H7) as (_ & _ & -> & _).
    cbn [orb]. change ("_" +:+ ?x) with (String "_" x). cbn [contains].
    replace (Ascii.eqb "_" "/") with false by reflexivity. cbn [orb].
    clear -Hf He. induction fullname as [|x fullname IH];
      rewrite ?append_nil_l, ?append_cons; cbn [contains] in *.
    - change ("." +:+ ext) with (String "." ext). cbn [contains].
      by rewrite He.
    - apply orb_false_iff in Hf as [-> Hf]. by apply IH. }
  rewrite Hbase, Hb, Hu. cbn [Py.bind]. rewrite Hre. cbn [negb].
  by rewrite archive_date_of_stamp.
Qed.

(** X9: Round trip of the archive name: [should_keep] on the name that [save]
    gives to an archive of date [d] is [should_keep] of the policy on [d]. *)
Theorem should_keep_archive_name (f : BackupFrequency) (now d : date)
    (fullname ext : string) :
  valid d = true -> (1000 <= year d)%Z ->
  contains "/" fullname = false -> contains "/" ext = false ->
  should_keep_archive f now (_archive_name d fullname ext)
  = should_keep f now d.
Proof. exact (should_keep_archive_saved f now d fullname ext). Qed.

Lemma should_keep_archive_name_witness :
  should_keep_archive (mkfreq 7 0 0 0) (mkdate 2024 3 1)
                      (_archive_name (mkdate 2024 2 28) "web1_www" "tgz")
  = should_keep (mkfreq 7 0 0 0) (mkdate 2024 3 1) (mkdate 2024 2 28).
Proof.
  exact (should_keep_archive_name (mkfreq 7 0 0 0) (mkdate 2024 3 1)
           (mkdate 2024 2 28) "web1_www" "tgz" eq_refl ltac:(cbn; lia)
           eq_refl eq_refl).
Defined.

(** One step of the local listing. *)
Lemma local_list_archives_step folder fn g isfile rest results :
  exists results',
    local_list_archives_from folder fn ((g, isfile) :: rest) results
    = local_list_archives_from folder fn rest results'
    /\ (results' = results \/ results' = (results ++ [path_join folder g])%list)
    /\ (isfile = true -> passes fn g ->
        results' = (results ++ [path_join folder g])%list).
Proof.
  cbn [local_list_archives_from].
  destruct isfile; cbn [negb];
    [|exists results; split; [done|]; split; [by left | done]].
  destruct (bad_shape g) eqn:Hb.
  { exists results. split; [done|]. split; [by left|].
    intros _ [Hb' _]. congruence. }
  destruct (local_tests_naming g Hb) as (stamp & name & Hu & _).
  rewrite Hu. cbn [Py.bind].
  destruct (re_match_digits stamp) eqn:Hre; cbn [negb].
  2: { exists results. split; [done|]. split; [by left|].
       intros _ (_ & s' & n' & d' & Hu' & Hre' & _). congruence. }
  destruct (archive_date_of stamp) as [d|e] eqn:Hd.
  - destruct (other_action fn name) eqn:Ho.
    + exists results. split; [done|]. split; [by left|].
      intros _ (_ & s' & n' & d' & Hu' & _ & _ & Ho'). congruence.
    + exists (results ++ [path_join folder g])%list.
      split; [done|]. split; [by right | done].
  - rewrite (archive_date_of_raises _ _ Hd). exists results.
    split; [done|]. split; [by left|].
    intros _ (_ & s' & n' & d' & Hu' & _ & Hd' & _). congruence.
Qed.

Lemma local_list_archives_from_complete folder fn f :
  passes fn f -> forall entries results,
  exists res,
    local_list_archives_from folder fn entries results = Ok res
    /\ (forall p, p ∈ results -> p ∈ res)
    /\ ((f, true) ∈ entries -> path_join folder f ∈ res).
Proof.
  intros Hf. induction entries as [|[g isfile] rest IH]; intros results.
  - exists results. split; [done|]. split; [done|].
    intros H. by apply elem_of_nil in H.
  - destruct (local_list_archives_step folder fn g isfile rest results)
      as (results' & -> & Hres & Hadd).
    destruct (IH results') as (res & -> & Hmono & Hin).
    exists res. split; [done|]. split.
    + intros p Hp. apply Hmono. destruct Hres as [->| ->]; [done|].
      apply elem_of_app. by left.
    + intros H. apply elem_of_cons in H as [[= <- <-]|H]; [|by apply Hin].
      apply Hmono. rewrite (Hadd eq_refl Hf). apply elem_of_app. right.
      by apply list_elem_of_singleton.
Qed.

(** X10: An archive saved under the name of [_archive_name] is found again by the
    listing of its folder for its action. *)
Theorem local_list_archives_finds_saved (folder : string)
    (entries : directory) (d : date) (fullname ext : string) :
  valid d = true -> (1000 <= year d)%Z ->
  (_archive_name d fullname ext, true) ∈ entries ->
  exists res,
    local_list_archives folder entries (Some fullname) = Ok res
    /\ path_join folder (_archive_name d fullname ext) ∈ res.
Proof.
  intros Hd Hy Hin.
  destruct (archive_name_tests d fullname ext Hd Hy) as (Hb & Hu & Hre).
  assert (Hp : passes (Some fullname) (_archive_name d fullname ext)).
  { split; [done|]. exists (strftime_Ymd d), (fullname +:+ "." +:+ ext), d.
    split; [done|]. split; [done|].
    split; [by apply archive_date_of_stamp|].
    unfold other_action, startswith.
    rewrite <- string_append_assoc, prefix_append.
    apply andb_false_r. }
  destruct (local_list_archives_from_complete folder (Some fullname) _ Hp
              entries []) as (res & Hr & _ & Hf).
  exists res. split; [done | by apply Hf].
Qed.

Lemma local_list_archives_finds_saved_witness :
  exists res,
    local_list_archives "/backup"
      [("notes.txt", true);
       (_archive_name (mkdate 2024 2 28) "web1_www" "tgz", true)]
      (Some "web1_www") = Ok res
    /\ path_join "/backup" (_archive_name (mkdate 2024 2 28) "web1_www" "tgz")
       ∈ res.
Proof.
  apply (local_list_archives_finds_saved "/backup" _ (mkdate 2024 2 28)
           "web1_www" "tgz" eq_refl ltac:(cbn; lia)).
  apply elem_of_cons. right. apply elem_of_cons. by left.
Defined.





End ArchiveNameFacts.

(** ** Cleaning *)
Section CleaningFacts.
Import PyStr Calendar Retention Archives Actions ArchiveName Cleaning.
Local Open Scope string_scope.
Local Open Scope list_scope.

Lemma remove_loop_removed w now i storage : forall archives removed removed' out,
  remove_loop w now i storage archives removed = (removed', out) ->
  forall e, e ∈ removed' ->
    e ∈ removed
    \/ (fst e = i /\ snd e ∈ archives
        /\ should_keep_archive (freq storage) now (snd e) = Ok false
        /\ remove w i (snd e) = None).
Proof.
  induction archives as [|a archives IH]; intros removed removed' out H e He;
    cbn [remove_loop] in H.
  - injection H as <- <-. by left.
  - destruct (should_keep_archive (freq storage) now a) as [[|]|] eqn:Hk.
    + destruct (IH _ _ _ H e He) as [?|(? & ? & ? & ?)]; [by left|].
      right. repeat split; try done. by right.
    + destruct (remove w i a) as [ex|] eqn:Hr.
      * injection H as <- <-. by left.
      * destruct (IH _ _ _ H e He) as [Hin|(? & ? & ? & ?)].
        -- apply elem_of_app in Hin as [?|Hin]; [by left|].
           apply list_elem_of_singleton in Hin as ->. right. cbn.
           repeat split; try done. by left.
        -- right. repeat split; try done. by right.
    + injection H as <- <-. by left.
Qed.

Lemma clean_from_removed w now fn : forall storages i removed removed' out,
  clean_from w now fn i storages removed = (removed', out) ->
  forall e, e ∈ removed' ->
    e ∈ removed
    \/ exists j storage archives,
         fst e = (i + j)%nat
         /\ storages !! j = Some storage
         /\ list_archives w (i + j) storage (Some fn) = Ok archives
         /\ snd e ∈ archives
         /\ should_keep_archive (freq storage) now (snd e) = Ok false
         /\ remove w (i + j) (snd e) = None.
Proof.
  induction storages as [|s storages IH]; intros i removed removed' out H e He;
    cbn [clean_from] in H.
  - injection H as <- <-. by left.
  - destruct (list_archives w i s (Some fn)) as [archives|ex] eqn:Hl.
    2: { injection H as <- <-. by left. }
    destruct (remove_loop w now i s archives removed) as [removed1 [[]|ex]]
      eqn:Hloop.
    + destruct (IH _ _ _ _ H e He)
        as [Hin|(j & st & ar & Hf & Hj & Hla & Hin & Hk & Hr)].
      * destruct (remove_loop_removed _ _ _ _ _ _ _ _ Hloop e Hin)
          as [?|(Hf & Hin' & Hk & Hr)]; [by left|].
        right. exists 0%nat, s, archives. rewrite Nat.add_0_r. by rewrite Hf.
      * right. exists (S j), st, ar.
        replace (i + S j)%nat with (S i + j)%nat by lia. done.
    + injection H as <- <-.
      destruct (remove_loop_removed _ _ _ _ _ _ _ _ Hloop e He)
        as [?|(Hf & Hin' & Hk & Hr)]; [by left|].
      right. exists 0%nat, s, archives. rewrite Nat.add_0_r. by rewrite Hf.
Qed.

Lemma clean_archives_removed w now a removed out i archive :
  clean_archives w now a = (removed, out) ->
  (i, archive) ∈ removed ->
  exists storage archives,
    storage_list a !! i = Some storage
    /\ list_archives w i storage (Some (full_name a)) = Ok archives
    /\ archive ∈ archives
    /\ should_keep_archive (freq storage) now archive = Ok false
    /\ remove w i archive = None.
Proof.
  intros H Hin.
  destruct (clean_from_removed _ _ _ _ _ _ _ _ H _ Hin)
    as [Hnil|(j & st & ar & Hf & Hj & Hla & Hin' & Hk & Hr)];
    [by apply elem_of_nil in Hnil|].
  cbn in *. subst i. by exists st, ar.
Qed.

(** X13: Whatever its outcome, [clean_archives] has removed only archives that
    the storage listed for the action and that the policy of the storage
    does not keep. *)
Theorem clean_archives_removes_only_unkept (w : world) (now : date)
    (a : Action) removed out i archive :
  clean_archives w now a = (removed, out) ->
  (i, archive) ∈ removed ->
  exists storage archives,
    storage_list a !! i = Some storage
    /\ list_archives w i storage (Some (full_name a)) = Ok archives
    /\ archive ∈ archives
    /\ should_keep_archive (freq storage) now archive = Ok false
    /\ remove w i archive = None.
Proof. exact (clean_archives_removed w now a removed out i archive). Qed.

Lemma should_keep_archive_basename f now archive name :
  basename archive = name -> contains "/" name = false ->
  should_keep_archive f now archive = should_keep_archive f now name.
Proof.
  intros Hb Hn. unfold should_keep_archive.
  by rewrite Hb, (basename_plain name Hn).
Qed.

Lemma archive_name_plain d fullname ext :
  valid d = true -> (1000 <= year d)%Z ->
  contains "/" fullname = false -> contains "/" ext = false ->
  contains "/" (_archive_name d fullname ext) = false.
Proof.
  intros Hd Hy Hf He. unfold _archive_name.
  destruct (strftime_digits d Hd Hy)
    as (c0 & c1 & c2 & c3 & c4 & c5 & c6 & c7 & -> & H0 & H1 & H2 & H3 & H4
        & H5 & H6 & H7).
  rewrite !append_cons, append_nil_l. cbn [contains].
  destruct (is_digit_plain c0 H0) as (_ & _ & -> & _).
  destruct (is_digit_plain c1 H1) as (_ & _ & -> & _).
  destruct (is_digit_plain c2 H2) as (_ & _ & -> & _).
  destruct (is_digit_plain c3 H3) as (_ & _ & -> & _).
  destruct (is_digit_plain c4 H4) as (_ & _ & -> & _).
  destruct (is_digit_plain c5 H5) as (_ & _ & -> & _).
  destruct (is_digit_plain c6 H6) as (_ & _ & -> & _).
  destruct (is_digit_plain c7 H7) as (_ & _ & -> & _).
  cbn [orb]. change ("_" +:+ ?x) with (String "_" x). cbn [contains].
  replace (Ascii.eqb "_" "/") with false by reflexivity. cbn [orb].
  clear -Hf He. induction fullname as [|x fullname IH];
    rewrite ?append_nil_l, ?append_cons; cbn [contains] in *.
  - change ("." +:+ ext) with (String "." ext). cbn [contains].
    by rewrite He.
  - apply orb_false_iff in Hf as [-> Hf]. by apply IH.
Qed.

(** X14: The cleaning of an action never removes the archive that a storage due
    today saves today: the archive named by [_archive_name] for the
    reference date survives whenever [should_save()] is true. *)
Theorem clean_archives_keeps_today (w : world) (now : date) (a : Action)
    removed out i storage archive ext :
  valid now = true -> (1000 <= year now)%Z ->
  contains "/" (full_name a) = false -> contains "/" ext = false ->
  clean_archives w now a = (removed, out) ->
  storage_list a !! i = Some storage ->
  should_save (freq storage) now = Ok true ->
  basename archive = _archive_name now (full_name a) ext ->
  (i, archive) ∉ removed.
Proof.
  intros Hnow Hy Hf He Hc Hi Hs Hb Hin.
  destruct (clean_archives_removed _ _ _ _ _ _ _ Hc Hin)
    as (st & ar & Hi' & _ & _ & Hk & _).
  rewrite Hi in Hi'. injection Hi' as <-.
  rewrite (should_keep_archive_basename _ _ _ _ Hb) in Hk
    by (by apply archive_name_plain).
  rewrite should_keep_archive_saved in Hk by done.
  unfold should_save in Hs. congruence.
Qed.

Lemma clean_archives_removes_only_unkept_witness :
  exists storage archives,
    storage_list www_weekly !! 0%nat = Some storage
    /\ list_archives two_archives 0 storage (Some (full_name www_weekly))
       = Ok archives
    /\ "/srv/a/20200101_web1_www.tgz" ∈ archives
    /\ should_keep_archive (freq storage) (mkdate 2024 3 1)
                           "/srv/a/20200101_web1_www.tgz" = Ok false
    /\ remove two_archives 0 "/srv/a/20200101_web1_www.tgz" = None.
Proof.
  apply (clean_archives_removes_only_unkept two_archives (mkdate 2024 3 1)
           www_weekly [(0%nat, "/srv/a/20200101_web1_www.tgz")] (Ok tt)).
  - vm_compute. reflexivity.
  - by apply list_elem_of_singleton.
Defined.

Lemma clean_archives_keeps_today_witness :
  (0%nat, "/srv/a/20240301_web1_www.tgz")
  ∉ fst (clean_archives two_archives (mkdate 2024 3 1) www_weekly).
Proof.
  apply (clean_archives_keeps_today two_archives (mkdate 2024 3 1) www_weekly
           _ (snd (clean_archives two_archives (mkdate 2024 3 1) www_weekly))
           0%nat week_store "/srv/a/20240301_web1_www.tgz" "tgz");
    try reflexivity.
  cbn. lia.
Defined.

Lemma remove_loop_complete w now i storage : forall archives removed removed',
  remove_loop w now i storage archives removed = (removed', Ok tt) ->
  (forall e, e ∈ removed -> e ∈ removed')
  /\ forall archive, archive ∈ archives ->
       should_keep_archive (freq storage) now archive = Ok false ->
       (i, archive) ∈ removed'.
Proof.
  induction archives as [|a archives IH]; intros removed removed' H;
    cbn [remove_loop] in H.
  - injection H as <-. split; [done|]. intros ? Hin. by apply elem_of_nil in Hin.
  - destruct (should_keep_archive (freq storage) now a) as [[|]|] eqn:Hk;
      [|destruct (remove w i a) eqn:Hr|]; try done.
    + destruct (IH _ _ H) as [Hm Hall]. split; [done|].
      intros archive Hin Hk'. apply elem_of_cons in Hin as [->|Hin];
        [congruence | by apply Hall].
    + destruct (IH _ _ H) as [Hm Hall]. split.
      * intros e He. apply Hm, elem_of_app. by left.
      * intros archive Hin Hk'. apply elem_of_cons in Hin as [->|Hin];
          [|by apply Hall].
        apply Hm, elem_of_app. right. by apply list_elem_of_singleton.
Qed.

Lemma clean_from_complete w now fn : forall storages i removed removed',
  clean_from w now fn i storages removed = (removed', Ok tt) ->
  (forall e, e ∈ removed -> e ∈ removed')
  /\ forall j storage archives archive,
       storages !! j = Some storage ->
       list_archives w (i + j) storage (Some fn) = Ok archives ->
       archive ∈ archives ->
       should_keep_archive (freq storage) now archive = Ok false ->
       ((i + j)%nat, archive) ∈ removed'.
Proof.
  induction storages as [|s storages IH]; intros i removed removed' H;
    cbn [clean_from] in H.
  - injection H as <-. split; [done|]. intros j ? ? ? Hj. done.
  - destruct (list_archives w i s (Some fn)) as [archives|ex] eqn:Hl; [|done].
    destruct (remove_loop w now i s archives removed) as [removed1 [[]|ex]]
      eqn:Hloop; [|done].
    destruct (remove_loop_complete _ _ _ _ _ _ _ Hloop) as [Hm1 Hall1].
    destruct (IH _ _ _ H) as [Hm2 Hall2]. split; [by auto|].
    intros [|j] storage ar archive Hj Hla Hin Hk; cbn in Hj.
    + injection Hj as <-. rewrite Nat.add_0_r in *. rewrite Hl in Hla.
      injection Hla as <-. by apply Hm2, Hall1.
    + replace (i + S j)%nat with (S i + j)%nat in * by lia.
      by apply (Hall2 j storage ar).
Qed.

(** X15: When [clean_archives] returns, every archive that a storage listed for
    the action and that its policy does not keep has been removed. *)
Theorem clean_archives_removes_all_unkept (w : world) (now : date)
    (a : Action) removed i storage archives archive :
  clean_archives w now a = (removed, Ok tt) ->
  storage_list a !! i = Some storage ->
  list_archives w i storage (Some (full_name a)) = Ok archives ->
  archive ∈ archives ->
  should_keep_archive (freq storage) now archive = Ok false ->
  (i, archive) ∈ removed.
Proof.
  intros H Hi Hl Hin Hk.
  destruct (clean_from_complete _ _ _ _ _ _ _ H) as [_ Hall].
  by apply (Hall i storage archives).
Qed.

Lemma clean_archives_removes_all_unkept_witness :
  (0%nat, "/srv/a/20200101_web1_www.tgz")
  ∈ [(0%nat, "/srv/a/20200101_web1_www.tgz")].
Proof.
  apply (clean_archives_removes_all_unkept two_archives (mkdate 2024 3 1)
           www_weekly _ 0%nat week_store
           ["/srv/a/20200101_web1_www.tgz"; "/srv/a/20240301_web1_www.tgz"]);
    try (vm_compute; reflexivity).
  apply elem_of_cons. by left.
Defined.

End CleaningFacts.

(** ** The run loop *)
Section BackupFacts.
Import PyStr Calendar Retention Actions Report ReportStats Backup.
Local Open Scope string_scope.
Local Open Scope list_scope.

Variable exn_str : exn -> string.
Variable ws : nat -> Backup.world.
Variable now : date.

Lemma do_backup_call w a report :
  do_backup exn_str w now a report
  = Report.apply report (outcome_call exn_str w now a).
Proof.
  unfold do_backup, outcome_call. by destruct (protected w now a).
Qed.

Lemma run_from_calls : forall actions k report,
  run_from exn_str ws now k actions report
  = foldl Report.apply report (calls_from exn_str ws now k actions).
Proof.
  induction actions as [|a actions IH]; intros k report; cbn; [done|].
  by rewrite IH, do_backup_call.
Qed.

Lemma run_all_after actions :
  run_all exn_str ws now actions
  = after (calls_from exn_str ws now 0 actions).
Proof. apply run_from_calls. Qed.

Lemma calls_from_length : forall actions k,
  length (calls_from exn_str ws now k actions) = length actions.
Proof. induction actions as [|a actions IH]; intros k; cbn; [done|]. by rewrite IH. Qed.

Lemma calls_from_lookup : forall actions k j,
  calls_from exn_str ws now k actions !! j
  = outcome_call exn_str (ws (k + j)) now <$> actions !! j.
Proof.
  induction actions as [|a actions IH]; intros k [|j]; cbn; try done.
  - by rewrite Nat.add_0_r.
  - rewrite IH. by replace (S k + j) with (k + S j) by lia.
Qed.

Lemma calls_from_no_warning : forall actions k,
  List.filter is_warning (calls_from exn_str ws now k actions) = [].
Proof.
  induction actions as [|a actions IH]; intros k; cbn; [done|].
  rewrite IH. unfold outcome_call. by destruct (protected (ws k) now a).
Qed.

Lemma filter_partition_length (calls : list call) :
  (forall c, c ∈ calls -> is_warning c = false) ->
  length (List.filter is_issue calls)
  + length (List.filter is_success_call calls) = length calls.
Proof.
  induction calls as [|c calls IH]; intros H; [done|]. cbn.
  specialize (IH (fun c' Hc' => H c' ltac:(by right))).
  pose proof (H c ltac:(by left)) as Hc.
  destruct c; cbn in *; try done; lia.
Qed.

(** X16: The run loop adds one entry to the report for each action, an issue or
    a success and never a warning. *)
Theorem run_all_one_entry_per_action (actions : list Action) :
  issue_count (run_all exn_str ws now actions)
  + total (_server_success (run_all exn_str ws now actions))
  = length actions
  /\ warning_count (run_all exn_str ws now actions) = 0.
Proof.
  rewrite run_all_after.
  destruct (counts_of_calls (calls_from exn_str ws now 0 actions))
    as (-> & -> & ->).
  rewrite calls_from_no_warning. split; [|done].
  rewrite filter_partition_length, calls_from_length; [done|].
  intros c Hc. destruct (is_warning c) eqn:E; [|done].
  assert (Hin : In c (List.filter is_warning
                        (calls_from exn_str ws now 0 actions)))
    by (apply filter_In; split; [by apply list_elem_of_In | done]).
  rewrite calls_from_no_warning in Hin. destruct Hin.
Qed.

(** X17: The report of a run is a success exactly when there was an action and
    the cleaning and the backup of every action returned. *)
Theorem run_all_success (actions : list Action) :
  is_success (run_all exn_str ws now actions) = true
  <-> actions <> []
      /\ forall k a, actions !! k = Some a ->
                     protected (ws k) now a = Ok tt.
Proof.
  rewrite run_all_after, is_success_of_calls. split.
  - intros [Hne Hall]. split; [by destruct actions|].
    intros k a Hk.
    assert (Hc : outcome_call exn_str (ws k) now a
                 ∈ calls_from exn_str ws now 0 actions).
    { apply list_elem_of_lookup. exists k.
      by rewrite calls_from_lookup, Hk. }
    specialize (Hall _ Hc). unfold outcome_call in Hall.
    by destruct (protected (ws k) now a) as [[]|].
  - intros [Hne Hall]. split; [by destruct actions|].
    intros c Hc. apply list_elem_of_lookup in Hc as [k Hk].
    rewrite calls_from_lookup in Hk.
    destruct (actions !! k) as [a|] eqn:Ha; [|done].
    injection Hk as <-. unfold outcome_call. cbn. by rewrite (Hall k a Ha).
Qed.

End BackupFacts.

(** ** Target selection: what a selection holds *)
Section SelectionFacts.
Import PyStr Actions Selection.
Local Open Scope string_scope.
Local Open Scope list_scope.

Lemma filter_sublist {A} (f : A -> bool) (l : list A) :
  sublist (List.filter f l) l.
Proof.
  induction l as [|x l IH]; cbn; [constructor|].
  destruct (f x); by constructor.
Qed.

Lemma glob_target_filter fnmatch actions identifier results :
  glob_target fnmatch actions identifier = Ok results ->
  results <> [] /\ exists f, results = List.filter f actions.
Proof.
  unfold glob_target. intros H.
  destruct (contains ":" identifier).
  - destruct (unpack2 (split ":" 2 identifier)) as [[p1 p2]|]; [|done].
    cbn in H. destruct (List.filter _ actions) as [|a l] eqn:E; [done|].
    injection H as <-. split; [done | by eexists].
  - cbn in H. destruct (List.filter _ actions) as [|a l] eqn:E; [done|].
    injection H as <-. split; [done | by eexists].
Qed.

(** X18: Whatever the pattern, a selection that [glob_target] returns is not
    empty and holds actions of the registry only, each at most as often as
    the registry and in the order of the registry. *)
Theorem glob_target_selection (fnmatch : string -> string -> bool)
    (actions : list Action) (identifier : string) (results : list Action) :
  glob_target fnmatch actions identifier = Ok results ->
  results <> [] /\ sublist results actions.
Proof.
  intros H. destruct (glob_target_filter _ _ _ _ H) as [Hne [f ->]].
  split; [done | apply filter_sublist].
Qed.

Lemma glob_target_selection_witness :
  [mkAction 0 "web1" "web1" "db" (Some "/staging") None None
            (DbAction MySql (Some "root") "shop" 3306) []] <> []
  /\ sublist [mkAction 0 "web1" "web1" "db" (Some "/staging") None None
                       (DbAction MySql (Some "root") "shop" 3306) []]
             db_actions.
Proof.
  exact (glob_target_selection fnmatch_plain db_actions "web1" _ eq_refl).
Defined.

Lemma fnmatch_plain_star name : fnmatch_plain name "*" = true.
Proof.
  cbn. induction name as [|c name IH]; cbn; [done|].
  by rewrite IH, ?orb_true_r.
Qed.

Lemma filter_all {A} (f : A -> bool) (l : list A) :
  (forall x, f x = true) -> List.filter f l = l.
Proof.
  intros H. induction l as [|x l IH]; cbn; [done|]. by rewrite H, IH.
Qed.

(** X19: The patterns [*] and [*:*] select the whole registry, in its order. *)
Theorem glob_target_star (actions : list Action) :
  actions <> [] ->
  glob_target fnmatch_plain actions "*" = Ok actions
  /\ glob_target fnmatch_plain actions "*:*" = Ok actions.
Proof.
  intros Hne. unfold glob_target.
  change (contains ":" "*") with false. change (contains ":" "*:*") with true.
  change (unpack2 (split ":" 2 "*:*")) with (@Ok (string * string) ("*", "*")).
  cbn [Py.bind].
  rewrite (filter_all (matches_single fnmatch_plain "*")),
    (filter_all (matches_pair fnmatch_plain "*" "*")).
  - by destruct actions.
  - intros a. unfold matches_pair, matches_second.
    by rewrite !fnmatch_plain_star.
  - intros a. unfold matches_single. by rewrite fnmatch_plain_star.
Qed.

Lemma glob_target_star_witness :
  glob_target fnmatch_plain db_actions "*" = Ok db_actions
  /\ glob_target fnmatch_plain db_actions "*:*" = Ok db_actions.
Proof. apply (glob_target_star db_actions). discriminate. Defined.

(** *** [glob_targets] *)

Lemma existsb_eqb_elem (n : nat) (seen : list nat) :
  existsb (Nat.eqb n) seen = true <-> n ∈ seen.
Proof.
  rewrite existsb_exists. split.
  - intros (x & Hx & E). apply Nat.eqb_eq in E as ->. by apply list_elem_of_In.
  - intros H. exists n. split; [by apply list_elem_of_In | apply Nat.eqb_refl].
Qed.

Lemma distinct_elem : forall results seen a,
  a ∈ distinct seen results -> a ∈ results /\ id a ∉ seen.
Proof.
  induction results as [|x results IH]; intros seen a; cbn.
  - intros H. by apply elem_of_nil in H.
  - destruct (existsb (Nat.eqb (id x)) seen) eqn:E.
    + intros H. destruct (IH _ _ H). split; [by right | done].
    + intros H. apply elem_of_cons in H as [->|H].
      * split; [by left|]. intros Hin. apply existsb_eqb_elem in Hin.
        congruence.
      * destruct (IH _ _ H) as [Hin Hs]. split; [by right|].
        intros Hin'. apply Hs. by right.
Qed.

Lemma distinct_ids : forall results seen,
  NoDup (map id (distinct seen results)).
Proof.
  induction results as [|x results IH]; intros seen; cbn; [apply NoDup_nil_2|].
  destruct (existsb (Nat.eqb (id x)) seen); [apply IH|].
  cbn. apply NoDup_cons. split; [|apply IH].
  intros Hin. apply list_elem_of_fmap in Hin as (b & Hb & Hin).
  apply distinct_elem in Hin as [_ Hs]. apply Hs. rewrite <- Hb. by left.
Qed.

Lemma distinct_keeps : forall results seen a,
  a ∈ results -> id a ∉ seen ->
  exists b, b ∈ distinct seen results /\ id b = id a.
Proof.
  induction results as [|x results IH]; intros seen a Hin Hs.
  - by apply elem_of_nil in Hin.
  - cbn. destruct (existsb (Nat.eqb (id x)) seen) eqn:E.
    + apply elem_of_cons in Hin as [->|Hin].
      * apply existsb_eqb_elem in E. done.
      * by apply IH.
    + destruct (decide (id x = id a)) as [Heq|Hne].
      * exists x. split; [by left | done].
      * apply elem_of_cons in Hin as [->|Hin]; [done|].
        destruct (IH (id x :: seen) a Hin) as (b & Hb & Hid).
        { intros H. apply elem_of_cons in H as [?|?]; [congruence | done]. }
        exists b. split; [by right | done].
Qed.

Lemma extend_all_spec fnmatch actions : forall identifier_list results out,
  extend_all fnmatch actions identifier_list results = Ok out ->
  forall a, a ∈ out
            <-> a ∈ results \/ selected fnmatch actions identifier_list a.
Proof.
  induction identifier_list as [|i rest IH]; intros results out H a;
    cbn in H.
  - injection H as <-. split; [by left|].
    intros [?|(i & s & Hi & _)]; [done | by apply elem_of_nil in Hi].
  - destruct (glob_target fnmatch actions i) as [sel|] eqn:E; [|done].
    cbn in H. rewrite (IH _ _ H a), elem_of_app. split.
    + intros [[?|?]|(i' & s & Hi & Hs & Ha)].
      * by left.
      * right. exists i, sel. split; [by left | done].
      * right. exists i', s. split; [by right | done].
    + intros [?|(i' & s & Hi & Hs & Ha)]; [by left; left|].
      apply elem_of_cons in Hi as [->|Hi].
      * rewrite E in Hs. injection Hs as ->. left. by right.
      * right. by exists i', s.
Qed.

Lemma extend_all_returns fnmatch actions : forall identifier_list results,
  returns (extend_all fnmatch actions identifier_list results)
  <-> forall identifier, identifier ∈ identifier_list ->
                         returns (glob_target fnmatch actions identifier).
Proof.
  induction identifier_list as [|i rest IH]; intros results; cbn.
  - split; [|by eexists]. intros _ i Hi. by apply elem_of_nil in Hi.
  - destruct (glob_target fnmatch actions i) as [sel|e] eqn:E; cbn.
    + rewrite IH. split.
      * intros H i' Hi'. apply elem_of_cons in Hi' as [->|Hi'];
          [rewrite E; by eexists | by apply H].
      * intros H i' Hi'. apply H. by right.
    + split; [by intros [? ?]|]. intros H.
      destruct (H i ltac:(by left)) as [x Hx]. congruence.
Qed.

Lemma selected_in_registry fnmatch actions identifier_list a :
  selected fnmatch actions identifier_list a -> a ∈ actions.
Proof.
  intros (i & s & _ & Hs & Ha).
  destruct (glob_target_filter _ _ _ _ Hs) as [_ [f ->]].
  apply list_elem_of_In, filter_In in Ha as [Ha _]. by apply list_elem_of_In.
Qed.

Lemma same_id_same_action (actions : list Action) a b :
  NoDup (map id actions) -> a ∈ actions -> b ∈ actions -> id a = id b ->
  a = b.
Proof.
  induction actions as [|x actions IH]; intros Hnd Ha Hb Hid.
  - by apply elem_of_nil in Ha.
  - cbn in Hnd. apply NoDup_cons in Hnd as [Hx Hnd].
    apply elem_of_cons in Ha as [->|Ha]; apply elem_of_cons in Hb as [->|Hb].
    + done.
    + exfalso. apply Hx. rewrite Hid. apply list_elem_of_fmap. by exists b.
    + exfalso. apply Hx. rewrite <- Hid. apply list_elem_of_fmap. by exists a.
    + by apply IH.
Qed.

Variable fnmatch : string -> string -> bool.
Variable set_order : list Action -> list Action.
Hypothesis set_order_perm : forall l, set_order l ≡ₚ l.

(** X20: With identifiers, [glob_targets] returns when each identifier selects
    something, and raises at the first one that selects nothing.  What it
    returns holds the actions that some identifier selects, and each of
    them once, however many identifiers select it. *)
Theorem glob_targets_union (actions : list Action)
    (identifier_list : list string) (all_on_empty : bool) :
  NoDup (map id actions) ->
  identifier_list <> [] ->
  (returns (glob_targets fnmatch set_order actions identifier_list
                         all_on_empty)
   <-> forall identifier, identifier ∈ identifier_list ->
         returns (glob_target fnmatch actions identifier))
  /\ forall results,
       glob_targets fnmatch set_order actions identifier_list all_on_empty
       = Ok results ->
       NoDup (map id results)
       /\ forall a, a ∈ results
                    <-> selected fnmatch actions identifier_list a.
Proof.
  intros Hnd Hne. unfold glob_targets.
  destruct identifier_list as [|i0 rest]; [done|].
  set (ids := i0 :: rest). split.
  - rewrite <- (extend_all_returns fnmatch actions ids []).
    destruct (extend_all fnmatch actions ids []); cbn;
      split; intros [x Hx]; by eexists.
  - intros results H.
    destruct (extend_all fnmatch actions ids []) as [out|] eqn:E; [|done].
    cbn in H. injection H as <-.
    pose proof (extend_all_spec _ _ _ _ _ E) as Hout. split.
    + rewrite (fmap_Permutation id _ _ (set_order_perm _)).
      apply distinct_ids.
    + intros a. rewrite (set_order_perm _). split.
      * intros Ha. apply distinct_elem in Ha as [Ha _].
        apply Hout in Ha as [Ha|Ha]; [by apply elem_of_nil in Ha | done].
      * intros Ha.
        destruct (distinct_keeps out [] a) as (b & Hb & Hid).
        { apply Hout. by right. }
        { apply not_elem_of_nil. }
        assert (b = a) as <-; [|done].
        apply (same_id_same_action actions); try done.
        -- apply distinct_elem in Hb as [Hb _].
           apply Hout in Hb as [Hb|Hb]; [by apply elem_of_nil in Hb|].
           by apply selected_in_registry in Hb.
        -- by apply selected_in_registry in Ha.
Qed.

(** Without identifier, [glob_targets] returns the registry as it is when
    [all_on_empty] is set, and nothing otherwise. *)
Theorem glob_targets_no_identifier (actions : list Action)
    (all_on_empty : bool) :
  glob_targets fnmatch set_order actions [] all_on_empty
  = Ok (if all_on_empty then actions else []).
Proof.
  unfold glob_targets. destruct all_on_empty; [done|]. cbn.
  f_equal. apply Permutation_nil_r. apply set_order_perm.
Qed.

End SelectionFacts.

Lemma glob_targets_union_witness :
  (returns (Selection.glob_targets Actions.fnmatch_plain (fun l => l)
              Actions.db_actions ["web1"; "*:db"] true)
   <-> forall identifier, identifier ∈ ["web1"; "*:db"] ->
         returns (Actions.glob_target Actions.fnmatch_plain
                    Actions.db_actions identifier))
  /\ forall results,
       Selection.glob_targets Actions.fnmatch_plain (fun l => l)
         Actions.db_actions ["web1"; "*:db"] true
       = Ok results ->
       NoDup (map Actions.id results)
       /\ forall a, a ∈ results
                    <-> Selection.selected Actions.fnmatch_plain
                          Actions.db_actions ["web1"; "*:db"] a.
Proof.
  apply (glob_targets_union Actions.fnmatch_plain (fun l => l)
           (fun l => reflexivity l) Actions.db_actions ["web1"; "*:db"] true).
  - vm_compute. apply NoDup_cons. split; [|apply NoDup_singleton].
    intros H. apply list_elem_of_singleton in H. discriminate H.
  - discriminate.
Defined.

Lemma glob_targets_no_identifier_witness :
  Selection.glob_targets Actions.fnmatch_plain (fun l => l)
    Actions.db_actions [] false = Ok [].
Proof.
  exact (glob_targets_no_identifier Actions.fnmatch_plain (fun l => l)
           (fun l => reflexivity l) Actions.db_actions false).
Defined.

(** ** The retention policies that the parser builds *)
Section ParseFreqFacts.
Import PyStr Retention Merge ArchiveName ParseFreq.
Local Open Scope string_scope.
Local Open Scope list_scope.

Lemma digits_value_nonneg : forall s acc v,
  (0 <= acc)%Z -> digits_value acc s = Some v -> (0 <= v)%Z.
Proof.
  induction s as [|c s IH]; intros acc v Hacc; cbn.
  - by intros [= <-].
  - destruct (is_digit c) eqn:Hc; [|done].
    apply IH. unfold is_digit in Hc. apply andb_true_iff in Hc as [H1 H2].
    apply Nat.leb_le in H1. lia.
Qed.

Lemma digits_value_some : forall s acc,
  all_digits s -> is_Some (digits_value acc s).
Proof.
  unfold all_digits. induction s as [|c s IH]; intros acc; cbn; [by eexists|].
  intros H. apply andb_true_iff in H as [Hc Hs]. rewrite Hc. by apply IH.
Qed.

(** What [[0-9]*$] matches: digits, with or without a final newline. *)
Lemma re_digits_end_shape : forall s,
  re_digits_end s = true ->
  all_digits s
  \/ exists ds, all_digits ds /\ s = ds +:+ String newline "".
Proof.
  unfold all_digits. induction s as [|c s IH]; cbn; [by left|].
  destruct (is_digit c) eqn:Hc.
  - intros H. destruct (IH H) as [Hs|(ds & Hds & ->)]; [by left|].
    right. exists (String c ds). cbn. by rewrite Hc.
  - intros H. apply andb_true_iff in H as [Hn He].
    apply Ascii.eqb_eq in Hn as ->. apply String.eqb_eq in He as ->.
    right. by exists "".
Qed.

Lemma rstrip_digits_newline : forall ds,
  all_digits ds -> rstrip (ds +:+ String newline "") = ds.
Proof.
  unfold all_digits. induction ds as [|c ds IH]; [done|].
  cbn [list_ascii_of_string forallb]. intros H.
  apply andb_true_iff in H as [Hc Hds].
  rewrite append_cons. cbn [rstrip]. rewrite (IH Hds).
  destruct ds; [|done]. by destruct (is_digit_plain c Hc) as (-> & _).
Qed.

(** [int] accepts every string that [^[0-9]+$] matches, and gives a value
    that is not negative. *)
Lemma py_int_re_match_digits s :
  re_match_digits s = true -> exists v, py_int s = Ok v /\ (0 <= v)%Z.
Proof.
  destruct s as [|c r]; [done|]. cbn [re_match_digits]. intros H.
  apply andb_true_iff in H as [Hc Hr].
  destruct (is_digit_plain c Hc) as (Hsp & _ & _ & _ & Hm).
  assert (Hstrip : exists ds, all_digits (String c ds)
                              /\ rstrip (String c r) = String c ds).
  { destruct (re_digits_end_shape r Hr) as [Hall|(ds & Hds & ->)].
    - exists r. assert (Hall' : all_digits (String c r)).
      { unfold all_digits in *. cbn. by rewrite Hc. }
      split; [done | by apply rstrip_digits].
    - exists ds. assert (Hall' : all_digits (String c ds)).
      { unfold all_digits in *. cbn. by rewrite Hc. }
      split; [done|].
      change (String c (ds +:+ String newline ""))
        with (String c ds +:+ String newline "").
      by apply rstrip_digits_newline. }
  destruct Hstrip as (ds & Hall & Hrs).
  destruct (digits_value_some (String c ds) 0 Hall) as [v Hv].
  exists v. split; [|by apply (digits_value_nonneg (String c ds) 0 v)].
  unfold py_int. cbn [lstrip]. rewrite Hsp, Hrs.
  rewrite (Hm _ (-1, ds)%Z (1, ds)%Z (1, String c ds)%Z), Hv.
  f_equal. lia.
Qed.

(** After the tests of the value, [int] fails on the limit of the
    interpreter only. *)
Lemma int_of_tested max_str_digits s :
  re_match_digits s = true ->
  (exists v, int_of max_str_digits (AStr s) = Ok v /\ (0 <= v)%Z)
  \/ (int_of max_str_digits (AStr s) = Raise ValueError
      /\ (0 < max_str_digits)%nat /\ (max_str_digits < count_digits s)%nat).
Proof.
  intros Hre. cbn [int_of]. unfold py_int_limited.
  destruct (exceeds_limit max_str_digits s) eqn:E;
    [|left; by apply py_int_re_match_digits].
  right. unfold exceeds_limit in E.
  apply andb_true_iff in E as [E Hlen]. apply andb_true_iff in E as [_ Hmax].
  apply Nat.ltb_lt in Hlen, Hmax. by repeat split.
Qed.

Lemma parse_items_outcome max_str_digits normal : forall items t,
  tiers_ok t ->
  (exists t', parse_items max_str_digits normal items t = Ok t'
              /\ tiers_ok t')
  \/ (exists msg,
        parse_items max_str_digits normal items t = Raise (ConfigError msg))
  \/ (parse_items max_str_digits normal items t = Raise ValueError
      /\ (0 < max_str_digits)%nat
      /\ exists key val,
           (key, val) ∈ items
           /\ (max_str_digits < count_digits (normal val))%nat).
Proof.
  induction items as [|[k x] items IH]; intros t Ht; [left; by exists t|].
  assert (Hrest : forall t1, tiers_ok t1 ->
    (exists t', parse_items max_str_digits normal items t1 = Ok t'
                /\ tiers_ok t')
    \/ (exists msg,
          parse_items max_str_digits normal items t1
          = Raise (ConfigError msg))
    \/ (parse_items max_str_digits normal items t1 = Raise ValueError
        /\ (0 < max_str_digits)%nat
        /\ exists key val,
             (key, val) ∈ (k, x) :: items
             /\ (max_str_digits < count_digits (normal val))%nat)).
  { intros t1 Ht1.
    destruct (IH t1 Ht1) as [?|[?|(? & ? & key & val & Hin & ?)]];
      [by left | right; by left |].
    right; right. repeat split; [done..|]. exists key, val.
    split; [by right | done]. }
  cbn [parse_items].
  assert (Hval : (exists fv v, (if String.eqb (normal x) "all"
                                then Ok (AnInt ALL_VALUE)
                                else if String.eqb (normal x) "no"
                                then Ok (AnInt NO_VALUE)
                                else if negb (re_match_digits (normal x))
                                then Raise (ConfigError
                                       ("Invalid memory frequency "
                                        +:+ normal x))
                                else Ok (AStr (normal x))) = Ok fv
                               /\ ((int_of max_str_digits fv = Ok v
                                    /\ (-1 <= v)%Z)
                                   \/ (int_of max_str_digits fv
                                       = Raise ValueError
                                       /\ (0 < max_str_digits)%nat
                                       /\ (max_str_digits
                                           < count_digits (normal x))%nat)))
                 \/ exists msg, (if String.eqb (normal x) "all"
                                 then Ok (AnInt ALL_VALUE)
                                 else if String.eqb (normal x) "no"
                                 then Ok (AnInt NO_VALUE)
                                 else if negb (re_match_digits (normal x))
                                 then Raise (ConfigError
                                        ("Invalid memory frequency "
                                         +:+ normal x))
                                 else Ok (AStr (normal x)))
                                = Raise (ConfigError msg)).
  { destruct (String.eqb (normal x) "all");
      [left; exists (AnInt ALL_VALUE), ALL_VALUE; split; [done|];
       left; by split|].
    destruct (String.eqb (normal x) "no");
      [left; exists (AnInt NO_VALUE), NO_VALUE; split; [done|];
       left; by split|].
    destruct (re_match_digits (normal x)) eqn:Hre; cbn [negb];
      [|right; by eexists].
    left. exists (AStr (normal x)).
    destruct (int_of_tested max_str_digits _ Hre)
      as [(v & Hv & Hpos)|(Hv & Hmax & Hlen)].
    - exists v. split; [done|]. left. split; [done | lia].
    - exists 0%Z. split; [done|]. by right. }
  destruct Hval as [(fv & v & -> & Hint)|[msg ->]];
    [|right; left; by eexists].
  cbn [Py.bind]. destruct Ht as (H1 & H2 & H3 & H4).
  destruct Hint as [[Hv Hpos]|(Hv & Hmax & Hlen)]; rewrite Hv; cbn [Py.bind].
  - repeat (match goal with
            | |- context [if String.eqb ?a ?b then _ else _] =>
                destruct (String.eqb a b)
            end; cbn [Py.bind];
            [apply Hrest; by repeat split|]).
    right; left. by eexists.
  - repeat (match goal with
            | |- context [if String.eqb ?a ?b then _ else _] =>
                destruct (String.eqb a b)
            end; cbn [Py.bind];
            [right; right; repeat split; [done..|];
             exists k, x; split; [by left | done]|]).
    right; left. by eexists.
Qed.

Lemma parse_freq_as_items max_str_digits normal config :
  _parse_freq max_str_digits normal config
  = match as_items config with
    | Some items =>
        let* t := parse_items max_str_digits normal items
                              (mkTiers NO_VALUE NO_VALUE NO_VALUE NO_VALUE) in
        Ok (Some (mkfreq (day t) (week t) (month t) (year t)))
    | None => Ok None
    end.
Proof. by destruct config as [|[s|z|b|x]|l|d]. Qed.

(** X21: Whatever the configuration value and the limit of the interpreter
    on integer strings, every tier of a policy that [_parse_freq] builds is
    ALL, NONE or an integer that is not negative: the policy satisfies
    [parsed]. *)
Theorem parse_freq_parsed (max_str_digits : nat) (normal : value -> string)
    (config : value) (f : BackupFrequency) :
  _parse_freq max_str_digits normal config = Ok (Some f) -> parsed f.
Proof.
  rewrite parse_freq_as_items. set (t0 := mkTiers _ _ _ _).
  assert (Ht0 : tiers_ok t0) by (by repeat split).
  destruct (as_items config) as [items|]; [|done]. intros H.
  destruct (parse_items_outcome max_str_digits normal items t0 Ht0)
    as [(t' & Ht' & Hok)|[[msg Hmsg]|[Hv _]]];
    rewrite ?Ht', ?Hmsg, ?Hv in H; [|done..].
  cbn in H. by injection H as <-.
Qed.

Lemma parse_freq_parsed_witness :
  parsed (mkfreq 7 ALL_VALUE NO_VALUE 12).
Proof.
  apply (parse_freq_parsed 4300 plain_normal
           (VDict [("day", VScalar (SStr "7"));
                   ("week", VScalar (SStr "all"));
                   ("month", VScalar (SStr "no"));
                   ("year", VScalar (SStr "12"))])).
  vm_compute. reflexivity.
Defined.



(** The same value on an interpreter without the limit, and a value that
    the tests refuse. *)
Example parse_freq_long_value_no_limit :
  exists f,
    _parse_freq 0 plain_normal (VDict [("day", VScalar (SStr (ones 4301)))])
    = Ok (Some f).
Proof. eexists. vm_compute. reflexivity. Qed.

Example parse_freq_invalid_value :
  _parse_freq 4300 plain_normal (VDict [("day", VScalar (SStr "7d"))])
  = Raise (ConfigError "Invalid memory frequency 7d").
Proof. vm_compute. reflexivity. Qed.

End ParseFreqFacts.

(** ** [deep_merge] keeps every scalar *)
Section LeavesFacts.
Import Merge Leaves.

Lemma value_nested_ind (P : value -> Prop) :
  P VNone ->
  (forall s, P (VScalar s)) ->
  (forall l, Forall P l -> P (VList l)) ->
  (forall d, Forall (fun kv => P (snd kv)) d -> P (VDict d)) ->
  forall v, P v.
Proof.
  intros HN HS HL HD. fix IH 1. intros [|s|l|d].
  - exact HN.
  - apply HS.
  - apply HL. induction l as [|x l IHl]; constructor; [apply IH | exact IHl].
  - apply HD. induction d as [|[k x] d IHd]; constructor;
      [apply IH | exact IHd].
Qed.

Local Notation "'dict_leaves'" :=
  (flat_map (fun kv : string * value => leaves (snd kv))).

Lemma dict_set_new_leaves key val : forall d,
  dict_get key d = None ->
  dict_leaves (dict_set key val d) = dict_leaves d ++ leaves val.
Proof.
  induction d as [|[k v] d IH]; cbn; [by rewrite app_nil_r|].
  destruct (String.eqb k key); [done|]. intros H. cbn.
  by rewrite IH, app_assoc.
Qed.

Lemma dict_set_old_leaves key old : forall d,
  dict_get key d = Some old ->
  exists others,
    dict_leaves d ≡ₚ leaves old ++ others
    /\ forall val, dict_leaves (dict_set key val d) ≡ₚ leaves val ++ others.
Proof.
  induction d as [|[k v] d IH]; cbn; [done|].
  destruct (String.eqb k key).
  - intros [= ->]. by exists (dict_leaves d).
  - intros H. destruct (IH H) as (others & Hd & Hset).
    exists (leaves v ++ others). split.
    + rewrite Hd. by rewrite !app_assoc, (Permutation_app_comm (leaves v)).
    + intros val. cbn. rewrite Hset.
      by rewrite !app_assoc, (Permutation_app_comm (leaves v)).
Qed.

Lemma merge_items_leaves (merge : value -> value -> value) : forall items result,
  Forall (fun kv => forall src,
            leaves (merge src (snd kv)) ≡ₚ leaves src ++ leaves (snd kv))
         items ->
  dict_leaves (merge_items merge items result)
  ≡ₚ dict_leaves result ++ dict_leaves items.
Proof.
  induction items as [|[key val] items IH]; intros result Hall; cbn.
  - by rewrite app_nil_r.
  - apply Forall_cons in Hall as [Hval Hall]. cbn in Hval.
    rewrite (IH _ Hall), app_assoc. apply Permutation_app_tail.
    destruct (dict_get key result) as [old|] eqn:E.
    + destruct (dict_set_old_leaves key old result E) as (others & Hd & Hset).
      rewrite Hset, Hd, Hval.
      rewrite <- !app_assoc. apply Permutation_app_head.
      apply Permutation_app_comm.
    + by rewrite dict_set_new_leaves.
Qed.

(** X23: [deep_merge] neither drops nor repeats a scalar: the merged document
    holds the scalars of both documents, each as often as the two hold it
    together. *)
Theorem deep_merge_keeps_scalars (src new : value) :
  leaves (deep_merge src new) ≡ₚ leaves src ++ leaves new.
Proof.
  revert src. induction new as [|s|l IH|items IH] using value_nested_ind;
    intros src.
  - cbn. by rewrite app_nil_r.
  - destruct src as [|s'|r|d]; cbn; rewrite ?flat_map_app; cbn;
      by rewrite ?app_nil_r.
  - destruct src as [|s'|r|d]; cbn; rewrite ?flat_map_app; cbn;
      rewrite ?app_nil_r; try done.
    apply Permutation_app_comm.
  - destruct src as [|s'|r|d]; cbn; rewrite ?flat_map_app; cbn;
      rewrite ?app_nil_r; try done.
    by apply merge_items_leaves.
Qed.

End LeavesFacts.

(** ** [extract_keys] and [index_by] *)
Section UtilsFacts.
Import Utils.
Local Open Scope string_scope.
Local Open Scope list_scope.

Lemma extract_keys_from_lookup {V} : forall key_list (d r : gmap string V),
  forall k : string,
    fst (extract_keys_from key_list d r) !! k
    = (if decide (k ∈ key_list)
       then match d !! k with Some v => Some v | None => r !! k end
       else r !! k)
    /\ snd (extract_keys_from key_list d r) !! k
       = (if decide (k ∈ key_list) then None else d !! k).
Proof.
  induction key_list as [|key rest IH]; intros d r k; cbn.
  - case_decide as H; [by apply elem_of_nil in H | done].
  - assert (Hcons : forall X (x y : X),
              (if decide (k ∈ key :: rest) then x else y)
              = if decide (k = key) then x
                else if decide (k ∈ rest) then x else y).
    { intros X x y. destruct (decide (k = key)) as [->|Hne].
      - rewrite decide_True; [done | by left].
      - destruct (decide (k ∈ rest)) as [Hin|Hout].
        + rewrite decide_True; [done | by right].
        + rewrite decide_False; [done|].
          intros H. by apply elem_of_cons in H as [?|?]. }
    rewrite !Hcons. destruct (d !! key) as [v|] eqn:E.
    + destruct (IH (delete key d) (<[key := v]> r) k) as [-> ->].
      destruct (decide (k = key)) as [->|Hne].
      * rewrite lookup_delete_eq, lookup_insert_eq, E.
        split; by destruct (decide (key ∈ rest)).
      * by rewrite lookup_delete_ne, lookup_insert_ne by done.
    + destruct (IH d r k) as [-> ->].
      destruct (decide (k = key)) as [->|Hne]; [|done].
      rewrite E. split; by destruct (decide (key ∈ rest)).
Qed.

(** X24: [extract_keys] splits the dict in two: the keys of the list go, with
    their values, to the dict that is returned and leave the input dict;
    every other key stays where it was.  A key listed twice or missing from
    the input changes nothing. *)
Theorem extract_keys_splits {V} (input_dict : gmap string V)
    (key_list : list string) (k : string) :
  fst (extract_keys input_dict key_list) !! k
  = (if decide (k ∈ key_list) then input_dict !! k else None)
  /\ snd (extract_keys input_dict key_list) !! k
     = (if decide (k ∈ key_list) then None else input_dict !! k).
Proof.
  unfold extract_keys.
  destruct (extract_keys_from_lookup key_list input_dict ∅ k) as [-> ->].
  split; [|done]. rewrite lookup_empty.
  case_decide; [by destruct (input_dict !! k) | done].
Qed.

(** X25: [index_by] puts every element in the group of its key and nowhere
    else; a group keeps the order of the array, and no group is empty. *)
Theorem index_by_groups {A} (array : list A) (key : A -> string)
    (k : string) :
  index_by array key !! k
  = match List.filter (fun element => String.eqb (key element) k) array with
    | [] => None
    | group => Some group
    end.
Proof.
  unfold index_by. induction array as [|x array IH] using rev_ind; [done|].
  rewrite foldl_app, List.filter_app. cbn [foldl List.filter].
  rewrite append_to_lookup.
  destruct (String.eqb_spec (key x) k) as [->|Hne].
  - rewrite decide_True by done. rewrite IH.
    by destruct (List.filter _ array).
  - rewrite decide_False by done. by rewrite app_nil_r.
Qed.

End UtilsFacts.

(** ** The names derived from paths and databases *)
Section PrefixFacts.
Import PyStr Prefix.
Local Open Scope string_scope.
Local Open Scope list_scope.

Lemma is_alnum_plain c :
  is_alnum c = true ->
  is_underscore c = false /\ Ascii.eqb c "/" = false.
Proof.
  destruct c as [[] [] [] [] [] [] [] []]; cbn; intros H;
    try discriminate H; by split.
Qed.

Lemma is_underscore_eq c : is_underscore c = true -> c = "_"%char.
Proof. apply Ascii.eqb_eq. Qed.

Lemma sub_runs_single : forall s p,
  single_underscores p (sub_runs (fun c => negb (is_alnum c)) p s) = true.
Proof.
  induction s as [|c s IH]; intros p; cbn; [done|].
  destruct (is_alnum c) eqn:Hc; cbn.
  - destruct (is_alnum_plain c Hc) as [-> _]. by rewrite Hc, IH.
  - destruct p; [apply IH|]. cbn. apply IH.
Qed.

Lemma sub_runs_underscores_id : forall t p,
  single_underscores p t = true -> sub_runs is_underscore p t = t.
Proof.
  induction t as [|c t IH]; intros p; cbn; [done|].
  destruct (is_underscore c) eqn:Hc.
  - intros H. apply andb_true_iff in H as [Hp Ht].
    apply negb_true_iff in Hp as ->.
    by rewrite (is_underscore_eq c Hc), (IH _ Ht).
  - intros H. apply andb_true_iff in H as [_ Ht]. by rewrite (IH _ Ht).
Qed.

Lemma lstrip_single : forall t p,
  single_underscores p t = true ->
  single_underscores true (lstrip_underscores t) = true.
Proof.
  induction t as [|c t IH]; intros p; cbn; [done|].
  destruct (is_underscore c) eqn:Hc.
  - intros H. apply andb_true_iff in H as [_ Ht]. by apply (IH true).
  - intros H. cbn. by rewrite Hc.
Qed.

Lemma rstrip_word : forall u p,
  single_underscores p u = true ->
  word_from p (rstrip_underscores u) = true \/ rstrip_underscores u = "".
Proof.
  induction u as [|c u IH]; intros p; cbn; [by right|].
  destruct (is_underscore c) eqn:Hc.
  - intros H. apply andb_true_iff in H as [Hp Hu].
    apply negb_true_iff in Hp as ->.
    destruct (IH true Hu) as [Hw|E]; [|rewrite E; by right].
    destruct (rstrip_underscores u) as [|c' r] eqn:E; [by right|].
    left. cbn [word_from]. by rewrite Hc.
  - intros H. apply andb_true_iff in H as [Ha Hu].
    destruct (IH false Hu) as [Hw|E].
    + destruct (rstrip_underscores u) as [|c' r] eqn:E.
      * left. cbn. by rewrite Hc, Ha.
      * left. cbn [word_from]. by rewrite Hc, Ha.
    + rewrite E. left. cbn. by rewrite Hc, Ha.
Qed.

Lemma to_prefix_word s : word (to_prefix s) = true.
Proof.
  unfold to_prefix, strip_underscores.
  rewrite sub_runs_underscores_id by apply sub_runs_single.
  pose proof (lstrip_single _ _ (sub_runs_single s false)) as H.
  destruct (rstrip_word _ _ H) as [Hw|E]; [|by rewrite E].
  unfold word. by destruct (rstrip_underscores _).
Qed.

Lemma word_from_no_slash : forall s p,
  word_from p s = true -> contains "/" s = false.
Proof.
  induction s as [|c s IH]; intros p; cbn; [done|].
  destruct (is_underscore c) eqn:Hc.
  - intros H. apply andb_true_iff in H as [_ Hs].
    rewrite (is_underscore_eq c Hc). cbn. by apply (IH true).
  - intros H. apply andb_true_iff in H as [Ha Hs].
    destruct (is_alnum_plain c Ha) as [_ ->]. cbn. by apply (IH false).
Qed.

Lemma word_no_slash s : word s = true -> contains "/" s = false.
Proof. destruct s; [done|]. apply word_from_no_slash. Qed.

(** X26: The names that the resolver derives from a path or from a database
    entry are words of letters, digits and single underscores, with no
    underscore first or last; they hold no slash, and the name of a path is
    never [exclude]. *)
Theorem derived_names_are_words (file_path db_info : string) :
  word (_filename_to_prefix file_path) = true
  /\ contains "/" (_filename_to_prefix file_path) = false
  /\ _filename_to_prefix file_path <> "exclude"
  /\ word (_db_to_prefix db_info) = true
  /\ contains "/" (_db_to_prefix db_info) = false.
Proof.
  assert (Hf : word (_filename_to_prefix file_path) = true).
  { unfold _filename_to_prefix.
    destruct (String.eqb _ "exclude"); [done | apply to_prefix_word]. }
  split; [done|]. split; [by apply word_no_slash|]. split.
  - unfold _filename_to_prefix.
    destruct (String.eqb_spec (to_prefix file_path) "exclude"); done.
  - unfold _db_to_prefix. split; [apply to_prefix_word|].
    apply word_no_slash, to_prefix_word.
Qed.

Lemma word_from_single : forall s p,
  word_from p s = true -> single_underscores p s = true.
Proof.
  induction s as [|c s IH]; intros p; cbn; [done|].
  destruct (is_underscore c).
  - intros H. apply andb_true_iff in H as [-> Hs]. by rewrite (IH _ Hs).
  - intros H. apply andb_true_iff in H as [-> Hs]. by rewrite (IH _ Hs).
Qed.

Lemma sub_runs_word_id : forall s p,
  single_underscores p s = true ->
  sub_runs (fun c => negb (is_alnum c)) p s = s.
Proof.
  induction s as [|c s IH]; intros p; cbn; [done|].
  destruct (is_underscore c) eqn:Hc.
  - intros H. apply andb_true_iff in H as [Hp Hs].
    apply negb_true_iff in Hp as ->.
    rewrite (is_underscore_eq c Hc) in *. cbn. by rewrite (IH _ Hs).
  - intros H. apply andb_true_iff in H as [Ha Hs].
    rewrite Ha. cbn. by rewrite (IH _ Hs).
Qed.

Lemma rstrip_word_id : forall s p,
  word_from p s = true -> rstrip_underscores s = s.
Proof.
  induction s as [|c s IH]; intros p; cbn; [done|].
  destruct (is_underscore c) eqn:Hc.
  - intros H. apply andb_true_iff in H as [_ Hs]. rewrite (IH _ Hs).
    by destruct s.
  - intros H. apply andb_true_iff in H as [_ Hs]. rewrite (IH _ Hs).
    by destruct s.
Qed.

Lemma single_weaken s :
  single_underscores true s = true -> single_underscores false s = true.
Proof.
  destruct s as [|c s]; cbn; [done|]. by destruct (is_underscore c).
Qed.

(** X27: A name that is such a word already is kept as it is. *)
Theorem filename_to_prefix_of_word (s : string) :
  word s = true -> s <> "exclude" -> _filename_to_prefix s = s.
Proof.
  intros Hw Hne. assert (Hp : to_prefix s = s).
  { destruct s as [|c s]; [done|]. unfold word in Hw.
    unfold to_prefix, strip_underscores.
    assert (Hs : single_underscores false (String c s) = true)
      by (by apply single_weaken, word_from_single).
    rewrite sub_runs_word_id by done.
    rewrite sub_runs_underscores_id by done.
    assert (Hl : lstrip_underscores (String c s) = String c s).
    { cbn in *. by destruct (is_underscore c). }
    rewrite Hl. by apply (rstrip_word_id _ true). }
  unfold _filename_to_prefix. rewrite Hp.
  by destruct (String.eqb_spec s "exclude").
Qed.

Lemma filename_to_prefix_of_word_witness :
  _filename_to_prefix "var_www" = "var_www".
Proof.
  apply (filename_to_prefix_of_word "var_www"); [reflexivity | discriminate].
Defined.

End PrefixFacts.

(** ** The write checks of an action *)
Section DestAccessFacts.
Import WriteTest Actions DestAccess.
Local Open Scope string_scope.
Local Open Scope list_scope.

Variable w : WriteTest.world.

Lemma check_storages_run : forall storages detected st,
  check_storages w storages detected st
  = (detected ++ concat (fst (run w (map storage_target storages) st)),
     snd (run w (map storage_target storages) st)).
Proof.
  induction storages as [|s storages IH]; intros detected st; cbn.
  - by rewrite app_nil_r.
  - destruct (check_writable w (storage_target s) st) as [out st1].
    rewrite IH. destruct (run w (map storage_target storages) st1).
    cbn. by rewrite app_assoc.
Qed.

Lemma check_dest_access_run dest_folder storages st :
  check_dest_access w dest_folder storages st
  = (concat (fst (run w (Folder dest_folder
                          :: map storage_target storages) st)),
     snd (run w (Folder dest_folder :: map storage_target storages) st)).
Proof.
  unfold check_dest_access. cbn [run check_writable].
  destruct (check_folder_writable w dest_folder st) as [out st1].
  rewrite check_storages_run.
  by destruct (run w (map storage_target storages) st1).
Qed.

Lemma run_keeps : forall ts st t0 b,
  cached st t0 = Some b -> cached (snd (run w ts st)) t0 = Some b.
Proof.
  induction ts as [|t ts IH]; intros st t0 b H; cbn; [done|].
  destruct (check_writable w t st) as [out st1] eqn:E.
  pose proof (IH st1 t0 b (check_writable_keeps w _ _ _ _ _ _ E H)) as H1.
  by destruct (run w ts st1).
Qed.

(** After a run, every target of the run is in the cache, as a success
    exactly when the call on it returned no message. *)
Lemma run_caches : forall ts st,
  Forall2 (fun t out => exists b,
             cached (snd (run w ts st)) t = Some b
             /\ (out = [] <-> b = true))
          ts (fst (run w ts st)).
Proof.
  induction ts as [|t ts IH]; intros st; cbn; [constructor|].
  destruct (check_writable w t st) as [out st1] eqn:E.
  specialize (IH st1).
  assert (Hb : exists b, cached st1 t = Some b /\ (out = [] <-> b = true)).
  { destruct (cached st t) as [b|] eqn:Hc.
    - rewrite (check_writable_cached w _ _ _ Hc) in E.
      injection E as <- <-. exists b. split; [done|].
      destruct b, t; cbn; split; done.
    - destruct (check_writable_fresh w _ _ Hc)
        as (b & out' & st' & E' & _ & Hout & Hk).
      rewrite E' in E. injection E as <- <-. exists b. split; [|done].
      rewrite Hk. by rewrite decide_True. }
  destruct Hb as (b & Hb & Hout).
  pose proof (run_keeps ts st1 t b Hb) as Hkeep.
  destruct (run w ts st1) as [outs st2]. cbn in *.
  constructor; [by exists b | done].
Qed.

Lemma run_all_cached : forall ts st (outs : list (list string)),
  Forall2 (fun t out => exists b,
             cached st t = Some b /\ (out = [] <-> b = true)) ts outs ->
  snd (run w ts st) = st
  /\ Forall2 (fun out out' => out = [] <-> out' = [])
             outs (fst (run w ts st)).
Proof.
  induction ts as [|t ts IH]; intros st outs H.
  - apply Forall2_nil_inv_l in H as ->. split; [done | constructor].
  - apply Forall2_cons_inv_l in H as (out & outs' & (b & Hb & Hout) & H & ->).
    cbn. rewrite (check_writable_cached w _ _ _ Hb).
    destruct (IH st outs' H) as [Hst Houts].
    destruct (run w ts st) as [outs2 st2]. cbn in *. split; [done|].
    constructor; [|done]. rewrite Hout.
    destruct b, t; cbn; split; done.
Qed.

Lemma concat_nil_iff {A} (outs outs' : list (list A)) :
  Forall2 (fun out out' => out = [] <-> out' = []) outs outs' ->
  concat outs = [] <-> concat outs' = [].
Proof.
  induction 1 as [|out out' outs outs' Ho _ IH]; [done|]. cbn.
  split; intros H; apply app_eq_nil in H as [H1 H2];
    apply app_nil; split; tauto.
Qed.

(** X28: A second [check_dest_access] on the same action makes no real probe,
    and reports an error exactly when the first one did, whatever the
    state of the caches before the first one. *)
Theorem check_dest_access_again (dest_folder : string)
    (storages : list Storage) (st : WriteTest.state) :
  let first := check_dest_access w dest_folder storages st in
  let second := check_dest_access w dest_folder storages (snd first) in
  snd second = snd first /\ (fst second = [] <-> fst first = []).
Proof.
  cbn zeta. rewrite !check_dest_access_run. cbn [fst snd].
  set (ts := Folder dest_folder :: map storage_target storages).
  destruct (run_all_cached ts _ _ (run_caches ts st)) as [Hst Houts].
  split; [done|]. symmetry. by apply concat_nil_iff.
Qed.

End DestAccessFacts.

(** ** The check of the archive names, when every action prints *)
Section FullNameFacts.
Import PyStr Actions.
Local Open Scope string_scope.
Local Open Scope list_scope.

Lemma check_against_outcome p a others :
  (forall x, x = a \/ x ∈ others -> returns (to_str p x)) ->
  check_against p a others = Ok tt
  \/ exists msg, check_against p a others = Raise (ConfigError msg).
Proof.
  intros Hstr. induction others as [|o others IH]; [by left|]. cbn.
  assert (Hrest : check_against p a others = Ok tt
                  \/ exists msg,
                       check_against p a others = Raise (ConfigError msg)).
  { apply IH. intros x [->|Hx]; apply Hstr; [by left | right; by right]. }
  destruct (id a =? id o)%nat; [done|].
  destruct (String.eqb (full_name a) (full_name o)); [|done].
  destruct (Hstr a ltac:(by left)) as [s1 ->].
  destruct (Hstr o ltac:(right; by left)) as [s2 ->]. cbn.
  right. by eexists.
Qed.

Lemma check_each_outcome p all : forall actions,
  (forall x, x ∈ all -> returns (to_str p x)) ->
  (forall x, x ∈ actions -> x ∈ all) ->
  check_each p all actions = Ok tt
  \/ exists msg, check_each p all actions = Raise (ConfigError msg).
Proof.
  intros actions Hstr. induction actions as [|a actions IH]; intros Hsub;
    [by left|]. cbn.
  destruct (check_against_outcome p a all) as [->|[msg ->]].
  - intros x [->|Hx]; apply Hstr; [apply Hsub; by left | done].
  - cbn. apply IH. intros x Hx. apply Hsub. by right.
  - right. by eexists.
Qed.

(** X29: When every action can be printed, the check raises [ConfigError] as
    soon as two distinct actions share a full name. *)
Theorem check_full_names_config_error (p : printer) (actions : list Action)
    (a b : Action) :
  (forall x, x ∈ actions -> returns (to_str p x)) ->
  a ∈ actions -> b ∈ actions -> id a <> id b -> full_name a = full_name b ->
  exists msg, check_full_names p actions = Raise (ConfigError msg).
Proof.
  intros Hstr Ha Hb Hid Hname.
  destruct (check_each_outcome p actions actions Hstr ltac:(done))
    as [Hok|Hraise]; [|done].
  exfalso. pose proof (proj1 (check_full_names_ok p actions) Hok) as Hall.
  by apply (Hall a b).
Qed.

Lemma check_full_names_config_error_witness :
  exists msg,
    check_full_names plain_printer www_twice_staged = Raise (ConfigError msg).
Proof.
  apply (check_full_names_config_error plain_printer www_twice_staged
           (mkAction 0 "web1" "web1" "www" (Some "/staging") None None
                     (FileAction "/var/www" []) [])
           (mkAction 1 "web1" "web1" "www" (Some "/staging") None None
                     (FileAction "/srv/www" []) [])).
  - intros x Hx. unfold www_twice_staged in Hx.
    apply elem_of_cons in Hx as [->|Hx]; [by eexists|].
    apply list_elem_of_singleton in Hx as ->. by eexists.
  - by left.
  - right. by left.
  - discriminate.
  - reflexivity.
Defined.

Lemma load_conf_distinct_names_witness :
  NoDup (map full_name db_actions).
Proof.
  apply (load_conf_distinct_names plain_printer (Ok db_actions) (Ok tt)
                                  db_actions tt).
  - reflexivity.
  - cbn. apply NoDup_cons. split; [|apply NoDup_singleton].
    intros H. apply list_elem_of_singleton in H. discriminate H.
Defined.

End FullNameFacts.
